(** * camera-toolkit: the RTP packetizer ([src/rtp_packer.cpp])

    A shallow embedding of [RTPPacker::Impl] (constructor, [put], [get],
    [getNextNalu]) and of the helpers of its anonymous namespace, followed by
    the properties of the packetizer.

    Modelling conventions.
    - A [char]/[uint8_t] is a [Z] in [0, 256).  The code only compares bytes
      with 0 and 1 and masks them with positive constants, so the signedness
      of [char] plays no role.
    - An [int] is a [Z].  Signed overflow is undefined in C++ and every [int]
      of the packetizer is bounded by a buffer size, so no wrap-around is
      written for them.  [uint16_t seqNum_] wraps modulo 65536 and the
      [uint32_t] time stamps wrap modulo 2^32; both are written out.
    - A [char*] into the input buffer is the offset from [inBuffer_];
      [nullptr] is [None].  The storage a [Buffer] points to is a list of
      bytes, which may be longer than the [size] the [Buffer] declares.
    - Reading or writing outside the storage, dividing by zero and a negative
      [memcpy] length are undefined behaviour: the model returns [None]
      (in [get]: the outcome [Undefined]).
    - The bit-field structs are laid out as their comments say (first
      declared field in the least significant bits); they are overlaid on the
      output buffer, so a field assignment is a read-modify-write of one
      byte of [outBuffer_].
    - [getCurrentMillisec] reads the wall clock: the reading is an argument
      ([now]) of the constructor and of [get].

    The file also covers the loop of [main] that drains the packetizer
    ([camera_toolkit.cpp]) and the timestamp overlay ([Timestamp.cpp]);
    their conventions are stated with their definitions. *)

From Stdlib Require Import String ZArith List Bool Lia.
From Equations Require Import Equations.
Import ListNotations.
Open Scope Z_scope.

(** ** Undefined behaviour as [option] *)

Notation "x <- e ;; k" :=
  (match e with Some x => k | None => None end)
  (at level 61, e at next level, right associativity, only parsing).

(** ** [common.h]: [Buffer] *)

(** [struct Buffer { void* data; int size; }].  [data] is the storage pointed
    to ([None] for [nullptr]); [size] is the declared size. *)
Record Buffer := mkBuffer {
  data : option (list Z);
  size : Z
}.

(** The bytes seen through a buffer: the first [size] bytes of its storage. *)
Definition bytesOf (b : Buffer) : list Z :=
  match data b with
  | Some mem => firstn (Z.to_nat (size b)) mem
  | None => []
  end.

(** ** [rtp_packer.h]: [RTPPackerParams] *)

Record RTPPackerParams := mkParams {
  maxPacketLength : Z;
  ssrc : Z
}.

(** ** Anonymous namespace of [rtp_packer.cpp] *)

Definition H264_PAYLOAD_TYPE : Z := 96.
Definition MAX_OUTBUF_SIZE : Z := 10 * 1024.

(** [struct NALU]; [ndata] is the field [data]. *)
Record NALU := mkNALU {
  startCodeLen : Z;
  ndata : option Z;
  len : Z;
  forbiddenBit : Z;
  nalRefIdc : Z;
  nalUnitType : Z
}.

Definition NALU_default : NALU := mkNALU 0 None 0 0 0 0.

(** *** Memory access *)

(** [mem[i]] *)
Definition rd (mem : list Z) (i : Z) : option Z :=
  if i <? 0 then None else nth_error mem (Z.to_nat i).

Fixpoint upd (l : list Z) (n : nat) (f : Z -> Z) : list Z :=
  match l, n with
  | [], _ => []
  | b :: t, O => f b :: t
  | b :: t, S n' => b :: upd t n' f
  end.

(** The byte [b] after the assignment of [v] to its bit-field of [width]
    bits starting at bit [lo]: the value is truncated to the width and the
    other bits of the byte are kept. *)
Definition bf (lo width v b : Z) : Z :=
  Z.lor (Z.ldiff b (Z.shiftl (Z.ones width) lo))
        (Z.shiftl (Z.land v (Z.ones width)) lo).

(** Conversion to [uint8_t]. *)
Definition u8 (v : Z) : Z := v mod 256.

(** Assignment to a bit-field of the byte at offset [off]. *)
Definition store_bits (out : list Z) (off lo width v : Z) : list Z :=
  upd out (Z.to_nat off) (bf lo width v).

Definition store_byte (out : list Z) (off v : Z) : list Z :=
  upd out (Z.to_nat off) (fun _ => u8 v).

(** [field = htons(v)] on a [uint16_t] field at offset [off]: the two bytes
    of [v] in network order. *)
Definition store_htons (out : list Z) (off v : Z) : list Z :=
  store_byte (store_byte out off (Z.shiftr v 8)) (off + 1) v.

(** [field = htonl(v)] on a [uint32_t] field at offset [off]. *)
Definition store_htonl (out : list Z) (off v : Z) : list Z :=
  store_byte (store_byte (store_byte (store_byte out
    off (Z.shiftr v 24)) (off + 1) (Z.shiftr v 16)) (off + 2) (Z.shiftr v 8))
    (off + 3) v.

(** [std::memset(out, 0, n)] on a buffer of exactly [n] bytes. *)
Definition memset0 (n : Z) : list Z := repeat 0 (Z.to_nat n).

(** [std::memcpy(out + doff, mem + soff, n)]: undefined when [n] is negative
    (it converts to a huge [size_t]) or when a range leaves its storage. *)
Definition memcpy (out : list Z) (doff : Z) (mem : list Z) (soff n : Z)
  : option (list Z) :=
  if (n <? 0) || (soff <? 0) || (doff <? 0) then None
  else if Z.of_nat (length mem) <? soff + n then None
  else if Z.of_nat (length out) <? doff + n then None
  else Some (firstn (Z.to_nat doff) out
             ++ firstn (Z.to_nat n) (skipn (Z.to_nat soff) mem)
             ++ skipn (Z.to_nat (doff + n)) out).

(** *** Start codes *)

(** [buf[0] == 0 && buf[1] == 0 && buf[2] == 0 && buf[3] == 1]; [&&] reads
    the next byte only when the previous test succeeded. *)
Definition isStartCode4 (mem : list Z) (buf : Z) : option bool :=
  b0 <- rd mem buf ;;
  if negb (b0 =? 0) then Some false else
  b1 <- rd mem (buf + 1) ;;
  if negb (b1 =? 0) then Some false else
  b2 <- rd mem (buf + 2) ;;
  if negb (b2 =? 0) then Some false else
  b3 <- rd mem (buf + 3) ;;
  Some (b3 =? 1).

(** [buf[0] == 0 && buf[1] == 0 && buf[2] == 1] *)
Definition isStartCode3 (mem : list Z) (buf : Z) : option bool :=
  b0 <- rd mem buf ;;
  if negb (b0 =? 0) then Some false else
  b1 <- rd mem (buf + 1) ;;
  if negb (b1 =? 0) then Some false else
  b2 <- rd mem (buf + 2) ;;
  Some (b2 =? 1).

(** [isStartCode3(buf) || isStartCode4(buf)] *)
Definition isStartCode (mem : list Z) (buf : Z) : option bool :=
  sc3 <- isStartCode3 mem buf ;;
  if sc3 then Some true else isStartCode4 mem buf.

(** ** [class RTPPacker::Impl] *)

Record Impl := mkImpl {
  params_ : RTPPackerParams;
  outBuffer_ : list Z;
  inBuffer_ : option (list Z);
  nextNaluPtr_ : option Z;
  inBufferSize_ : Z;
  fuCounter_ : Z;
  lastFuSize_ : Z;
  fuIndex_ : Z;
  inBufferComplete_ : bool;
  naluComplete_ : bool;
  nalu_ : NALU;
  seqNum_ : Z;
  tsStartMillisec_ : Z;
  tsCurrentSample_ : Z
}.

(** Field assignments. *)
Definition set_outBuffer_ (v : list Z) (s : Impl) : Impl :=
  mkImpl (params_ s) v (inBuffer_ s) (nextNaluPtr_ s) (inBufferSize_ s)
    (fuCounter_ s) (lastFuSize_ s) (fuIndex_ s) (inBufferComplete_ s)
    (naluComplete_ s) (nalu_ s) (seqNum_ s) (tsStartMillisec_ s)
    (tsCurrentSample_ s).
Definition set_inBuffer_ (v : option (list Z)) (s : Impl) : Impl :=
  mkImpl (params_ s) (outBuffer_ s) v (nextNaluPtr_ s) (inBufferSize_ s)
    (fuCounter_ s) (lastFuSize_ s) (fuIndex_ s) (inBufferComplete_ s)
    (naluComplete_ s) (nalu_ s) (seqNum_ s) (tsStartMillisec_ s)
    (tsCurrentSample_ s).
Definition set_nextNaluPtr_ (v : option Z) (s : Impl) : Impl :=
  mkImpl (params_ s) (outBuffer_ s) (inBuffer_ s) v (inBufferSize_ s)
    (fuCounter_ s) (lastFuSize_ s) (fuIndex_ s) (inBufferComplete_ s)
    (naluComplete_ s) (nalu_ s) (seqNum_ s) (tsStartMillisec_ s)
    (tsCurrentSample_ s).
Definition set_inBufferSize_ (v : Z) (s : Impl) : Impl :=
  mkImpl (params_ s) (outBuffer_ s) (inBuffer_ s) (nextNaluPtr_ s) v
    (fuCounter_ s) (lastFuSize_ s) (fuIndex_ s) (inBufferComplete_ s)
    (naluComplete_ s) (nalu_ s) (seqNum_ s) (tsStartMillisec_ s)
    (tsCurrentSample_ s).
Definition set_fuCounter_ (v : Z) (s : Impl) : Impl :=
  mkImpl (params_ s) (outBuffer_ s) (inBuffer_ s) (nextNaluPtr_ s)
    (inBufferSize_ s) v (lastFuSize_ s) (fuIndex_ s) (inBufferComplete_ s)
    (naluComplete_ s) (nalu_ s) (seqNum_ s) (tsStartMillisec_ s)
    (tsCurrentSample_ s).
Definition set_lastFuSize_ (v : Z) (s : Impl) : Impl :=
  mkImpl (params_ s) (outBuffer_ s) (inBuffer_ s) (nextNaluPtr_ s)
    (inBufferSize_ s) (fuCounter_ s) v (fuIndex_ s) (inBufferComplete_ s)
    (naluComplete_ s) (nalu_ s) (seqNum_ s) (tsStartMillisec_ s)
    (tsCurrentSample_ s).
Definition set_fuIndex_ (v : Z) (s : Impl) : Impl :=
  mkImpl (params_ s) (outBuffer_ s) (inBuffer_ s) (nextNaluPtr_ s)
    (inBufferSize_ s) (fuCounter_ s) (lastFuSize_ s) v (inBufferComplete_ s)
    (naluComplete_ s) (nalu_ s) (seqNum_ s) (tsStartMillisec_ s)
    (tsCurrentSample_ s).
Definition set_inBufferComplete_ (v : bool) (s : Impl) : Impl :=
  mkImpl (params_ s) (outBuffer_ s) (inBuffer_ s) (nextNaluPtr_ s)
    (inBufferSize_ s) (fuCounter_ s) (lastFuSize_ s) (fuIndex_ s) v
    (naluComplete_ s) (nalu_ s) (seqNum_ s) (tsStartMillisec_ s)
    (tsCurrentSample_ s).
Definition set_naluComplete_ (v : bool) (s : Impl) : Impl :=
  mkImpl (params_ s) (outBuffer_ s) (inBuffer_ s) (nextNaluPtr_ s)
    (inBufferSize_ s) (fuCounter_ s) (lastFuSize_ s) (fuIndex_ s)
    (inBufferComplete_ s) v (nalu_ s) (seqNum_ s) (tsStartMillisec_ s)
    (tsCurrentSample_ s).
Definition set_nalu_ (v : NALU) (s : Impl) : Impl :=
  mkImpl (params_ s) (outBuffer_ s) (inBuffer_ s) (nextNaluPtr_ s)
    (inBufferSize_ s) (fuCounter_ s) (lastFuSize_ s) (fuIndex_ s)
    (inBufferComplete_ s) (naluComplete_ s) v (seqNum_ s)
    (tsStartMillisec_ s) (tsCurrentSample_ s).
Definition set_seqNum_ (v : Z) (s : Impl) : Impl :=
  mkImpl (params_ s) (outBuffer_ s) (inBuffer_ s) (nextNaluPtr_ s)
    (inBufferSize_ s) (fuCounter_ s) (lastFuSize_ s) (fuIndex_ s)
    (inBufferComplete_ s) (naluComplete_ s) (nalu_ s) v
    (tsStartMillisec_ s) (tsCurrentSample_ s).
Definition set_tsCurrentSample_ (v : Z) (s : Impl) : Impl :=
  mkImpl (params_ s) (outBuffer_ s) (inBuffer_ s) (nextNaluPtr_ s)
    (inBufferSize_ s) (fuCounter_ s) (lastFuSize_ s) (fuIndex_ s)
    (inBufferComplete_ s) (naluComplete_ s) (nalu_ s) (seqNum_ s)
    (tsStartMillisec_ s) v.

(** The constructor: [outBuffer_.resize(MAX_OUTBUF_SIZE)],
    [tsStartMillisec_ = getCurrentMillisec()], and the default member
    initialisers. *)
Definition Impl_new (params : RTPPackerParams) (now : Z) : Impl :=
  mkImpl params (memset0 MAX_OUTBUF_SIZE) None None 0 0 0 0 false true
    NALU_default 0 now 0.

(** [put] *)
Definition put (input : Buffer) (s : Impl) : Impl :=
  let s := set_inBuffer_ (data input) s in
  let s := set_nextNaluPtr_ (match inBuffer_ s with
                             | Some _ => Some 0
                             | None => None
                             end) s in
  let s := set_inBufferSize_ (size input) s in
  let s := set_fuCounter_ 0 s in
  let s := set_lastFuSize_ 0 s in
  let s := set_fuIndex_ 0 s in
  let s := set_inBufferComplete_ false s in
  set_naluComplete_ true s.

(** The [while (true)] loop of [getNextNalu], entered with
    [nextPtr = curNaluPtr + startCodeLen].  It returns the final [nextPtr]
    and the new [nextNaluPtr_].  It terminates: [nextPtr] grows until it
    reaches [inBufferSize_]. *)
Equations? scanNext (mem : list Z) (inBufferSize nextPtr : Z)
  : option (Z * option Z) by wf (Z.to_nat (inBufferSize - nextPtr)) lt :=
  scanNext mem inBufferSize nextPtr
    with Z_lt_dec (nextPtr + 1) inBufferSize => {
    | right _ := Some (nextPtr + 1, None);
    | left _ with isStartCode mem (nextPtr + 1) => {
        | None := None;
        | Some true := Some (nextPtr + 1, Some (nextPtr + 1));
        | Some false := scanNext mem inBufferSize (nextPtr + 1) } }.
Proof. lia. Qed.

(** The start-code test at the head of [getNextNalu]: the start code length,
    or [-1] when neither start code is there. *)
Definition startCodeLenAt (mem : list Z) (p : Z) : option Z :=
  sc3 <- isStartCode3 mem p ;;
  if sc3 then Some 3 else
  sc4 <- isStartCode4 mem p ;;
  if sc4 then Some 4 else Some (-1).

(** [getNextNalu]: the returned [int] and the new state. *)
Definition getNextNalu (s : Impl) : option (Z * Impl) :=
  match nextNaluPtr_ s with
  | None => Some (0, s)
  | Some curNaluPtr =>
    mem <- inBuffer_ s ;;
    scl <- startCodeLenAt mem curNaluPtr ;;
    if scl <? 0 then Some (-1, s) else
    r <- scanNext mem (inBufferSize_ s) (curNaluPtr + scl) ;;
    let nextPtr := fst r in
    let s := set_nextNaluPtr_ (snd r) s in
    let d := curNaluPtr + scl in
    h <- rd mem d ;;
    let s := set_nalu_ (mkNALU scl (Some d) (nextPtr - curNaluPtr - scl)
                          (Z.shiftr (Z.land h 128) 7)
                          (Z.shiftr (Z.land h 96) 5)
                          (Z.land h 31)) s in
    Some (1, s)
  end.

(** What a call of [get] does. *)
Inductive Outcome :=
| Packet (b : Buffer)            (* returns a Buffer *)
| Nullopt                        (* returns std::nullopt *)
| PackException (message : string)  (* throws PackException(message) *)
| Undefined.                     (* undefined behaviour *)

(** [static_cast<uint32_t>((getCurrentMillisec() - tsStartMillisec_) * 90.0)]:
    the difference is taken in [uint32_t]; the product is exact in [double];
    the conversion back is written as the reduction modulo 2^32. *)
Definition sampleTime (now tsStart : Z) : Z :=
  (((now - tsStart) mod 2 ^ 32) * 90) mod 2 ^ 32.

(** [memcpy] from the NALU at [nalu_.data + off] into [out + doff]. *)
Definition copyNalu (out : list Z) (doff : Z) (s : Impl) (off n : Z)
  : option (list Z) :=
  mem <- inBuffer_ s ;;
  d <- ndata (nalu_ s) ;;
  memcpy out doff mem (d + off) n.

Definition overflow : Outcome := PackException "RTP output buffer overflow".

(** [get] *)
Definition get (now : Z) (s : Impl) : Outcome * Impl :=
  if inBufferComplete_ s then (Nullopt, s) else
  let out := memset0 MAX_OUTBUF_SIZE in
  let out := store_bits out 1 0 7 H264_PAYLOAD_TYPE in    (* payload *)
  let out := store_bits out 0 6 2 2 in                    (* version *)
  let out := store_bits out 1 7 1 0 in                    (* marker *)
  let out := store_htonl out 8 (ssrc (params_ s)) in      (* ssrc *)
  let max := maxPacketLength (params_ s) in
  if naluComplete_ s then
    match getNextNalu s with
    | None => (Undefined, s)
    | Some (ret, s) =>
      if ret <=? 0 then
        (Nullopt, set_inBufferComplete_ true (set_outBuffer_ out s))
      else
      let out := store_htons out 2 (seqNum_ s) in
      let s := set_seqNum_ ((seqNum_ s + 1) mod 65536) s in
      let s := set_tsCurrentSample_ (sampleTime now (tsStartMillisec_ s)) s in
      let out := store_htonl out 4 (tsCurrentSample_ s) in
      if len (nalu_ s) <=? max then
        let out := store_bits out 1 7 1 1 in                         (* marker *)
        let out := store_bits out 12 7 1 (forbiddenBit (nalu_ s)) in (* f *)
        let out := store_bits out 12 5 2 (nalRefIdc (nalu_ s)) in    (* nri *)
        let out := store_bits out 12 0 5 (nalUnitType (nalu_ s)) in  (* type *)
        let outSize := len (nalu_ s) + 12 in
        if MAX_OUTBUF_SIZE <? outSize then (overflow, set_outBuffer_ out s)
        else
        match copyNalu out 13 s 1 (len (nalu_ s) - 1) with
        | None => (Undefined, s)
        | Some out =>
          let s := set_naluComplete_ true (set_outBuffer_ out s) in
          (Packet (mkBuffer (Some out) outSize), s)
        end
      else
        if max =? 0 then (Undefined, s) else
        let s :=
          if Z.rem (len (nalu_ s)) max =? 0 then
            set_lastFuSize_ max
              (set_fuCounter_ (Z.quot (len (nalu_ s)) max - 1) s)
          else
            set_lastFuSize_ (Z.rem (len (nalu_ s)) max)
              (set_fuCounter_ (Z.quot (len (nalu_ s)) max) s) in
        let s := set_fuIndex_ 0 s in
        let out := store_bits out 1 7 1 0 in                         (* marker *)
        let out := store_bits out 12 7 1 (forbiddenBit (nalu_ s)) in (* f *)
        let out := store_bits out 12 5 2 (nalRefIdc (nalu_ s)) in    (* nri *)
        let out := store_bits out 12 0 5 28 in                       (* type *)
        let out := store_bits out 13 6 1 0 in                        (* e *)
        let out := store_bits out 13 5 1 0 in                        (* r *)
        let out := store_bits out 13 7 1 1 in                        (* s *)
        let out := store_bits out 13 0 5 (nalUnitType (nalu_ s)) in  (* type *)
        let outSize := max + 14 in
        if MAX_OUTBUF_SIZE <? outSize then (overflow, set_outBuffer_ out s)
        else
        match copyNalu out 14 s 1 max with
        | None => (Undefined, s)
        | Some out =>
          let s := set_naluComplete_ false (set_outBuffer_ out s) in
          let s := set_fuIndex_ (fuIndex_ s + 1) s in
          (Packet (mkBuffer (Some out) outSize), s)
        end
    end
  else
    let out := store_htons out 2 (seqNum_ s) in
    let s := set_seqNum_ ((seqNum_ s + 1) mod 65536) s in
    let out := store_htonl out 4 (tsCurrentSample_ s) in
    if fuIndex_ s =? fuCounter_ s then
      let out := store_bits out 1 7 1 1 in                         (* marker *)
      let out := store_bits out 12 7 1 (forbiddenBit (nalu_ s)) in (* f *)
      let out := store_bits out 12 5 2 (nalRefIdc (nalu_ s)) in    (* nri *)
      let out := store_bits out 12 0 5 28 in                       (* type *)
      let out := store_bits out 13 5 1 0 in                        (* r *)
      let out := store_bits out 13 7 1 0 in                        (* s *)
      let out := store_bits out 13 0 5 (nalUnitType (nalu_ s)) in  (* type *)
      let out := store_bits out 13 6 1 1 in                        (* e *)
      let outSize := lastFuSize_ s - 1 + 14 in
      if MAX_OUTBUF_SIZE <? outSize then (overflow, set_outBuffer_ out s)
      else
      match copyNalu out 14 s (1 + fuIndex_ s * max) (lastFuSize_ s - 1) with
      | None => (Undefined, s)
      | Some out =>
        let s := set_naluComplete_ true (set_outBuffer_ out s) in
        let s := set_fuIndex_ 0 s in
        (Packet (mkBuffer (Some out) outSize), s)
      end
    else
      let out := store_bits out 1 7 1 0 in                         (* marker *)
      let out := store_bits out 12 7 1 (forbiddenBit (nalu_ s)) in (* f *)
      let out := store_bits out 12 5 2 (nalRefIdc (nalu_ s)) in    (* nri *)
      let out := store_bits out 12 0 5 28 in                       (* type *)
      let out := store_bits out 13 5 1 0 in                        (* r *)
      let out := store_bits out 13 7 1 0 in                        (* s *)
      let out := store_bits out 13 0 5 (nalUnitType (nalu_ s)) in  (* type *)
      let out := store_bits out 13 6 1 0 in                        (* e *)
      let outSize := max + 14 in
      if MAX_OUTBUF_SIZE <? outSize then (overflow, set_outBuffer_ out s)
      else
      match copyNalu out 14 s (1 + fuIndex_ s * max) max with
      | None => (Undefined, s)
      | Some out =>
        let s := set_fuIndex_ (fuIndex_ s + 1) (set_outBuffer_ out s) in
        (Packet (mkBuffer (Some out) outSize), s)
      end.

(** Successive calls of [get], one per clock reading. *)
Fixpoint gets (nows : list Z) (s : Impl) : list Outcome * Impl :=
  match nows with
  | [] => ([], s)
  | now :: rest =>
    let (o, s1) := get now s in
    let (os, s2) := gets rest s1 in
    (o :: os, s2)
  end.

(** Scenario A of the specification: a 4-byte start code and a 10-byte NALU. *)
Definition scenarioA : Buffer :=
  mkBuffer (Some [0;0;0;1; 101;1;2;3;4;5;6;7;8;9]) 14.

Definition defaultParams : RTPPackerParams := mkParams 1400 1234.

(** ** The wire format (RFC 3550 header, RFC 6184 FU-A) *)

(** Readers of a packet, after the byte layout of the wire format. *)
Definition pktByte (p : list Z) (i : nat) : Z := nth i p 0.
Definition pktVersion (p : list Z) : Z := Z.shiftr (pktByte p 0) 6.
Definition pktMarker (p : list Z) : bool := Z.testbit (pktByte p 1) 7.
Definition pktPayloadType (p : list Z) : Z := Z.land (pktByte p 1) 127.
Definition pktSeq (p : list Z) : Z := pktByte p 2 * 256 + pktByte p 3.
Definition pktTimestamp (p : list Z) : Z :=
  ((pktByte p 4 * 256 + pktByte p 5) * 256 + pktByte p 6) * 256 + pktByte p 7.
Definition pktSsrc (p : list Z) : Z :=
  ((pktByte p 8 * 256 + pktByte p 9) * 256 + pktByte p 10) * 256 + pktByte p 11.
Definition fuS (p : list Z) : bool := Z.testbit (pktByte p 13) 7.
Definition fuE (p : list Z) : bool := Z.testbit (pktByte p 13) 6.
Definition fuType (p : list Z) : Z := Z.land (pktByte p 13) 31.
Definition wholePayload (p : list Z) : list Z := skipn 13 p.
Definition fuPayload (p : list Z) : list Z := skipn 14 p.

(** [mem[off .. off + n)] *)
Definition slice (mem : list Z) (off n : Z) : list Z :=
  firstn (Z.to_nat n) (skipn (Z.to_nat off) mem).

(** The twelve bytes of the RTP header, as [get] leaves them. *)
Definition rtpHeader (marker seq ts ssrc : Z) : list Z :=
  [ bf 6 2 2 0;
    bf 7 1 marker (bf 7 1 0 (bf 0 7 H264_PAYLOAD_TYPE 0));
    u8 (Z.shiftr seq 8); u8 seq;
    u8 (Z.shiftr ts 24); u8 (Z.shiftr ts 16); u8 (Z.shiftr ts 8); u8 ts;
    u8 (Z.shiftr ssrc 24); u8 (Z.shiftr ssrc 16); u8 (Z.shiftr ssrc 8);
    u8 ssrc ].

(** Byte 12 of a whole packet and of a fragment, byte 13 of a fragment. *)
Definition naluHeaderByte (n : NALU) : Z :=
  bf 0 5 (nalUnitType n) (bf 5 2 (nalRefIdc n) (bf 7 1 (forbiddenBit n) 0)).
Definition fuIndicatorByte (n : NALU) : Z :=
  bf 0 5 28 (bf 5 2 (nalRefIdc n) (bf 7 1 (forbiddenBit n) 0)).
Definition fuHeaderFirst (n : NALU) : Z :=
  bf 0 5 (nalUnitType n) (bf 7 1 1 (bf 5 1 0 (bf 6 1 0 0))).
Definition fuHeaderNext (e : Z) (n : NALU) : Z :=
  bf 6 1 e (bf 0 5 (nalUnitType n) (bf 7 1 0 (bf 5 1 0 0))).

(** The bytes of the packet a call returns, if it returns one. *)
Definition emitted (o : Outcome) : option (list Z) :=
  match o with
  | Packet b => Some (bytesOf b)
  | _ => None
  end.

(** ** Fragmentation *)

(** The fragment counter and the size of the last fragment, as the
    fragmented path of [get] sets [fuCounter_] and [lastFuSize_]. *)
Definition fuCount (len max : Z) : Z :=
  if Z.rem len max =? 0 then Z.quot len max - 1 else Z.quot len max.
Definition fuLast (len max : Z) : Z :=
  if Z.rem len max =? 0 then max else Z.rem len max.

(** The size [get] computes for the packet it is about to build ([outSize]),
    on the path it takes in state [s]; [None] when it returns before
    computing one. *)
Definition computedSize (s : Impl) : option Z :=
  let max := maxPacketLength (params_ s) in
  if inBufferComplete_ s then None else
  if naluComplete_ s then
    match getNextNalu s with
    | None => None
    | Some (ret, s1) =>
      if ret <=? 0 then None
      else if len (nalu_ s1) <=? max then Some (len (nalu_ s1) + 12)
      else if max =? 0 then None
      else Some (max + 14)
    end
  else if fuIndex_ s =? fuCounter_ s then Some (lastFuSize_ s - 1 + 14)
  else Some (max + 14).

(** The state between two fragments of the NAL unit at [mem + d]: what the
    first-fragment path establishes and the middle-fragment path keeps. *)
Record FragState (mem : list Z) (d : Z) (s : Impl) : Prop := {
  fs_bc : inBufferComplete_ s = false;
  fs_nc : naluComplete_ s = false;
  fs_mem : inBuffer_ s = Some mem;
  fs_data : ndata (nalu_ s) = Some d;
  fs_d : 0 <= d;
  fs_in : d + len (nalu_ s) <= Z.of_nat (length mem);
  fs_max : 1 <= maxPacketLength (params_ s) < len (nalu_ s);
  fs_fit : maxPacketLength (params_ s) + 14 <= MAX_OUTBUF_SIZE;
  fs_cnt : fuCounter_ s = fuCount (len (nalu_ s)) (maxPacketLength (params_ s));
  fs_last : lastFuSize_ s = fuLast (len (nalu_ s)) (maxPacketLength (params_ s));
  fs_idx : 1 <= fuIndex_ s <= fuCounter_ s
}.

(** The fragments after the first one, from fragment [i] on: [k] middle
    fragments and the final one.  [seq] is the sequence number of fragment
    [i]. *)
Fixpoint nextFragments (k : nat) (mem : list Z) (n : NALU)
         (d max last ts ssrc seq i : Z) : list (list Z) :=
  match k with
  | O =>
    [ rtpHeader 1 seq ts ssrc
      ++ [fuIndicatorByte n; fuHeaderNext 1 n]
      ++ slice mem (d + (1 + i * max)) (last - 1) ]
  | S k' =>
    (rtpHeader 0 seq ts ssrc
     ++ [fuIndicatorByte n; fuHeaderNext 0 n]
     ++ slice mem (d + (1 + i * max)) max)
    :: nextFragments k' mem n d max last ts ssrc ((seq + 1) mod 65536) (i + 1)
  end.

(** All the fragments of the NAL unit [n] at [mem + d]. *)
Definition fuPackets (mem : list Z) (n : NALU) (d max ts ssrc seq : Z)
  : list (list Z) :=
  (rtpHeader 0 seq ts ssrc
   ++ [fuIndicatorByte n; fuHeaderFirst n]
   ++ slice mem (d + 1) max)
  :: nextFragments (Z.to_nat (fuCount (len n) max - 1)) mem n d max
       (fuLast (len n) max) ts ssrc ((seq + 1) mod 65536) 1.

(** ** Calls and states *)

(** The next call of [get] in state [s] selects a NAL unit: the buffer is
    not drained, the previous NAL unit is complete, and the scanner finds the
    NAL unit it leaves in [nalu_ s1]. *)
Definition Selects (s s1 : Impl) : Prop :=
  inBufferComplete_ s = false /\
  naluComplete_ s = true /\
  getNextNalu s = Some (1, s1).

(** The calls [nows], made in state [s], return the packets [pkts] and
    nothing else, and the NAL unit is complete after the last call and not
    before: [pkts] are the packets of one NAL unit. *)
Definition emitsNalu (nows : list Z) (s : Impl) (pkts : list (list Z))
  : Prop :=
  map emitted (fst (gets nows s)) = map Some pkts /\
  naluComplete_ (snd (gets nows s)) = true /\
  forall j, (0 < j < length nows)%nat ->
            naluComplete_ (snd (gets (firstn j nows) s)) = false.

(** The buffer a call returned. *)
Definition returned (o : Outcome) : Buffer :=
  match o with
  | Packet b => b
  | _ => mkBuffer None 0
  end.

(** A call of the public interface. *)
Inductive Call :=
| CallPut (input : Buffer)
| CallGet (now : Z).

(** The outcomes of the [get] calls of a sequence of calls, and the final
    state. *)
Fixpoint run (calls : list Call) (s : Impl) : list Outcome * Impl :=
  match calls with
  | [] => ([], s)
  | CallPut input :: rest => run rest (put input s)
  | CallGet now :: rest =>
    let (o, s1) := get now s in
    let (os, s2) := run rest s1 in
    (o :: os, s2)
  end.

(** The packets among the outcomes, in order. *)
Fixpoint packetsOf (outs : list Outcome) : list (list Z) :=
  match outs with
  | [] => []
  | Packet b :: rest => bytesOf b :: packetsOf rest
  | _ :: rest => packetsOf rest
  end.

(** The call returned: it neither threw nor ran into undefined behaviour. *)
Definition normal (o : Outcome) : Prop :=
  match o with
  | Packet _ | Nullopt => True
  | _ => False
  end.

(** The scan cursor is null or on a start code. *)
Definition CursorOk (s : Impl) : Prop :=
  nextNaluPtr_ s = None \/
  exists mem p,
    inBuffer_ s = Some mem /\ nextNaluPtr_ s = Some p /\
    isStartCode mem p = Some true.

(** What holds in every state the packetizer can be in. *)
Record Inv (params : RTPPackerParams) (s : Impl) : Prop := {
  inv_params : params_ s = params;
  inv_seq : 0 <= seqNum_ s < 65536;
  inv_frag : naluComplete_ s = false ->
             CursorOk s /\ exists mem d, FragState mem d s
}.

(** The states of a packetizer constructed with [params]: the constructor,
    then calls of [put] and of [get]; nothing is said of a state after
    undefined behaviour. *)
Inductive reachable (params : RTPPackerParams) : Impl -> Prop :=
| reach_new now : reachable params (Impl_new params now)
| reach_put s input :
    reachable params s -> reachable params (put input s)
| reach_get s now o s' :
    reachable params s -> get now s = (o, s') -> o <> Undefined ->
    reachable params s'.

(** ** A bounded check *)

(** A bounded check over the 256 bytes. *)
Fixpoint allBelow (n : nat) (p : Z -> bool) : bool :=
  match n with
  | O => true
  | S k => p (Z.of_nat k) && allBelow k p
  end.

(** ** Concrete inputs *)

(** [exampleB]: a 3-byte start code and a NAL unit of 6
    bytes, packetized with [max = 4] ([q = 1], [r = 2]).  [exampleC]: a NAL
    unit of 8 bytes with [max = 4] ([q = 2], [r = 0]). *)
Definition smallParams : RTPPackerParams := mkParams 4 1234.
Definition exampleB : Impl :=
  put (mkBuffer (Some [0;0;1; 101;1;2;3;4;5]) 9) (Impl_new smallParams 0).
Definition exampleB1 : Impl :=
  set_nalu_ (mkNALU 3 (Some 3) 6 0 3 5) (set_nextNaluPtr_ None exampleB).
Definition exampleC : Impl :=
  put (mkBuffer (Some [0;0;1; 101;1;2;3;4;5;6;7]) 11) (Impl_new smallParams 0).
Definition exampleC1 : Impl :=
  set_nalu_ (mkNALU 3 (Some 3) 8 0 3 5) (set_nextNaluPtr_ None exampleC).
Definition exampleA : Impl := put scenarioA (Impl_new defaultParams 1000).
Definition exampleA1 : Impl :=
  set_nalu_ (mkNALU 4 (Some 4) 10 0 3 5) (set_nextNaluPtr_ None exampleA).

(** A 3-byte start code followed by a NAL unit of 10300 bytes, with a
    configured maximum of 20000: the packet would have 10312 bytes. *)
Definition bigParams : RTPPackerParams := mkParams 20000 1234.
Definition exampleBig : Impl :=
  put (mkBuffer (Some ([0;0;1] ++ repeat 7 (Z.to_nat 10300))) 10303)
      (Impl_new bigParams 0).

(** A buffer that does not begin with a start code. *)
Definition exampleNoStart : Impl :=
  put (mkBuffer (Some [9;0;0;1; 101;1;2]) 7) (Impl_new smallParams 0).

(** Two buffers, the first with a NAL unit sent as two fragments, the second
    with one sent whole; [get] is called until it returns nothing. *)
Definition exampleCalls : list Call :=
  [ CallPut (mkBuffer (Some [0;0;1; 101;1;2;3;4;5]) 9);
    CallGet 10; CallGet 20; CallGet 30;
    CallPut (mkBuffer (Some [0;0;0;1; 65;9;8]) 7);
    CallGet 40; CallGet 50 ].

(** A buffer of 7 bytes that ends with a start code, in a storage of 8
    bytes; the cursor is on the second start code. *)
Definition exampleEndsInStartCode : Impl :=
  set_nextNaluPtr_ (Some 4)
    (put (mkBuffer (Some [0;0;1; 101; 0;0;1; 77]) 7) (Impl_new smallParams 0)).

(** A buffer whose last NAL unit ends with a zero byte. *)
Definition exampleTrailingZero : Impl :=
  put (mkBuffer (Some [0;0;1; 101;7;0]) 6) (Impl_new smallParams 0).

(** Two NAL units in one buffer, the second after a 4-byte start code;
    the states after the first and after the second scan. *)
Definition exampleTwo : Impl :=
  put (mkBuffer (Some [0;0;1; 101;1;2; 0;0;0;1; 65;9;8]) 13)
      (Impl_new smallParams 0).
Definition exampleTwo1 : Impl :=
  set_nalu_ (mkNALU 3 (Some 3) 3 0 3 5) (set_nextNaluPtr_ (Some 6) exampleTwo).
Definition exampleTwo2 : Impl :=
  set_nalu_ (mkNALU 4 (Some 10) 3 0 2 1) (set_nextNaluPtr_ None exampleTwo1).

(** ** The header byte a receiver rebuilds *)

(** The NAL unit header a receiver rebuilds from a fragment: the F and NRI
    bits of the FU indicator and the type of the FU header. *)
Definition fuNalHeader (p : list Z) : Z :=
  Z.lor (Z.land (pktByte p 12) 224) (fuType p).

(** The check of [fuNalHeader] against the header byte [h], on the bytes
    12 and 13 the three kinds of fragment carry. *)
Definition fuRebuildCheck (h : Z) : bool :=
  let n := mkNALU 0 None 0 (Z.shiftr (Z.land h 128) 7)
             (Z.shiftr (Z.land h 96) 5) (Z.land h 31) in
  (Z.land (fuIndicatorByte n) 31 =? 28) &&
  forallb (fun b13 =>
             (Z.land b13 31 =? Z.land h 31) &&
             (Z.lor (Z.land (fuIndicatorByte n) 224) (Z.land b13 31) =? h))
          [fuHeaderFirst n; fuHeaderNext 0 n; fuHeaderNext 1 n].

(** ** The caller's loop *)

(** How the loop [while (auto packet = packer->get()) { ... }] of [main]
    ends: [get] returned nothing, [get] threw (the exception leaves the
    loop), the behaviour was undefined, or the clock readings given to the
    model ran out before the loop ended. *)
Inductive LoopEnd :=
| Drained
| Raised (message : string)
| Faulted
| Pending.

Record LoopResult := mkLoopResult {
  sent : list Buffer;
  ending : LoopEnd;
  after : Impl
}.

(** The loop, with one clock reading per call of [get]; [sent] are the
    packets handed to the body of the loop, in order. *)
Fixpoint drain (nows : list Z) (s : Impl) : LoopResult :=
  match nows with
  | [] => mkLoopResult [] Pending s
  | now :: rest =>
    match get now s with
    | (Packet b, s1) =>
      let r := drain rest s1 in
      mkLoopResult (b :: sent r) (ending r) (after r)
    | (Nullopt, s1) => mkLoopResult [] Drained s1
    | (PackException w, s1) => mkLoopResult [] (Raised w) s1
    | (Undefined, s1) => mkLoopResult [] Faulted s1
    end
  end.

(** A bound on the calls of [get] the loop still makes in state [s]: the
    call that returns nothing, the fragments of the current NAL unit that
    are left, and the bytes of the declared buffer from the cursor on. *)
Definition pendingCalls (s : Impl) : Z :=
  if inBufferComplete_ s then 1 else
  1 + (if naluComplete_ s then 0 else fuCounter_ s - fuIndex_ s + 1)
    + match nextNaluPtr_ s with
      | None => 0
      | Some p => 1 + Z.max 0 (inBufferSize_ s - p)
      end.

(** ** Buffers that end in a NAL unit *)

(** The last byte of the storage is not zero and the storage does not end
    with a start code: what holds of a buffer that ends with a complete
    NAL unit. *)
Definition endsInUnit (mem : list Z) : bool :=
  let n := Z.of_nat (length mem) in
  match rd mem (n - 1) with
  | Some b => negb (b =? 0)
  | None => false
  end &&
  negb (match isStartCode3 mem (n - 3) with
        | Some true => true
        | _ => false
        end).

(** The packetizer reads the storage [mem], declared with its true size,
    and the cursor is null or inside it. *)
Definition ReadsWithin (mem : list Z) (s : Impl) : Prop :=
  inBuffer_ s = Some mem /\
  inBufferSize_ s = Z.of_nat (length mem) /\
  match nextNaluPtr_ s with
  | None => True
  | Some p => 0 <= p < Z.of_nat (length mem)
  end.

(** ** What a call of [get] depends on *)

(** Two states that [get] cannot tell apart: they differ at most in the
    output buffer, which [get] clears before use, and, when no NAL unit is
    being fragmented, in the last NAL unit and its sample time, which [get]
    sets before use. *)
Definition sameView (s t : Impl) : Prop :=
  params_ s = params_ t /\
  inBuffer_ s = inBuffer_ t /\
  nextNaluPtr_ s = nextNaluPtr_ t /\
  inBufferSize_ s = inBufferSize_ t /\
  fuCounter_ s = fuCounter_ t /\
  lastFuSize_ s = lastFuSize_ t /\
  fuIndex_ s = fuIndex_ t /\
  inBufferComplete_ s = inBufferComplete_ t /\
  naluComplete_ s = naluComplete_ t /\
  seqNum_ s = seqNum_ t /\
  tsStartMillisec_ s = tsStartMillisec_ t /\
  (naluComplete_ s = false ->
   nalu_ s = nalu_ t /\ tsCurrentSample_ s = tsCurrentSample_ t).

(** ** Byte streams and the receiver *)

(** A start code of 4 or of 3 bytes. *)
Definition startCode (long : bool) : list Z :=
  if long then [0;0;0;1] else [0;0;1].

(** The byte stream of a sequence of NAL units, each after its start
    code. *)
Fixpoint annexB (units : list (bool * list Z)) : list Z :=
  match units with
  | [] => []
  | (long, u) :: rest => startCode long ++ u ++ annexB rest
  end.

(** The bytes 0, 0, 1 occur in [u]. *)
Fixpoint has001 (u : list Z) : bool :=
  match u with
  | [] => false
  | b0 :: t =>
    match t with
    | b1 :: b2 :: _ => (b0 =? 0) && (b1 =? 0) && (b2 =? 1)
    | _ => false
    end || has001 t
  end.

(** A NAL unit as a byte stream carries it: bytes, the last one not zero,
    no start code inside, and a type other than 28, which marks a
    fragment. *)
Definition isNalUnit (u : list Z) : bool :=
  negb (last u 0 =? 0) && negb (has001 u) &&
  forallb (fun b => (0 <=? b) && (b <? 256)) u &&
  negb (Z.land (hd 0 u) 31 =? 28).

(** The receiver: a packet whose byte 12 has type 28 is a fragment, whose
    payload is appended to the unit that the fragment with the S bit began
    (with the header byte rebuilt) and that the fragment with the E bit
    ends; any other packet is a NAL unit from byte 12 on. *)
Fixpoint depacketize (acc : option (list Z)) (pkts : list (list Z))
  : list (list Z) :=
  match pkts with
  | [] => []
  | p :: rest =>
    if Z.land (pktByte p 12) 31 =? 28 then
      let acc' := if fuS p then Some (fuNalHeader p :: fuPayload p)
                  else option_map (fun a => a ++ fuPayload p) acc in
      if fuE p then
        match acc' with
        | Some u => u :: depacketize None rest
        | None => depacketize None rest
        end
      else depacketize acc' rest
    else skipn 12 p :: depacketize None rest
  end.

(** Two NAL units, the first after a 3-byte start code and longer than the
    maximum of [smallParams], the second after a 4-byte start code. *)
Definition exampleUnits : list (bool * list Z) :=
  [ (false, [101;1;2;3;4;5]); (true, [65;9;8]) ].

(** * [Timestamp.cpp] *)

(** The timestamp overlay of the same file.  The image is the storage
    [image] points to, a pointer into it is an offset, and a write outside
    the storage is undefined behaviour; only accesses are checked, not the
    pointers computed between them.  [unsigned int] is 32 bits wide. *)

(** ** Glyphs *)

Definition ASCII_MAX : Z := 127.

(** [struct DrawChar { unsigned char ascii; unsigned char pix[8][7]; }] and
    [struct BigChar], with 16 rows of 14; [code] and [bigCode] are the
    fields [ascii], [bigPix] is the field [pix] of [BigChar]. *)
Record DrawChar := mkDrawChar { code : Z; pix : list (list Z) }.
Record BigChar := mkBigChar { bigCode : Z; bigPix : list (list Z) }.

Definition drawTable : list DrawChar :=
  [
    mkDrawChar 32 (* space *)
      [ [0;0;0;0;0;0;0];
        [0;0;0;0;0;0;0];
        [0;0;0;0;0;0;0];
        [0;0;0;0;0;0;0];
        [0;0;0;0;0;0;0];
        [0;0;0;0;0;0;0];
        [0;0;0;0;0;0;0];
        [0;0;0;0;0;0;0] ];
    mkDrawChar 48 (* 0 *)
      [ [0;0;1;1;1;0;0];
        [0;1;2;2;2;1;0];
        [1;2;1;1;2;2;1];
        [1;2;1;2;1;2;1];
        [1;2;1;2;1;2;1];
        [1;2;2;1;1;2;1];
        [0;1;2;2;2;1;0];
        [0;0;1;1;1;0;0] ];
    mkDrawChar 49 (* 1 *)
      [ [0;0;0;1;0;0;0];
        [0;0;1;2;1;0;0];
        [0;1;2;2;1;0;0];
        [0;0;1;2;1;0;0];
        [0;0;1;2;1;0;0];
        [0;0;1;2;1;0;0];
        [0;1;2;2;2;1;0];
        [0;0;1;1;1;0;0] ];
    mkDrawChar 50 (* 2 *)
      [ [0;0;1;1;1;0;0];
        [0;1;2;2;2;1;0];
        [1;2;1;1;1;2;1];
        [0;1;1;2;2;1;0];
        [0;1;2;1;1;0;0];
        [1;2;1;1;1;1;0];
        [1;2;2;2;2;2;1];
        [0;1;1;1;1;1;0] ];
    mkDrawChar 51 (* 3 *)
      [ [0;0;1;1;1;0;0];
        [0;1;2;2;2;1;0];
        [1;2;1;1;1;2;1];
        [0;1;1;2;2;1;0];
        [0;1;0;1;1;2;1];
        [1;2;1;1;1;2;1];
        [0;1;2;2;2;1;0];
        [0;0;1;1;1;0;0] ];
    mkDrawChar 52 (* 4 *)
      [ [0;0;0;0;1;0;0];
        [0;0;0;1;2;1;0];
        [0;0;1;2;2;1;0];
        [0;1;2;1;2;1;0];
        [1;2;2;2;2;2;1];
        [0;1;1;1;2;1;0];
        [0;0;0;1;2;1;0];
        [0;0;0;0;1;0;0] ];
    mkDrawChar 53 (* 5 *)
      [ [0;1;1;1;1;1;0];
        [1;2;2;2;2;2;1];
        [1;2;1;1;1;1;0];
        [1;2;2;2;2;1;0];
        [0;1;1;1;1;2;0];
        [0;1;1;1;1;2;0];
        [1;2;2;2;2;1;0];
        [0;1;1;1;1;0;0] ];
    mkDrawChar 54 (* 6 *)
      [ [0;0;1;1;1;1;0];
        [0;1;2;2;2;2;1];
        [1;2;1;1;1;1;0];
        [1;2;2;2;2;1;0];
        [1;2;1;1;1;2;1];
        [1;2;1;1;1;2;1];
        [0;1;2;2;2;1;0];
        [0;0;1;1;1;0;0] ];
    mkDrawChar 55 (* 7 *)
      [ [0;1;1;1;1;1;0];
        [1;2;2;2;2;2;1];
        [0;1;1;1;1;2;1];
        [0;0;0;1;2;1;0];
        [0;0;1;2;1;0;0];
        [0;1;2;1;0;0;0];
        [0;1;2;1;0;0;0];
        [0;0;1;0;0;0;0] ];
    mkDrawChar 56 (* 8 *)
      [ [0;0;1;1;1;0;0];
        [0;1;2;2;2;1;0];
        [1;2;1;1;1;2;1];
        [0;1;2;2;2;1;0];
        [1;2;1;1;1;2;1];
        [1;2;1;1;1;2;1];
        [0;1;2;2;2;1;0];
        [0;0;1;1;1;0;0] ];
    mkDrawChar 57 (* 9 *)
      [ [0;0;1;1;1;0;0];
        [0;1;2;2;2;1;0];
        [1;2;1;1;1;2;1];
        [0;1;2;2;2;2;1];
        [0;1;1;1;1;2;1];
        [1;2;1;1;1;2;1];
        [0;1;2;2;2;1;0];
        [0;0;1;1;1;0;0] ];
    mkDrawChar 58 (* colon *)
      [ [0;0;1;1;0;0;0];
        [0;1;2;2;1;0;0];
        [0;1;2;2;1;0;0];
        [0;0;1;1;0;0;0];
        [0;0;1;1;0;0;0];
        [0;1;2;2;1;0;0];
        [0;1;2;2;1;0;0];
        [0;0;1;1;0;0;0] ];
    mkDrawChar 45 (* minus *)
      [ [0;0;0;0;0;0;0];
        [0;0;0;0;0;0;0];
        [0;0;1;1;1;0;0];
        [0;1;2;2;2;1;0];
        [0;0;1;1;1;0;0];
        [0;0;0;0;0;0;0];
        [0;0;0;0;0;0;0];
        [0;0;0;0;0;0;0] ];
    mkDrawChar 40 (* left parenthesis *)
      [ [0;0;0;1;0;0;0];
        [0;0;1;2;1;0;0];
        [0;1;2;1;0;0;0];
        [0;1;2;1;0;0;0];
        [0;1;2;1;0;0;0];
        [0;1;2;1;0;0;0];
        [0;0;1;2;1;0;0];
        [0;0;0;1;0;0;0] ];
    mkDrawChar 41 (* right parenthesis *)
      [ [0;0;0;1;0;0;0];
        [0;0;1;2;1;0;0];
        [0;0;0;1;2;1;0];
        [0;0;0;1;2;1;0];
        [0;0;0;1;2;1;0];
        [0;0;0;1;2;1;0];
        [0;0;1;2;1;0;0];
        [0;0;0;1;0;0;0] ];
    mkDrawChar 65 (* A *)
      [ [0;0;1;1;1;0;0];
        [0;1;2;2;2;1;0];
        [1;2;1;1;1;2;1];
        [1;2;1;1;1;2;1];
        [1;2;2;2;2;2;1];
        [1;2;1;1;1;2;1];
        [1;2;1;0;1;2;1];
        [0;1;0;0;0;1;0] ];
    mkDrawChar 66 (* B *)
      [ [0;1;1;1;1;0;0];
        [1;2;2;2;2;1;0];
        [1;2;1;1;1;2;1];
        [1;2;2;2;2;1;0];
        [1;2;1;1;1;2;1];
        [1;2;1;1;1;2;1];
        [1;2;2;2;2;1;0];
        [0;1;1;1;1;0;0] ];
    mkDrawChar 67 (* C *)
      [ [0;0;1;1;1;0;0];
        [0;1;2;2;2;1;0];
        [1;2;1;1;1;2;1];
        [1;2;1;0;0;1;0];
        [1;2;1;0;0;1;0];
        [1;2;1;1;1;2;1];
        [0;1;2;2;2;1;0];
        [0;0;1;1;1;0;0] ];
    mkDrawChar 68 (* D *)
      [ [0;1;1;1;1;0;0];
        [1;2;2;2;2;1;0];
        [1;2;1;1;1;2;1];
        [1;2;1;0;1;2;1];
        [1;2;1;0;1;2;1];
        [1;2;1;1;1;2;1];
        [1;2;2;2;2;1;0];
        [0;1;1;1;1;0;0] ];
    mkDrawChar 69 (* E *)
      [ [0;1;1;1;1;1;0];
        [1;2;2;2;2;2;1];
        [1;2;1;1;1;1;0];
        [1;2;2;2;2;1;0];
        [1;2;1;1;1;0;0];
        [1;2;1;1;1;1;0];
        [1;2;2;2;2;2;1];
        [0;1;1;1;1;1;0] ];
    mkDrawChar 70 (* F *)
      [ [0;1;1;1;1;1;0];
        [1;2;2;2;2;2;1];
        [1;2;1;1;1;1;0];
        [1;2;2;2;2;1;0];
        [1;2;1;1;1;0;0];
        [1;2;1;0;0;0;0];
        [1;2;1;0;0;0;0];
        [0;1;0;0;0;0;0] ];
    mkDrawChar 71 (* G *)
      [ [0;0;1;1;1;0;0];
        [0;1;2;2;2;1;0];
        [1;2;1;1;1;2;1];
        [1;2;1;1;1;1;0];
        [1;2;1;2;2;2;1];
        [1;2;1;1;1;2;1];
        [0;1;2;2;2;1;0];
        [0;0;1;1;1;0;0] ];
    mkDrawChar 72 (* H *)
      [ [0;1;0;0;0;1;0];
        [1;2;1;0;1;2;1];
        [1;2;1;1;1;2;1];
        [1;2;2;2;2;2;1];
        [1;2;1;1;1;2;1];
        [1;2;1;0;1;2;1];
        [1;2;1;0;1;2;1];
        [0;1;0;0;0;1;0] ];
    mkDrawChar 73 (* I *)
      [ [0;0;1;1;1;0;0];
        [0;1;2;2;2;1;0];
        [0;0;1;2;1;0;0];
        [0;0;1;2;1;0;0];
        [0;0;1;2;1;0;0];
        [0;0;1;2;1;0;0];
        [0;1;2;2;2;1;0];
        [0;0;1;1;1;0;0] ];
    mkDrawChar 74 (* J *)
      [ [0;0;1;1;1;1;0];
        [0;1;2;2;2;2;1];
        [0;0;1;1;1;2;1];
        [0;0;0;0;1;2;1];
        [0;1;0;0;1;2;1];
        [1;2;1;1;1;2;1];
        [0;1;2;2;2;1;0];
        [0;0;1;1;1;0;0] ];
    mkDrawChar 75 (* K *)
      [ [0;1;0;0;0;1;0];
        [1;2;1;0;1;2;1];
        [1;2;1;1;2;1;0];
        [1;2;1;2;1;0;0];
        [1;2;2;2;1;0;0];
        [1;2;1;1;2;1;0];
        [1;2;1;0;1;2;1];
        [0;1;0;0;0;1;0] ];
    mkDrawChar 76 (* L *)
      [ [0;1;0;0;0;0;0];
        [1;2;1;0;0;0;0];
        [1;2;1;0;0;0;0];
        [1;2;1;0;0;0;0];
        [1;2;1;0;0;0;0];
        [1;2;1;1;1;0;0];
        [1;2;2;2;2;1;0];
        [0;1;1;1;1;0;0] ];
    mkDrawChar 77 (* M *)
      [ [0;1;1;0;1;1;0];
        [1;2;2;1;2;2;1];
        [1;2;1;2;1;2;1];
        [1;2;1;1;1;2;1];
        [1;2;1;0;1;2;1];
        [1;2;1;0;1;2;1];
        [1;2;1;0;1;2;1];
        [0;1;0;0;0;1;0] ];
    mkDrawChar 78 (* N *)
      [ [0;1;0;0;0;1;0];
        [1;2;1;0;1;2;1];
        [1;2;2;1;1;2;1];
        [1;2;1;2;1;2;1];
        [1;2;1;1;2;2;1];
        [1;2;1;0;1;2;1];
        [1;2;1;0;1;2;1];
        [0;1;0;0;0;1;0] ];
    mkDrawChar 79 (* O *)
      [ [0;0;1;1;1;0;0];
        [0;1;2;2;2;1;0];
        [1;2;1;1;1;2;1];
        [1;2;1;0;1;2;1];
        [1;2;1;0;1;2;1];
        [1;2;1;1;1;2;1];
        [0;1;2;2;2;1;0];
        [0;0;1;1;1;0;0] ];
    mkDrawChar 80 (* P *)
      [ [0;1;1;1;1;0;0];
        [1;2;2;2;2;1;0];
        [1;2;1;1;1;2;1];
        [1;2;2;2;2;1;0];
        [1;2;1;1;1;0;0];
        [1;2;1;0;0;0;0];
        [1;2;1;0;0;0;0];
        [0;1;0;0;0;0;0] ];
    mkDrawChar 82 (* R *)
      [ [0;1;1;1;1;0;0];
        [1;2;2;2;2;1;0];
        [1;2;1;1;1;2;1];
        [1;2;2;2;2;1;0];
        [1;2;1;2;1;0;0];
        [1;2;1;1;2;1;0];
        [1;2;1;0;1;2;1];
        [0;1;0;0;0;1;0] ];
    mkDrawChar 83 (* S *)
      [ [0;0;1;1;1;1;0];
        [0;1;2;2;2;2;1];
        [1;2;1;1;1;1;0];
        [0;1;2;2;2;1;0];
        [0;0;1;1;1;2;1];
        [0;1;1;1;1;2;1];
        [1;2;2;2;2;1;0];
        [0;1;1;1;1;0;0] ];
    mkDrawChar 84 (* T *)
      [ [0;1;1;1;1;1;0];
        [1;2;2;2;2;2;1];
        [0;1;1;2;1;1;0];
        [0;0;1;2;1;0;0];
        [0;0;1;2;1;0;0];
        [0;0;1;2;1;0;0];
        [0;0;1;2;1;0;0];
        [0;0;0;1;0;0;0] ];
    mkDrawChar 85 (* U *)
      [ [0;1;0;0;0;1;0];
        [1;2;1;0;1;2;1];
        [1;2;1;0;1;2;1];
        [1;2;1;0;1;2;1];
        [1;2;1;0;1;2;1];
        [1;2;1;1;1;2;1];
        [0;1;2;2;2;2;1];
        [0;0;1;1;1;1;0] ];
    mkDrawChar 86 (* V *)
      [ [0;1;0;0;0;1;0];
        [1;2;1;0;1;2;1];
        [1;2;1;0;1;2;1];
        [1;2;1;0;1;2;1];
        [1;2;1;0;1;2;1];
        [0;1;2;1;2;1;0];
        [0;0;1;2;1;0;0];
        [0;0;0;1;0;0;0] ];
    mkDrawChar 87 (* W *)
      [ [0;1;0;0;0;1;0];
        [1;2;1;0;1;2;1];
        [1;2;1;0;1;2;1];
        [1;2;1;1;1;2;1];
        [1;2;1;2;1;2;1];
        [1;2;1;2;1;2;1];
        [0;1;2;1;2;1;0];
        [0;0;1;0;1;0;0] ];
    mkDrawChar 88 (* X *)
      [ [0;1;0;0;0;1;0];
        [1;2;1;0;1;2;1];
        [0;1;2;1;2;1;0];
        [0;0;1;2;1;0;0];
        [0;0;1;2;1;0;0];
        [0;1;2;1;2;1;0];
        [1;2;1;0;1;2;1];
        [0;1;0;0;0;1;0] ];
    mkDrawChar 89 (* Y *)
      [ [0;1;0;0;0;1;0];
        [1;2;1;0;1;2;1];
        [0;1;2;1;2;1;0];
        [0;0;1;2;1;0;0];
        [0;0;1;2;1;0;0];
        [0;0;1;2;1;0;0];
        [0;0;1;2;1;0;0];
        [0;0;0;1;0;0;0] ];
    mkDrawChar 90 (* Z *)
      [ [0;1;1;1;1;1;0];
        [1;2;2;2;2;2;1];
        [0;1;1;1;2;1;0];
        [0;0;1;2;1;0;0];
        [0;1;2;1;0;0;0];
        [1;2;1;1;1;1;0];
        [1;2;2;2;2;2;1];
        [0;1;1;1;1;1;0] ]
  ].

Definition DRAW_TABLE_SIZE : nat := length drawTable.

(** The first loop of [initializeChars]:
    [bigTable[i].pix[y][x] = drawTable[i].pix[y / 2][x / 2]]. *)
Definition toBigChar (c : DrawChar) : BigChar :=
  mkBigChar (code c)
    (map (fun y =>
            map (fun x => nth (x / 2)%nat (nth (y / 2)%nat (pix c) []) 0)
                (seq 0 14))
         (seq 0 16)).

Definition bigTable : list BigChar := map toBigChar drawTable.

(** A pointer [&table[i].pix[0][0]] is the pixels it gives access to, row
    after row. *)
Definition glyphOf (p : list (list Z)) : list Z := concat p.

(** [arr[i] = p] on a [std::array] of pointers: undefined outside the
    array. *)
Definition storePtr (arr : list (list Z)) (i : Z) (p : list Z)
  : option (list (list Z)) :=
  if (i <? 0) || (Z.of_nat (length arr) <=? i) then None
  else Some (firstn (Z.to_nat i) arr ++ p :: skipn (S (Z.to_nat i)) arr).

(** The third loop of [initializeChars], over [drawTable] and [bigTable]
    side by side. *)
Fixpoint buildLookup (small big : list (list Z)) (cs : list DrawChar)
         (bs : list BigChar) : option (list (list Z) * list (list Z)) :=
  match cs, bs with
  | c :: cs', b :: bs' =>
    small <- storePtr small (code c) (glyphOf (pix c)) ;;
    big <- storePtr big (code c) (glyphOf (bigPix b)) ;;
    buildLookup small big cs' bs'
  | _, _ => Some (small, big)
  end.

(** [initializeChars]: the lookup tables [smallCharArrPtr] and
    [bigCharArrPtr].  Its second loop points every character to the first
    glyph of the tables.  (The flag [initialized] makes later calls return
    at once; the tables are constants of the model.) *)
Definition initializeChars : option (list (list Z) * list (list Z)) :=
  match drawTable, bigTable with
  | c0 :: _, b0 :: _ =>
    buildLookup (repeat (glyphOf (pix c0)) (Z.to_nat ASCII_MAX))
                (repeat (glyphOf (bigPix b0)) (Z.to_nat ASCII_MAX))
                drawTable bigTable
  | _, _ => None
  end.

Definition smallCharArrPtr : list (list Z) :=
  match initializeChars with
  | Some (small, _) => small
  | None => []
  end.
Definition bigCharArrPtr : list (list Z) :=
  match initializeChars with
  | Some (_, big) => big
  | None => []
  end.

(** ** [drawTextN] *)

(** Reduction to [unsigned int], and the conversion of an [unsigned int]
    to [int]. *)
Definition u32 (z : Z) : Z := z mod 2 ^ 32.
Definition i32 (z : Z) : Z := (z + 2 ^ 31) mod 2 ^ 32 - 2 ^ 31.

(** [mem[i] = v] *)
Definition wr (mem : list Z) (i v : Z) : option (list Z) :=
  if (i <? 0) || (Z.of_nat (length mem) <=? i) then None
  else Some (upd mem (Z.to_nat i) (fun _ => v)).

(** The [switch] on the glyph pixel [c]: 1 draws black, 2 draws white,
    anything else leaves the pixel. *)
Definition drawPixel (image : list Z) (imagePtr c : Z) : option (list Z) :=
  if c =? 1 then wr image imagePtr 0
  else if c =? 2 then wr image imagePtr 255
  else Some image.

(** The loop over [x]: one row of a glyph; both pointers advance by one
    per pixel. *)
Fixpoint drawRow (x : nat) (image : list Z) (imagePtr : Z) (glyph : list Z)
         (charPtr : Z) : option (list Z) :=
  match x with
  | O => Some image
  | S x' =>
    c <- rd glyph charPtr ;;
    image <- drawPixel image imagePtr c ;;
    drawRow x' image (imagePtr + 1) glyph (charPtr + 1)
  end.

(** The loop over [y]: the rows of a glyph; after each row
    [imagePtr += lineOffset]. *)
Fixpoint drawChar (y cols : nat) (lineOffset : Z) (image : list Z)
         (imagePtr : Z) (glyph : list Z) (charPtr : Z) : option (list Z) :=
  match y with
  | O => Some image
  | S y' =>
    image <- drawRow cols image imagePtr glyph charPtr ;;
    drawChar y' cols lineOffset image
      (imagePtr + Z.of_nat cols + lineOffset) glyph (charPtr + Z.of_nat cols)
  end.

(** The loop over [pos]: the characters of the text; after each
    character [imagePtr -= nextCharOffs]. *)
Fixpoint drawChars (n : nat) (pos : Z) (rows cols : nat)
         (lineOffset nextCharOffs : Z) (charArrPtr : list (list Z))
         (image : list Z) (imagePtr : Z) (text : list Z)
  : option (list Z) :=
  match n with
  | O => Some image
  | S n' =>
    t <- rd text pos ;;
    let posCheck := if ASCII_MAX <=? u8 t then 32 else u8 t in
    glyph <- nth_error charArrPtr (Z.to_nat posCheck) ;;
    image <- drawChar rows cols lineOffset image imagePtr glyph 0 ;;
    drawChars n' (pos + 1) rows cols lineOffset nextCharOffs charArrPtr image
      (imagePtr + Z.of_nat rows * (Z.of_nat cols + lineOffset) - nextCharOffs)
      text
  end.

(** The start column after the first [if] of [drawTextN]. *)
Definition shiftedStartX (startX width len factor : Z) : Z :=
  if width / 2 <? startX then u32 (startX - len * (6 * (factor + 1)))
  else startX.

(** The number of characters after the second [if]; the product [len * 6]
    is signed, the rest of the arithmetic unsigned. *)
Definition clippedLen (startX width len factor : Z) : option Z :=
  if (len * 6 <? - 2 ^ 31) || (2 ^ 31 <=? len * 6) then None
  else if width <=? u32 (startX + len * 6 * (factor + 1)) then
    if u32 (6 * (factor + 1)) =? 0 then None
    else Some (i32 (u32 (width - startX - 1) / u32 (6 * (factor + 1))))
  else Some len.

(** [drawTextN]; the arguments are in the range of their types.  It
    returns the image (the source returns 0). *)
Definition drawTextN (image : list Z) (startX startY width : Z)
           (text : list Z) (len factor : Z) : option (list Z) :=
  let startX := shiftedStartX startX width len factor in
  len <- clippedLen startX width len factor ;;
  let lineOffset := i32 (width - 7 * (factor + 1)) in
  let nextCharOffs := i32 (width * 8 * (factor + 1) - 6 * (factor + 1)) in
  let imagePtr := startX + u32 (startY * width) in
  let charArrPtr := if factor =? 0 then smallCharArrPtr else bigCharArrPtr in
  drawChars (Z.to_nat len) 0
    (Z.to_nat (u32 (8 * (factor + 1)))) (Z.to_nat (u32 (7 * (factor + 1))))
    lineOffset nextCharOffs charArrPtr image imagePtr text.

(** ** [drawTextFull] *)

(** [strstr(s, "\\n")] on the characters [s] of a C string: the offset of
    the first backslash that is followed by the letter n. *)
Fixpoint strstr (s : list Z) : option nat :=
  match s with
  | [] => None
  | c :: t =>
    if (c =? 92) && (hd 0 t =? 110) then Some O
    else option_map S (strstr t)
  end.

(** Matching on a value while keeping the equation. *)
Definition inspect {A : Type} (x : A) : {y : A | x = y} :=
  exist _ x eq_refl.

(** The first loop of [drawTextFull]: [numNl]. *)
Equations? countNl (s : list Z) : Z by wf (length s) lt :=
  countNl s with inspect (strstr s) => {
    | exist _ (Some e) H := 1 + countNl (skipn (e + 2) s);
    | exist _ None _ := 0 }.
Proof.
  destruct s as [|c t]; [discriminate H|].
  rewrite length_skipn. cbn [length]. lia.
Qed.

(** The second loop of [drawTextFull] and the call that follows it, on the
    characters from [begin] on; [s ++ [0]] is the storage of the string
    with its terminator. *)
Equations? drawLines (image : list Z) (startX startY width : Z)
          (s : list Z) (factor lineSpace : Z) : option (list Z)
  by wf (length s) lt :=
  drawLines image startX startY width s factor lineSpace
    with inspect (strstr s) => {
    | exist _ (Some e) H
        with drawTextN image startX startY width (s ++ [0])
               (Z.of_nat e) factor => {
        | None := None;
        | Some image' :=
          drawLines image' startX (u32 (startY + lineSpace)) width
            (skipn (e + 2) s) factor lineSpace };
    | exist _ None _ :=
      drawTextN image startX startY width (s ++ [0])
        (Z.of_nat (length s)) factor }.
Proof.
  destruct s as [|c t]; [discriminate H|].
  rewrite length_skipn. cbn [length]. lia.
Qed.

(** [drawTextFull]; the product [lineSpace * numNl] is signed.  (Texts are
    shorter than [2 ^ 31] characters.) *)
Definition drawTextFull (image : list Z) (startX startY width : Z)
           (text : list Z) (factor : Z) : option (list Z) :=
  let numNl := countNl text in
  let lineSpace := i32 ((factor + 1) * 9) in
  if (lineSpace * numNl <? - 2 ^ 31) || (2 ^ 31 <=? lineSpace * numNl)
  then None else
  let startY := u32 (startY - lineSpace * numNl) in
  drawLines image startX startY width text factor lineSpace.

(** ** [class Timestamp::Impl] *)

(** [struct TimestampParams], four [int]s. *)
Record TimestampParams := mkTimestampParams {
  startX : Z;
  startY : Z;
  videoWidth : Z;
  factor : Z
}.

Definition defaultTimestampParams : TimestampParams :=
  mkTimestampParams 10 10 640 0.

(** [drawText]: the parameters are converted to [unsigned int]. *)
Definition drawText (params : TimestampParams) (image text : list Z)
  : option (list Z) :=
  drawTextFull image (u32 (startX params)) (u32 (startY params))
    (u32 (videoWidth params)) text (u32 (factor params)).

(** [draw]: [drawText] on the local time as [strftime] formats it,
    [timestamp]. *)
Definition draw (params : TimestampParams) (image timestamp : list Z)
  : option (list Z) :=
  drawText params image timestamp.

(** ** What a drawing changes *)

(** [image'] is [image] but for pixels among [P], which are black (0) or
    white (255). *)
Definition Drawn (P : Z -> Prop) (image image' : list Z) : Prop :=
  length image' = length image /\
  forall o, rd image' o = rd image o \/
            (P o /\ (rd image' o = Some 0 \/ rd image' o = Some 255)).

(** The glyph of the character [c] in the lookup tables: that of the entry
    of [drawTable] with this code, or the first glyph when there is
    none. *)
Definition glyphEntry (c : Z) : DrawChar :=
  match find (fun e => code e =? c) drawTable with
  | Some e => e
  | None => hd (mkDrawChar 0 []) drawTable
  end.

(** The check of the lookup tables for the character [c]. *)
Definition lookupCheck (c : Z) : bool :=
  match nth_error smallCharArrPtr (Z.to_nat c),
        nth_error bigCharArrPtr (Z.to_nat c) with
  | Some small, Some big =>
    (Nat.eqb (length small) 56) && (Nat.eqb (length big) 224) &&
    forallb (fun v => (v =? 0) || (v =? 1) || (v =? 2)) small &&
    forallb (fun a => Z.eqb (fst a) (snd a))
            (combine small (glyphOf (pix (glyphEntry c)))) &&
    forallb (fun y =>
               forallb (fun x =>
                          nth (14 * y + x) big 0
                          =? nth (7 * (y / 2) + x / 2) small 0)
                       (seq 0 14))
            (seq 0 16)
  | _, _ => false
  end.

(** Lines joined by the separator, backslash and n. *)
Fixpoint joinNl (lines : list (list Z)) : list Z :=
  match lines with
  | [] => []
  | [l] => l
  | l :: rest => l ++ 92 :: 110 :: joinNl rest
  end.

(** The lines drawn one under the other from row [y] on, [lineSpace] rows
    apart; each call of [drawTextN] is given the text from its line on. *)
Fixpoint drawStacked (image : list Z) (startX y width : Z)
         (lines : list (list Z)) (factor lineSpace : Z) : option (list Z) :=
  match lines with
  | [] => Some image
  | l :: rest =>
    image <- drawTextN image startX y width (joinNl (l :: rest) ++ [0])
               (Z.of_nat (length l)) factor ;;
    match rest with
    | [] => Some image
    | _ => drawStacked image startX (y + lineSpace) width rest factor
             lineSpace
    end
  end.

(** * Properties *)

(** ** The scenarios of the specification *)

(** Scenario A: one packet of 12 + 1 + 9 = 22 bytes, marker bit set. *)
Example scenarioA_packet :
  let s := put scenarioA (Impl_new defaultParams 1000) in
  match gets [1010; 1011] s with
  | ([Packet b; Nullopt], _) =>
      bytesOf b = [128; 224; 0; 0; 0; 0; 3; 132; 0; 0; 4; 210;
                   101; 1; 2; 3; 4; 5; 6; 7; 8; 9]
  | _ => False
  end.
Proof. vm_compute. reflexivity. Qed.

(** Scenario B of the specification: a NAL unit of 3000 bytes with
    [max = 1400] is sent as three fragments that carry 1400, 1400 and 199
    bytes; the marker bit and the E bit are on the last, the S bit on the
    first. *)
Example scenarioB_fragments :
  let s := put (mkBuffer (Some ([0;0;0;1; 101] ++ repeat 7 2999)) 3004)
               (Impl_new defaultParams 0) in
  map (option_map (fun p => (Z.of_nat (length (fuPayload p)),
                             pktMarker p, fuS p, fuE p, pktSeq p)))
      (map emitted (fst (gets [1; 2; 3; 4] s)))
  = [ Some (1400, false, true, false, 0);
      Some (1400, false, false, false, 1);
      Some (199, true, false, true, 2);
      None ].
Proof. vm_compute. reflexivity. Qed.

(** Scenario C: [put] while fragments remain; the calls that follow serve
    the new buffer, and the sequence number goes on. *)
Example scenarioC_put_again :
  let s1 := snd (get 10 exampleB) in
  let s2 := put scenarioA s1 in
  naluComplete_ s1 = false /\
  map (option_map (fun p => (fuPayload p, pktMarker p, pktSeq p)))
      (map emitted (fst (gets [20; 30; 40; 50] s2)))
  = [ Some ([1;2;3;4], false, 1); Some ([5;6;7;8], false, 2);
      Some ([9], true, 3); None ].
Proof. vm_compute. split; reflexivity. Qed.

(** A NAL unit of 5 bytes with [max = 4] ([r = 1]): the last fragment
    carries no payload byte. *)
Example empty_last_fragment :
  let s := put (mkBuffer (Some [0;0;1; 101;1;2;3;4]) 8)
               (Impl_new smallParams 0) in
  map (option_map fuPayload) (map emitted (fst (gets [10; 20; 30] s)))
  = [ Some [1;2;3;4]; Some []; None ].
Proof. vm_compute. reflexivity. Qed.

(** ** Bit-fields and bytes *)

Lemma bf_testbit lo width v b i :
  0 <= lo -> 0 <= width -> 0 <= i ->
  Z.testbit (bf lo width v b) i =
  if (lo <=? i) && (i <? lo + width) then Z.testbit v (i - lo)
  else Z.testbit b i.
Proof.
  intros Hlo Hw Hi. unfold bf.
  rewrite Z.lor_spec, Z.ldiff_spec, !Z.shiftl_spec, Z.land_spec by lia.
  destruct (Z.leb_spec lo i) as [H1|H1]; cbn [andb].
  - destruct (Z.ltb_spec i (lo + width)) as [H2|H2].
    + rewrite !Z.ones_spec_low by lia. cbn [negb andb orb].
      rewrite andb_false_r, andb_true_r. reflexivity.
    + rewrite !Z.ones_spec_high by lia. cbn [negb].
      rewrite andb_false_r, andb_true_r, orb_false_r. reflexivity.
  - rewrite !(Z.testbit_neg_r _ (i - lo)) by lia.
    cbn [negb andb]. rewrite andb_true_r, orb_false_r. reflexivity.
Qed.

Lemma bf_nonneg lo width v b :
  0 <= lo -> 0 <= width -> 0 <= b -> 0 <= bf lo width v b.
Proof.
  intros Hlo Hw Hb. unfold bf. apply Z.lor_nonneg. split.
  - apply Z.ldiff_nonneg. left. exact Hb.
  - apply Z.shiftl_nonneg, Z.land_nonneg. right.
    rewrite Z.ones_equiv. pose proof (Z.pow_pos_nonneg 2 width). lia.
Qed.

(** Bytes 0 and 1 of the header: version 2, no padding, no extension, no
    CSRC; payload type 96 under the marker bit. *)
Lemma rtp_byte0 : bf 6 2 2 0 = 128.
Proof. reflexivity. Qed.

Lemma rtp_byte1 marker :
  bf 7 1 marker (bf 7 1 0 (bf 0 7 H264_PAYLOAD_TYPE 0))
  = 96 + 128 * (marker mod 2).
Proof.
  unfold bf. change (Z.ones 1) with 1. change (Z.ones 7) with 127.
  change (Z.land H264_PAYLOAD_TYPE 127) with 96.
  change (Z.shiftl 1 7) with 128. change (Z.shiftl 127 0) with 127.
  change (Z.ldiff 0 127) with 0. change (Z.shiftl 96 0) with 96.
  change (Z.lor 0 96) with 96. change (Z.land 0 1) with 0.
  change (Z.shiftl 0 7) with 0. change (Z.ldiff 96 128) with 96.
  change (Z.lor 96 0) with 96. change (Z.ldiff 96 128) with 96.
  change 1 with (Z.ones 1) at 1. rewrite Z.land_ones by lia.
  change (2 ^ 1) with 2.
  pose proof (Z.mod_pos_bound marker 2 ltac:(lia)) as Hm.
  assert (marker mod 2 = 0 \/ marker mod 2 = 1) as [-> | ->] by lia;
    reflexivity.
Qed.

Lemma allBelow_spec n p :
  allBelow n p = true -> forall h, 0 <= h < Z.of_nat n -> p h = true.
Proof.
  induction n as [|k IH]; intros Hall h Hh.
  - lia.
  - cbn [allBelow] in Hall. apply andb_prop in Hall as [Hk Hrest].
    destruct (Z.eq_dec h (Z.of_nat k)) as [-> | Hne].
    + exact Hk.
    + apply IH; [exact Hrest | lia].
Qed.

(** The NAL header byte written by the whole-packet path is the byte that
    [getNextNalu] decoded. *)
Lemma naluHeader_roundtrip h :
  0 <= h < 256 ->
  bf 0 5 (Z.land h 31)
     (bf 5 2 (Z.shiftr (Z.land h 96) 5)
        (bf 7 1 (Z.shiftr (Z.land h 128) 7) 0)) = h.
Proof.
  intros Hh. apply Z.eqb_eq.
  apply (allBelow_spec 256
           (fun h => bf 0 5 (Z.land h 31)
                       (bf 5 2 (Z.shiftr (Z.land h 96) 5)
                          (bf 7 1 (Z.shiftr (Z.land h 128) 7) 0)) =? h)).
  - vm_compute. reflexivity.
  - exact Hh.
Qed.

(** ** Lists as memory *)

Lemma memset0_length n : 0 <= n -> Z.of_nat (length (memset0 n)) = n.
Proof. intros Hn. unfold memset0. rewrite repeat_length. lia. Qed.

Lemma memset0_split :
  memset0 MAX_OUTBUF_SIZE
  = [0;0;0;0;0;0;0;0;0;0;0;0;0;0] ++ memset0 (MAX_OUTBUF_SIZE - 14).
Proof. vm_compute. reflexivity. Qed.

Lemma slice_length mem off n :
  0 <= off -> 0 <= n -> off + n <= Z.of_nat (length mem) ->
  Z.of_nat (length (slice mem off n)) = n.
Proof.
  intros Ho Hn Hb. unfold slice.
  rewrite length_firstn, length_skipn. lia.
Qed.

Lemma firstn_plus (l : list Z) (n m : nat) :
  firstn (n + m) l = firstn n l ++ firstn m (skipn n l).
Proof.
  revert l. induction n as [|n IH]; intros l.
  - reflexivity.
  - destruct l as [|x l]; cbn [Nat.add firstn skipn app].
    + rewrite firstn_nil. reflexivity.
    + rewrite IH. reflexivity.
Qed.

Lemma slice_app mem off n m :
  0 <= off -> 0 <= n -> 0 <= m ->
  slice mem off n ++ slice mem (off + n) m = slice mem off (n + m).
Proof.
  intros Ho Hn Hm. unfold slice.
  replace (Z.to_nat (off + n)) with (Z.to_nat n + Z.to_nat off)%nat by lia.
  rewrite <- skipn_skipn.
  replace (Z.to_nat (n + m)) with (Z.to_nat n + Z.to_nat m)%nat by lia.
  generalize (skipn (Z.to_nat off) mem) as l. intros l.
  rewrite firstn_plus. reflexivity.
Qed.

(** [memcpy] into a buffer whose first [doff] bytes are [pre]: it succeeds
    when both ranges are inside their storage, and the first [doff + n]
    bytes of the result are [pre] followed by the bytes copied. *)
Lemma memcpy_prefix pre tail mem doff soff n :
  Z.of_nat (length pre) = doff ->
  0 <= n -> 0 <= soff ->
  soff + n <= Z.of_nat (length mem) ->
  doff + n <= Z.of_nat (length (pre ++ tail)) ->
  exists out,
    memcpy (pre ++ tail) doff mem soff n = Some out /\
    firstn (Z.to_nat (doff + n)) out = pre ++ slice mem soff n.
Proof.
  intros Hpre Hn Hs Hm Ho. unfold memcpy.
  replace (n <? 0) with false by (symmetry; apply Z.ltb_ge; lia).
  replace (soff <? 0) with false by (symmetry; apply Z.ltb_ge; lia).
  replace (doff <? 0) with false by (symmetry; apply Z.ltb_ge; lia).
  cbn [orb].
  replace (Z.of_nat (length mem) <? soff + n) with false
    by (symmetry; apply Z.ltb_ge; lia).
  replace (Z.of_nat (length (pre ++ tail)) <? doff + n) with false
    by (symmetry; apply Z.ltb_ge; lia).
  eexists. split; [reflexivity|].
  fold (slice mem soff n).
  assert (Hd : firstn (Z.to_nat doff) (pre ++ tail) = pre).
  { replace (Z.to_nat doff) with (length pre + 0)%nat by lia.
    rewrite firstn_app_2, firstn_O, app_nil_r. reflexivity. }
  rewrite Hd, app_assoc.
  pose proof (slice_length mem _ _ Hs Hn Hm) as Hl.
  replace (Z.to_nat (doff + n))
    with (length (pre ++ slice mem soff n) + 0)%nat
    by (rewrite length_app; lia).
  rewrite firstn_app_2, firstn_O, app_nil_r.
  reflexivity.
Qed.

(** ** The NAL unit scanner *)

Lemma rd_Some mem i b :
  rd mem i = Some b -> 0 <= i < Z.of_nat (length mem).
Proof.
  unfold rd. destruct (Z.ltb_spec i 0) as [H|H]; [discriminate|].
  intros Hn. assert (Hlt : (Z.to_nat i < length mem)%nat).
  { apply nth_error_Some. congruence. }
  lia.
Qed.

Lemma isStartCode3_readable mem p b :
  isStartCode3 mem p = Some b -> 0 <= p < Z.of_nat (length mem).
Proof.
  unfold isStartCode3. destruct (rd mem p) as [b0|] eqn:E; [|discriminate].
  intros _. exact (rd_Some _ _ _ E).
Qed.

Lemma isStartCode_readable mem p b :
  isStartCode mem p = Some b -> 0 <= p < Z.of_nat (length mem).
Proof.
  unfold isStartCode. destruct (isStartCode3 mem p) as [b3|] eqn:E;
    [|discriminate].
  intros _. exact (isStartCode3_readable _ _ _ E).
Qed.

Lemma startCodeLenAt_cases mem p scl :
  startCodeLenAt mem p = Some scl ->
  0 <= p < Z.of_nat (length mem) /\
  ((scl = 3 /\ isStartCode3 mem p = Some true) \/
   (scl = 4 /\ isStartCode3 mem p = Some false
            /\ isStartCode4 mem p = Some true) \/
   (scl = -1 /\ isStartCode3 mem p = Some false
             /\ isStartCode4 mem p = Some false)).
Proof.
  unfold startCodeLenAt.
  destruct (isStartCode3 mem p) as [[|]|] eqn:E3; try discriminate.
  - intros [= <-]. split; [exact (isStartCode3_readable _ _ _ E3)|]. auto.
  - destruct (isStartCode4 mem p) as [[|]|] eqn:E4; try discriminate;
      intros [= <-]; (split; [exact (isStartCode3_readable _ _ _ E3)|]); auto.
Qed.

(** The loop stops strictly after its starting point; every position it
    stepped over was read inside the storage; it stops either at the end of
    the buffer or on a start code. *)
Lemma scanNext_spec mem inBufferSize p r :
  scanNext mem inBufferSize p = Some r ->
  p < fst r /\
  (forall q, p < q < fst r -> 0 <= q < Z.of_nat (length mem)) /\
  ((snd r = None /\ inBufferSize <= fst r) \/
   (snd r = Some (fst r) /\ isStartCode mem (fst r) = Some true)).
Proof.
  funelim (scanNext mem inBufferSize p); intros Hr.
  - injection Hr as <-. cbn [fst snd].
    split; [lia|]. split; [intros q Hq; lia|].
    left. split; [reflexivity | lia].
  - injection Hr as <-. cbn [fst snd].
    split; [lia|]. split; [intros q Hq; lia|].
    right. split; [reflexivity | assumption].
  - match goal with
    | IH : forall r, scanNext _ _ _ = Some r -> _ |- _ =>
        destruct (IH _ Hr) as (Hlt & Hrd & Hend)
    end.
    split; [lia|]. split; [|exact Hend].
    intros q Hq. destruct (Z.eq_dec q (nextPtr + 1)) as [-> | Hne].
    + match goal with
      | Hsc : isStartCode _ _ = Some false |- _ =>
          exact (isStartCode_readable _ _ _ Hsc)
      end.
    + apply Hrd. lia.
  - discriminate.
Qed.

(** [getNextNalu] fails without touching the state. *)
Lemma getNextNalu_fail s ret s1 :
  getNextNalu s = Some (ret, s1) -> ret <= 0 -> s1 = s.
Proof.
  unfold getNextNalu. destruct (nextNaluPtr_ s) as [cur|].
  - destruct (inBuffer_ s) as [mem|]; [|discriminate].
    destruct (startCodeLenAt mem cur) as [scl|]; [|discriminate].
    destruct (scl <? 0).
    + intros [= _ <-]. reflexivity.
    + destruct (scanNext mem (inBufferSize_ s) (cur + scl)) as [r|];
        [|discriminate].
      destruct (rd mem (cur + scl)); [|discriminate].
      intros [= <- _]. lia.
  - intros [= _ <-]. reflexivity.
Qed.

(** What a successful [getNextNalu] leaves: a NAL unit that lies inside the
    storage, its header byte decoded, and a scan cursor that is null or on a
    start code. *)
Lemma getNextNalu_ok s ret s1 :
  getNextNalu s = Some (ret, s1) -> 0 < ret ->
  exists mem cur scl np nx h,
    ret = 1 /\
    inBuffer_ s = Some mem /\ nextNaluPtr_ s = Some cur /\
    s1 = set_nalu_ (mkNALU scl (Some (cur + scl)) (np - cur - scl)
                      (Z.shiftr (Z.land h 128) 7)
                      (Z.shiftr (Z.land h 96) 5)
                      (Z.land h 31)) (set_nextNaluPtr_ nx s) /\
    rd mem (cur + scl) = Some h /\
    0 <= cur /\ (scl = 3 \/ scl = 4) /\
    cur + scl < np <= Z.of_nat (length mem) /\
    (nx = None \/ (nx = Some np /\ isStartCode mem np = Some true)).
Proof.
  unfold getNextNalu. destruct (nextNaluPtr_ s) as [cur|] eqn:Ecur.
  2:{ intros [= <- _]. lia. }
  destruct (inBuffer_ s) as [mem|] eqn:Emem; [|discriminate].
  destruct (startCodeLenAt mem cur) as [scl|] eqn:Escl; [|discriminate].
  destruct (Z.ltb_spec scl 0) as [Hneg|Hpos].
  { intros [= <- _]. lia. }
  destruct (scanNext mem (inBufferSize_ s) (cur + scl)) as [r|] eqn:Er;
    [|discriminate].
  destruct (rd mem (cur + scl)) as [h|] eqn:Eh; [|discriminate].
  intros [= <- <-] _.
  destruct (startCodeLenAt_cases _ _ _ Escl) as (Hcur & Hcases).
  destruct (scanNext_spec _ _ _ _ Er) as (Hlt & Hrd & Hend).
  pose proof (rd_Some _ _ _ Eh) as Hd.
  exists mem, cur, scl, (fst r), (snd r), h.
  do 4 (split; [reflexivity|]).
  split; [exact Eh|]. split; [lia|].
  split; [destruct Hcases as [[-> _]|[[-> _]|[-> _]]]; lia|].
  split.
  - split; [exact Hlt|].
    destruct (Z.eq_dec (fst r) (cur + scl + 1)) as [E|E]; [lia|].
    specialize (Hrd (fst r - 1)). lia.
  - destruct Hend as [[-> _]|[-> Hsc]]; [left|right]; auto.
Qed.

(** ** One call of [get] *)

Lemma memcpy_at13 b0 b1 b2 b3 b4 b5 b6 b7 b8 b9 b10 b11 b12 tail mem soff n :
  0 <= n -> 0 <= soff ->
  soff + n <= Z.of_nat (length mem) ->
  n <= Z.of_nat (length tail) ->
  exists out,
    memcpy (b0 :: b1 :: b2 :: b3 :: b4 :: b5 :: b6 :: b7 :: b8 :: b9 :: b10
              :: b11 :: b12 :: tail) 13 mem soff n = Some out /\
    firstn (Z.to_nat (13 + n)) out
    = [b0; b1; b2; b3; b4; b5; b6; b7; b8; b9; b10; b11; b12]
      ++ slice mem soff n.
Proof.
  intros Hn Hs Hm Ht.
  apply (memcpy_prefix [b0; b1; b2; b3; b4; b5; b6; b7; b8; b9; b10; b11; b12]
           tail); try assumption; try reflexivity.
  rewrite length_app. cbn [length]. lia.
Qed.

Lemma memcpy_at14 b0 b1 b2 b3 b4 b5 b6 b7 b8 b9 b10 b11 b12 b13 tail mem
      soff n :
  0 <= n -> 0 <= soff ->
  soff + n <= Z.of_nat (length mem) ->
  n <= Z.of_nat (length tail) ->
  exists out,
    memcpy (b0 :: b1 :: b2 :: b3 :: b4 :: b5 :: b6 :: b7 :: b8 :: b9 :: b10
              :: b11 :: b12 :: b13 :: tail) 14 mem soff n = Some out /\
    firstn (Z.to_nat (14 + n)) out
    = [b0; b1; b2; b3; b4; b5; b6; b7; b8; b9; b10; b11; b12; b13]
      ++ slice mem soff n.
Proof.
  intros Hn Hs Hm Ht.
  apply (memcpy_prefix
           [b0; b1; b2; b3; b4; b5; b6; b7; b8; b9; b10; b11; b12; b13]
           tail); try assumption; try reflexivity.
  rewrite length_app. cbn [length]. lia.
Qed.

Lemma tail_length :
  Z.of_nat (length (memset0 (MAX_OUTBUF_SIZE - 14))) = MAX_OUTBUF_SIZE - 14.
Proof. apply memset0_length. unfold MAX_OUTBUF_SIZE. lia. Qed.

Ltac is_pos_const p :=
  lazymatch p with
  | xH => idtac
  | xO ?q => is_pos_const q
  | xI ?q => is_pos_const q
  end.

Ltac is_Z_const z :=
  lazymatch z with
  | Z0 => idtac
  | Zpos ?p => is_pos_const p
  | ?a + ?b => is_Z_const a; is_Z_const b
  end.

(** Runs the header stores of [get] on the cleared output buffer. *)
Ltac run_stores :=
  rewrite memset0_split;
  unfold store_htonl, store_htons, store_byte, store_bits;
  repeat match goal with
  | |- context [Z.to_nat ?z] =>
      is_Z_const z;
      let n := eval vm_compute in (Z.to_nat z) in
      progress change (Z.to_nat z) with n
  end;
  cbn [upd app].

(** Projections of field assignments. *)
Ltac proj_simpl :=
  cbn [params_ outBuffer_ inBuffer_ nextNaluPtr_ inBufferSize_ fuCounter_
       lastFuSize_ fuIndex_ inBufferComplete_ naluComplete_ nalu_ seqNum_
       tsStartMillisec_ tsCurrentSample_
       set_outBuffer_ set_inBuffer_ set_nextNaluPtr_ set_inBufferSize_
       set_fuCounter_ set_lastFuSize_ set_fuIndex_ set_inBufferComplete_
       set_naluComplete_ set_nalu_ set_seqNum_ set_tsCurrentSample_
       startCodeLen ndata len forbiddenBit nalRefIdc nalUnitType].

(** [getNextNalu] only assigns [nalu_] and [nextNaluPtr_]. *)
Lemma getNextNalu_frame s ret s1 :
  getNextNalu s = Some (ret, s1) ->
  exists n nx, s1 = set_nalu_ n (set_nextNaluPtr_ nx s).
Proof.
  intros Hgn. destruct (Z_lt_le_dec 0 ret) as [Hpos|Hneg].
  - destruct (getNextNalu_ok _ _ _ Hgn Hpos)
      as (mem & cur & scl & np & nx & h & _ & _ & _ & Es1 & _).
    eauto.
  - rewrite (getNextNalu_fail _ _ _ Hgn Hneg).
    exists (nalu_ s), (nextNaluPtr_ s). destruct s; reflexivity.
Qed.

Lemma get_whole now s ret s1 :
  inBufferComplete_ s = false -> naluComplete_ s = true ->
  getNextNalu s = Some (ret, s1) -> 0 < ret ->
  len (nalu_ s1) <= maxPacketLength (params_ s1) ->
  len (nalu_ s1) + 12 <= MAX_OUTBUF_SIZE ->
  exists mem d out,
    inBuffer_ s1 = Some mem /\ ndata (nalu_ s1) = Some d /\
    get now s =
      (Packet (mkBuffer (Some out) (len (nalu_ s1) + 12)),
       set_naluComplete_ true (set_outBuffer_ out
         (set_tsCurrentSample_ (sampleTime now (tsStartMillisec_ s1))
            (set_seqNum_ ((seqNum_ s1 + 1) mod 65536) s1)))) /\
    firstn (Z.to_nat (len (nalu_ s1) + 12)) out
    = rtpHeader 1 (seqNum_ s1) (sampleTime now (tsStartMillisec_ s1))
        (ssrc (params_ s1))
      ++ [naluHeaderByte (nalu_ s1)]
      ++ slice mem (d + 1) (len (nalu_ s1) - 1).
Proof.
  intros Hbc Hnc Hgn Hret Hle Hfit.
  destruct (getNextNalu_ok _ _ _ Hgn Hret)
    as (mem & cur & scl & np & nx & h & Eret & Emem & Ecur & Es1 & Eh
        & Hcur & Hscl & Hnp & Hnx).
  assert (Ep : params_ s = params_ s1) by (subst s1; reflexivity).
  assert (Em1 : inBuffer_ s1 = Some mem) by (subst s1; exact Emem).
  assert (Ed1 : ndata (nalu_ s1) = Some (cur + scl))
    by (subst s1; reflexivity).
  assert (El1 : len (nalu_ s1) = np - cur - scl) by (subst s1; reflexivity).
  clear Es1. subst ret.
  exists mem, (cur + scl).
  unfold get. rewrite Hbc, Hnc, Hgn.
  change (1 <=? 0) with false. cbv beta iota zeta.
  rewrite Ep.
  cbn [nalu_ seqNum_ tsStartMillisec_ tsCurrentSample_ set_seqNum_
       set_tsCurrentSample_].
  rewrite (proj2 (Z.leb_le _ _) Hle), (proj2 (Z.ltb_ge _ _) Hfit).
  unfold copyNalu.
  cbn [nalu_ inBuffer_ set_seqNum_ set_tsCurrentSample_].
  rewrite Em1, Ed1.
  run_stores.
  match goal with
  | |- context [memcpy (?b0 :: ?b1 :: ?b2 :: ?b3 :: ?b4 :: ?b5 :: ?b6 :: ?b7
                          :: ?b8 :: ?b9 :: ?b10 :: ?b11 :: ?b12 :: ?tl)
                       13 ?m ?so ?n] =>
      destruct (@memcpy_at13 b0 b1 b2 b3 b4 b5 b6 b7 b8 b9 b10 b11 b12 tl
                  m so n) as (out & Hcp & Hfn)
  end.
  1-3: lia.
  { cbn [length]. rewrite Nat2Z.inj_succ, tail_length. lia. }
  rewrite Hcp. exists out.
  split; [reflexivity|]. split; [reflexivity|]. split; [reflexivity|].
  replace (len (nalu_ s1) + 12) with (13 + (len (nalu_ s1) - 1)) by lia.
  rewrite Hfn. reflexivity.
Qed.

Ltac copy_at14 out Hcp Hfn :=
  match goal with
  | |- context [memcpy (?b0 :: ?b1 :: ?b2 :: ?b3 :: ?b4 :: ?b5 :: ?b6 :: ?b7
                          :: ?b8 :: ?b9 :: ?b10 :: ?b11 :: ?b12 :: ?b13
                          :: ?tl) 14 ?m ?so ?n] =>
      destruct (@memcpy_at14 b0 b1 b2 b3 b4 b5 b6 b7 b8 b9 b10 b11 b12 b13
                  tl m so n) as (out & Hcp & Hfn)
  end.

Lemma get_first now s ret s1 :
  inBufferComplete_ s = false -> naluComplete_ s = true ->
  getNextNalu s = Some (ret, s1) -> 0 < ret ->
  1 <= maxPacketLength (params_ s1) < len (nalu_ s1) ->
  maxPacketLength (params_ s1) + 14 <= MAX_OUTBUF_SIZE ->
  exists mem d out,
    inBuffer_ s1 = Some mem /\ ndata (nalu_ s1) = Some d /\
    0 <= d /\ d + len (nalu_ s1) <= Z.of_nat (length mem) /\
    get now s =
      (Packet (mkBuffer (Some out) (maxPacketLength (params_ s1) + 14)),
       set_fuIndex_ 1 (set_naluComplete_ false (set_outBuffer_ out
         (set_fuIndex_ 0
            (set_lastFuSize_
               (fuLast (len (nalu_ s1)) (maxPacketLength (params_ s1)))
               (set_fuCounter_
                  (fuCount (len (nalu_ s1)) (maxPacketLength (params_ s1)))
                  (set_tsCurrentSample_
                     (sampleTime now (tsStartMillisec_ s1))
                     (set_seqNum_ ((seqNum_ s1 + 1) mod 65536) s1)))))))) /\
    firstn (Z.to_nat (maxPacketLength (params_ s1) + 14)) out
    = rtpHeader 0 (seqNum_ s1) (sampleTime now (tsStartMillisec_ s1))
        (ssrc (params_ s1))
      ++ [fuIndicatorByte (nalu_ s1); fuHeaderFirst (nalu_ s1)]
      ++ slice mem (d + 1) (maxPacketLength (params_ s1)).
Proof.
  intros Hbc Hnc Hgn Hret Hmax Hfit.
  destruct (getNextNalu_ok _ _ _ Hgn Hret)
    as (mem & cur & scl & np & nx & h & Eret & Emem & Ecur & Es1 & Eh
        & Hcur & Hscl & Hnp & Hnx).
  assert (Ep : params_ s = params_ s1) by (subst s1; reflexivity).
  assert (Em1 : inBuffer_ s1 = Some mem) by (subst s1; exact Emem).
  assert (Ed1 : ndata (nalu_ s1) = Some (cur + scl))
    by (subst s1; reflexivity).
  assert (El1 : len (nalu_ s1) = np - cur - scl) by (subst s1; reflexivity).
  clear Es1. subst ret.
  exists mem, (cur + scl).
  unfold get. rewrite Hbc, Hnc, Hgn.
  change (1 <=? 0) with false. cbv beta iota zeta.
  rewrite Ep.
  cbn [nalu_ seqNum_ tsStartMillisec_ tsCurrentSample_ set_seqNum_
       set_tsCurrentSample_].
  replace (len (nalu_ s1) <=? maxPacketLength (params_ s1)) with false
    by (symmetry; apply Z.leb_gt; lia).
  replace (maxPacketLength (params_ s1) =? 0) with false
    by (symmetry; apply Z.eqb_neq; lia).
  rewrite (proj2 (Z.ltb_ge _ _) Hfit).
  unfold copyNalu.
  assert (Est : forall t : Impl,
    (if Z.rem (len (nalu_ s1)) (maxPacketLength (params_ s1)) =? 0
     then set_lastFuSize_ (maxPacketLength (params_ s1))
            (set_fuCounter_
               (Z.quot (len (nalu_ s1)) (maxPacketLength (params_ s1)) - 1) t)
     else set_lastFuSize_
            (Z.rem (len (nalu_ s1)) (maxPacketLength (params_ s1)))
            (set_fuCounter_
               (Z.quot (len (nalu_ s1)) (maxPacketLength (params_ s1))) t))
    = set_lastFuSize_
        (fuLast (len (nalu_ s1)) (maxPacketLength (params_ s1)))
        (set_fuCounter_
           (fuCount (len (nalu_ s1)) (maxPacketLength (params_ s1))) t)).
  { intros t. unfold fuLast, fuCount.
    destruct (Z.rem (len (nalu_ s1)) (maxPacketLength (params_ s1)) =? 0);
      reflexivity. }
  rewrite Est.
  cbn [nalu_ inBuffer_ fuIndex_ set_seqNum_ set_tsCurrentSample_
       set_fuCounter_ set_lastFuSize_ set_fuIndex_ set_outBuffer_
       set_naluComplete_].
  rewrite Em1, Ed1.
  run_stores.
  copy_at14 out Hcp Hfn.
  1-3: lia.
  { rewrite tail_length. lia. }
  rewrite Hcp. exists out.
  split; [reflexivity|]. split; [reflexivity|].
  split; [lia|]. split; [lia|]. split; [reflexivity|].
  replace (maxPacketLength (params_ s1) + 14)
    with (14 + maxPacketLength (params_ s1)) by lia.
  rewrite Hfn. reflexivity.
Qed.

(** ** Between two fragments *)

(** For a NAL unit longer than [max]: [len = cnt * max + last] with
    [1 <= last <= max] and [1 <= cnt]. *)
Lemma fu_arith len max :
  1 <= max < len ->
  len = fuCount len max * max + fuLast len max /\
  1 <= fuLast len max <= max /\ 1 <= fuCount len max.
Proof.
  intros H. unfold fuCount, fuLast.
  rewrite Z.rem_mod_nonneg, Z.quot_div_nonneg by lia.
  pose proof (Z.div_mod len max ltac:(lia)) as Hdm.
  pose proof (Z.mod_pos_bound len max ltac:(lia)) as Hmb.
  assert (Hq : 1 <= len / max).
  { apply Z.div_le_lower_bound; lia. }
  destruct (Z.eqb_spec (len mod max) 0) as [E|E].
  - assert (2 <= len / max) by nia. nia.
  - nia.
Qed.

Lemma get_middle now s mem d :
  FragState mem d s -> fuIndex_ s < fuCounter_ s ->
  exists out,
    get now s =
      (Packet (mkBuffer (Some out) (maxPacketLength (params_ s) + 14)),
       set_fuIndex_ (fuIndex_ s + 1) (set_outBuffer_ out
         (set_seqNum_ ((seqNum_ s + 1) mod 65536) s))) /\
    firstn (Z.to_nat (maxPacketLength (params_ s) + 14)) out
    = rtpHeader 0 (seqNum_ s) (tsCurrentSample_ s) (ssrc (params_ s))
      ++ [fuIndicatorByte (nalu_ s); fuHeaderNext 0 (nalu_ s)]
      ++ slice mem (d + (1 + fuIndex_ s * maxPacketLength (params_ s)))
           (maxPacketLength (params_ s)).
Proof.
  intros [Hbc Hnc Hmem Hdata Hd Hin Hmax Hfit Hcnt Hlast Hidx] Hlt.
  destruct (fu_arith _ _ Hmax) as (Hlen & Hl & Hc).
  rewrite <- Hcnt, <- Hlast in Hlen.
  unfold get. rewrite Hbc, Hnc. cbv beta iota zeta.
  cbn [nalu_ seqNum_ tsCurrentSample_ fuIndex_ fuCounter_ lastFuSize_
       set_seqNum_].
  replace (fuIndex_ s =? fuCounter_ s) with false
    by (symmetry; apply Z.eqb_neq; lia).
  rewrite (proj2 (Z.ltb_ge _ _) Hfit).
  unfold copyNalu. cbn [nalu_ inBuffer_ set_seqNum_].
  rewrite Hmem, Hdata.
  run_stores.
  copy_at14 out Hcp Hfn.
  1-2: nia.
  { nia. }
  { rewrite tail_length. lia. }
  rewrite Hcp. exists out. split; [reflexivity|].
  replace (maxPacketLength (params_ s) + 14)
    with (14 + maxPacketLength (params_ s)) by lia.
  rewrite Hfn. reflexivity.
Qed.

Lemma get_last now s mem d :
  FragState mem d s -> fuIndex_ s = fuCounter_ s ->
  exists out,
    get now s =
      (Packet (mkBuffer (Some out) (lastFuSize_ s - 1 + 14)),
       set_fuIndex_ 0 (set_naluComplete_ true (set_outBuffer_ out
         (set_seqNum_ ((seqNum_ s + 1) mod 65536) s)))) /\
    firstn (Z.to_nat (lastFuSize_ s - 1 + 14)) out
    = rtpHeader 1 (seqNum_ s) (tsCurrentSample_ s) (ssrc (params_ s))
      ++ [fuIndicatorByte (nalu_ s); fuHeaderNext 1 (nalu_ s)]
      ++ slice mem (d + (1 + fuIndex_ s * maxPacketLength (params_ s)))
           (lastFuSize_ s - 1).
Proof.
  intros [Hbc Hnc Hmem Hdata Hd Hin Hmax Hfit Hcnt Hlast Hidx] Heq.
  destruct (fu_arith _ _ Hmax) as (Hlen & Hl & Hc).
  rewrite <- Hcnt in Hlen. rewrite <- Hlast in Hlen, Hl.
  unfold get. rewrite Hbc, Hnc. cbv beta iota zeta.
  cbn [nalu_ seqNum_ tsCurrentSample_ fuIndex_ fuCounter_ lastFuSize_
       set_seqNum_].
  rewrite (proj2 (Z.eqb_eq _ _) Heq).
  replace (MAX_OUTBUF_SIZE <? lastFuSize_ s - 1 + 14) with false
    by (symmetry; apply Z.ltb_ge; lia).
  unfold copyNalu. cbn [nalu_ inBuffer_ set_seqNum_].
  rewrite Hmem, Hdata.
  run_stores.
  copy_at14 out Hcp Hfn.
  1-2: nia.
  { rewrite Heq. nia. }
  { rewrite tail_length. lia. }
  rewrite Hcp. exists out. split; [reflexivity|].
  replace (lastFuSize_ s - 1 + 14) with (14 + (lastFuSize_ s - 1)) by lia.
  rewrite Hfn. reflexivity.
Qed.

(** ** The packets of one fragmented NAL unit *)

Lemma fst_gets_step now nows s o s1 :
  get now s = (o, s1) ->
  fst (gets (now :: nows) s) = o :: fst (gets nows s1).
Proof.
  intros H. cbn [gets]. rewrite H. destruct (gets nows s1). reflexivity.
Qed.

Lemma snd_gets_step now nows s o s1 :
  get now s = (o, s1) ->
  snd (gets (now :: nows) s) = snd (gets nows s1).
Proof.
  intros H. cbn [gets]. rewrite H. destruct (gets nows s1). reflexivity.
Qed.

Lemma emitted_packet out sz :
  emitted (Packet (mkBuffer (Some out) sz))
  = Some (firstn (Z.to_nat sz) out).
Proof. reflexivity. Qed.

Lemma gets_cons now nows s :
  gets (now :: nows) s
  = (fst (get now s) :: fst (gets nows (snd (get now s))),
     snd (gets nows (snd (get now s)))).
Proof.
  cbn [gets]. destruct (get now s) as [o s1]. cbn [fst snd].
  destruct (gets nows s1) as [os s2]. reflexivity.
Qed.

(** From a state between two fragments, [k] middle fragments away from the
    last one, [k + 1] calls of [get] return the remaining fragments, and the
    NAL unit is complete after the last of them and not before. *)
Lemma gets_nextFragments mem d k : forall nows s,
  FragState mem d s ->
  Z.of_nat k = fuCounter_ s - fuIndex_ s ->
  length nows = S k ->
  map emitted (fst (gets nows s))
  = map Some (nextFragments k mem (nalu_ s) d (maxPacketLength (params_ s))
                (lastFuSize_ s) (tsCurrentSample_ s) (ssrc (params_ s))
                (seqNum_ s) (fuIndex_ s)) /\
  naluComplete_ (snd (gets nows s)) = true /\
  inBufferComplete_ (snd (gets nows s)) = false /\
  nextNaluPtr_ (snd (gets nows s)) = nextNaluPtr_ s /\
  (forall j, (j <= k)%nat ->
             naluComplete_ (snd (gets (firstn j nows) s)) = false).
Proof.
  induction k as [|k IH]; intros nows s Hfs Hk Hlen.
  - destruct nows as [|now [|? ?]]; try discriminate.
    destruct (get_last now _ _ _ Hfs ltac:(lia)) as (out & Hget & Hbytes).
    rewrite gets_cons, Hget. cbn [gets fst snd map emitted bytesOf data size].
    rewrite Hbytes. cbn [nextFragments map]. proj_simpl.
    split; [reflexivity|]. split; [reflexivity|].
    split; [apply (fs_bc _ _ _ Hfs)|]. split; [reflexivity|].
    intros j Hj. replace j with 0%nat by lia. cbn [firstn gets snd].
    apply (fs_nc _ _ _ Hfs).
  - destruct nows as [|now rest]; [discriminate|].
    destruct (get_middle now _ _ _ Hfs ltac:(lia)) as (out & Hget & Hbytes).
    set (s2 := set_fuIndex_ (fuIndex_ s + 1)
                 (set_outBuffer_ out
                    (set_seqNum_ ((seqNum_ s + 1) mod 65536) s))) in *.
    assert (Hfs2 : FragState mem d s2).
    { destruct Hfs. constructor; subst s2; proj_simpl; try assumption. lia. }
    destruct (IH rest s2 Hfs2) as (Hmap & Hnc & Hbc & Hnx & Hpre).
    { subst s2. proj_simpl. lia. }
    { cbn [length] in Hlen. lia. }
    rewrite gets_cons, Hget. cbn [fst snd map emitted bytesOf data size].
    rewrite Hbytes, Hmap. cbn [nextFragments map].
    split; [reflexivity|]. split; [exact Hnc|]. split; [exact Hbc|].
    split; [exact Hnx|].
    intros j Hj. destruct j as [|j].
    + cbn [firstn gets snd]. apply (fs_nc _ _ _ Hfs).
    + cbn [firstn]. rewrite gets_cons, Hget. cbn [fst snd].
      apply Hpre. lia.
Qed.

(** A NAL unit longer than [max] is returned, over [fuCount + 1] calls, as
    [fuPackets]; it is complete after the last call and not before. *)
Lemma gets_fuPackets now nows s ret s1 :
  inBufferComplete_ s = false -> naluComplete_ s = true ->
  getNextNalu s = Some (ret, s1) -> 0 < ret ->
  1 <= maxPacketLength (params_ s1) < len (nalu_ s1) ->
  maxPacketLength (params_ s1) + 14 <= MAX_OUTBUF_SIZE ->
  Z.of_nat (length nows)
  = fuCount (len (nalu_ s1)) (maxPacketLength (params_ s1)) ->
  exists mem d,
    inBuffer_ s1 = Some mem /\ ndata (nalu_ s1) = Some d /\
    0 <= d /\ d + len (nalu_ s1) <= Z.of_nat (length mem) /\
    map emitted (fst (gets (now :: nows) s))
    = map Some (fuPackets mem (nalu_ s1) d (maxPacketLength (params_ s1))
                  (sampleTime now (tsStartMillisec_ s1)) (ssrc (params_ s1))
                  (seqNum_ s1)) /\
    naluComplete_ (snd (gets (now :: nows) s)) = true /\
    inBufferComplete_ (snd (gets (now :: nows) s)) = false /\
    nextNaluPtr_ (snd (gets (now :: nows) s)) = nextNaluPtr_ s1 /\
    (forall j, (0 < j <= length nows)%nat ->
       naluComplete_ (snd (gets (firstn j (now :: nows)) s)) = false).
Proof.
  intros Hbc Hnc Hgn Hret Hmax Hfit Hlen.
  destruct (get_first now _ _ _ Hbc Hnc Hgn Hret Hmax Hfit)
    as (mem & d & out & Hmem & Hdata & Hd & Hin & Hget & Hbytes).
  destruct (getNextNalu_frame _ _ _ Hgn) as (n1 & nx1 & Es1).
  exists mem, d.
  destruct (fu_arith _ _ Hmax) as (Hl & Hlast & Hcnt).
  assert (Hbc1 : inBufferComplete_ s1 = false) by (subst s1; exact Hbc).
  match type of Hget with _ = (_, ?t) => remember t as s2 eqn:Es2 end.
  assert (Hfs2 : FragState mem d s2).
  { subst s2. constructor; proj_simpl; try assumption; try reflexivity; lia. }
  assert (E2 : nalu_ s2 = nalu_ s1 /\ params_ s2 = params_ s1 /\
               lastFuSize_ s2
               = fuLast (len (nalu_ s1)) (maxPacketLength (params_ s1)) /\
               tsCurrentSample_ s2 = sampleTime now (tsStartMillisec_ s1) /\
               seqNum_ s2 = (seqNum_ s1 + 1) mod 65536 /\
               fuIndex_ s2 = 1 /\
               fuCounter_ s2
               = fuCount (len (nalu_ s1)) (maxPacketLength (params_ s1)) /\
               nextNaluPtr_ s2 = nextNaluPtr_ s1).
  { subst s2. proj_simpl. tauto. }
  destruct E2 as (En & Ep & El & Et & Eq & Ei & Ec & Ex).
  clear Es2.
  destruct nows as [|now1 rest]; [cbn [length] in Hlen; lia|].
  destruct (gets_nextFragments mem d (length rest) (now1 :: rest) s2 Hfs2)
    as (Hmap & Hnc2 & Hbc2 & Hnx2 & Hpre).
  { cbn [length] in Hlen. rewrite Ec, Ei. lia. }
  { reflexivity. }
  rewrite En, Ep, El, Et, Eq, Ei in Hmap.
  split; [exact Hmem|]. split; [exact Hdata|]. split; [exact Hd|].
  split; [exact Hin|].
  rewrite (fst_gets_step _ _ _ _ _ Hget), (snd_gets_step _ _ _ _ _ Hget).
  rewrite map_cons, emitted_packet, Hbytes, Hmap.
  unfold fuPackets. rewrite map_cons.
  replace (Z.to_nat (fuCount (len (nalu_ s1))
                       (maxPacketLength (params_ s1)) - 1))
    with (length rest) by (cbn [length] in Hlen; lia).
  split; [reflexivity|]. split; [exact Hnc2|]. split; [exact Hbc2|].
  split; [rewrite Hnx2; exact Ex|].
  intros j Hj. destruct j as [|j]; [lia|].
  rewrite firstn_cons, (snd_gets_step _ _ _ _ _ Hget).
  apply Hpre. cbn [length] in Hj. lia.
Qed.

(** ** Reading the packets *)

Lemma nextFragments_length k mem n d max last ts ssrc : forall seq i,
  length (nextFragments k mem n d max last ts ssrc seq i) = S k.
Proof.
  induction k as [|k IH]; intros seq i; cbn [nextFragments length].
  - reflexivity.
  - rewrite IH. reflexivity.
Qed.

Lemma fuPackets_length mem n d max ts ssrc seq :
  1 <= fuCount (len n) max ->
  Z.of_nat (length (fuPackets mem n d max ts ssrc seq))
  = fuCount (len n) max + 1.
Proof.
  intros H. unfold fuPackets. cbn [length].
  rewrite nextFragments_length. lia.
Qed.

(** Fragment [i + j] of the run that starts at fragment [i]. *)
Lemma nextFragments_nth mem n d max last ts ssrc k : forall seq i j,
  (j <= k)%nat ->
  exists sq,
    nth j (nextFragments k mem n d max last ts ssrc seq i) []
    = rtpHeader (if Nat.eqb j k then 1 else 0) sq ts ssrc
      ++ [fuIndicatorByte n; fuHeaderNext (if Nat.eqb j k then 1 else 0) n]
      ++ slice mem (d + (1 + (i + Z.of_nat j) * max))
           (if Nat.eqb j k then last - 1 else max).
Proof.
  induction k as [|k IH]; intros seq i j Hj.
  - replace j with 0%nat by lia. exists seq.
    cbn [nextFragments nth Nat.eqb Z.of_nat]. rewrite Z.add_0_r. reflexivity.
  - destruct j as [|j].
    + exists seq. cbn [nextFragments nth Nat.eqb Z.of_nat].
      rewrite Z.add_0_r. reflexivity.
    + destruct (IH ((seq + 1) mod 65536) (i + 1) j ltac:(lia)) as (sq & Hsq).
      exists sq. cbn [nextFragments nth Nat.eqb]. rewrite Hsq.
      replace (i + 1 + Z.of_nat j) with (i + Z.of_nat (S j)) by lia.
      reflexivity.
Qed.

(** The payloads of the fragments after the first one, put end to end. *)
Lemma nextFragments_concat mem n d max last ts ssrc k : forall seq i,
  0 <= d -> 0 <= i -> 1 <= max -> 1 <= last ->
  concat (map fuPayload (nextFragments k mem n d max last ts ssrc seq i))
  = slice mem (d + (1 + i * max)) (Z.of_nat k * max + (last - 1)).
Proof.
  induction k as [|k IH]; intros seq i Hd Hi Hmax Hlast.
  - cbn [nextFragments map concat]. rewrite app_nil_r.
    cbn [Z.of_nat Z.mul Z.add]. reflexivity.
  - cbn [nextFragments map concat]. rewrite IH by lia.
    change (fuPayload (rtpHeader 0 seq ts ssrc
              ++ [fuIndicatorByte n; fuHeaderNext 0 n]
              ++ slice mem (d + (1 + i * max)) max))
      with (slice mem (d + (1 + i * max)) max).
    replace (d + (1 + (i + 1) * max)) with (d + (1 + i * max) + max) by lia.
    rewrite slice_app by nia.
    f_equal. lia.
Qed.

Lemma fuPackets_concat mem n d max ts ssrc seq :
  0 <= d -> 1 <= max < len n ->
  concat (map fuPayload (fuPackets mem n d max ts ssrc seq))
  = slice mem (d + 1) (len n - 1).
Proof.
  intros Hd Hmax. destruct (fu_arith _ _ Hmax) as (Hlen & Hlast & Hcnt).
  unfold fuPackets. cbn [map concat].
  rewrite nextFragments_concat by lia.
  change (fuPayload (rtpHeader 0 seq ts ssrc
            ++ [fuIndicatorByte n; fuHeaderFirst n]
            ++ slice mem (d + 1) max))
    with (slice mem (d + 1) max).
  replace (d + (1 + 1 * max)) with (d + 1 + max) by lia.
  rewrite slice_app by nia.
  f_equal. nia.
Qed.

(** Marker bit and FU bits. *)
Lemma marker_bit m seq ts ssrc rest :
  pktMarker (rtpHeader m seq ts ssrc ++ rest) = Z.testbit m 0.
Proof.
  unfold pktMarker, pktByte, rtpHeader. cbn [app nth].
  rewrite bf_testbit by lia. reflexivity.
Qed.

Lemma fuHeaderFirst_bits n :
  Z.testbit (fuHeaderFirst n) 7 = true /\
  Z.testbit (fuHeaderFirst n) 6 = false.
Proof.
  unfold fuHeaderFirst. split; rewrite !bf_testbit by lia; reflexivity.
Qed.

Lemma fuHeaderNext_bits e n :
  Z.testbit (fuHeaderNext e n) 7 = false /\
  Z.testbit (fuHeaderNext e n) 6 = Z.testbit e 0.
Proof.
  unfold fuHeaderNext. split; rewrite !bf_testbit by lia; reflexivity.
Qed.

Lemma fu_bits m seq ts ssrc b12 b13 payload :
  fuS (rtpHeader m seq ts ssrc ++ [b12; b13] ++ payload) = Z.testbit b13 7 /\
  fuE (rtpHeader m seq ts ssrc ++ [b12; b13] ++ payload) = Z.testbit b13 6.
Proof. split; reflexivity. Qed.

(** Big-endian fields read back. *)
Lemma be16_roundtrip v :
  0 <= v < 65536 -> u8 (Z.shiftr v 8) * 256 + u8 v = v.
Proof.
  intros Hv. unfold u8. rewrite Z.shiftr_div_pow2 by lia.
  change (2 ^ 8) with 256.
  pose proof (Z.div_mod v 256 ltac:(lia)).
  pose proof (Z.mod_pos_bound v 256 ltac:(lia)).
  rewrite (Z.mod_small (v / 256)); [lia|].
  split; [apply Z.div_pos; lia|].
  apply Z.div_lt_upper_bound; lia.
Qed.

Lemma be32_roundtrip v :
  0 <= v < 2 ^ 32 ->
  ((u8 (Z.shiftr v 24) * 256 + u8 (Z.shiftr v 16)) * 256
   + u8 (Z.shiftr v 8)) * 256 + u8 v = v.
Proof.
  intros Hv. unfold u8. rewrite !Z.shiftr_div_pow2 by lia.
  change (2 ^ 32) with 4294967296 in Hv.
  change (2 ^ 8) with 256. change (2 ^ 16) with 65536.
  change (2 ^ 24) with 16777216.
  Z.to_euclidean_division_equations. lia.
Qed.

Lemma sampleTime_range now tsStart : 0 <= sampleTime now tsStart < 2 ^ 32.
Proof. unfold sampleTime. apply Z.mod_pos_bound. reflexivity. Qed.

Lemma timestamp_field m seq ts ssrc rest :
  0 <= ts < 2 ^ 32 ->
  pktTimestamp (rtpHeader m seq ts ssrc ++ rest) = ts.
Proof.
  intros Hts. unfold pktTimestamp, pktByte, rtpHeader. cbn [app nth].
  apply be32_roundtrip. exact Hts.
Qed.

Lemma seq_field m seq ts ssrc rest :
  0 <= seq < 65536 ->
  pktSeq (rtpHeader m seq ts ssrc ++ rest) = seq.
Proof.
  intros Hs. unfold pktSeq, pktByte, rtpHeader. cbn [app nth].
  apply be16_roundtrip. exact Hs.
Qed.

(** Fragment [j] of a fragmented NAL unit: its header bytes and the slice of
    the NAL unit it carries. *)
Lemma fuPackets_nth mem n d max ts ssrc seq j :
  1 <= max < len n ->
  (j <= Z.to_nat (fuCount (len n) max))%nat ->
  let final := Nat.eqb j (Z.to_nat (fuCount (len n) max)) in
  exists sq,
    nth j (fuPackets mem n d max ts ssrc seq) []
    = rtpHeader (if final then 1 else 0) sq ts ssrc
      ++ [fuIndicatorByte n;
          if Nat.eqb j 0 then fuHeaderFirst n
          else fuHeaderNext (if final then 1 else 0) n]
      ++ slice mem (d + (1 + Z.of_nat j * max))
           (if final then fuLast (len n) max - 1 else max).
Proof.
  intros Hmax Hj final. subst final.
  destruct (fu_arith _ _ Hmax) as (Hlen & Hlast & Hcnt).
  unfold fuPackets. destruct j as [|j].
  - exists seq.
    replace (Nat.eqb 0 (Z.to_nat (fuCount (len n) max))) with false
      by (symmetry; apply Nat.eqb_neq; lia).
    cbn [nth Nat.eqb Z.of_nat].
    replace (d + (1 + 0 * max)) with (d + 1) by lia. reflexivity.
  - destruct (nextFragments_nth mem n d max (fuLast (len n) max) ts ssrc
                (Z.to_nat (fuCount (len n) max - 1))
                ((seq + 1) mod 65536) 1 j ltac:(lia)) as (sq & Hsq).
    exists sq.
    replace (Nat.eqb (S j) (Z.to_nat (fuCount (len n) max)))
      with (Nat.eqb j (Z.to_nat (fuCount (len n) max - 1))).
    2:{ destruct (Nat.eqb_spec j (Z.to_nat (fuCount (len n) max - 1)));
        symmetry; [apply Nat.eqb_eq | apply Nat.eqb_neq]; lia. }
    cbn [nth]. rewrite Hsq.
    change (Nat.eqb (S j) 0) with false. cbv iota.
    replace (1 + Z.of_nat j) with (Z.of_nat (S j)) by lia.
    reflexivity.
Qed.

(** The slice fragment [j] carries lies inside the NAL unit, so it has the
    length asked for. *)
Lemma fragment_slice_length mem n d max j :
  0 <= d -> d + len n <= Z.of_nat (length mem) ->
  1 <= max < len n ->
  (j <= Z.to_nat (fuCount (len n) max))%nat ->
  let c := if Nat.eqb j (Z.to_nat (fuCount (len n) max))
           then fuLast (len n) max - 1 else max in
  Z.of_nat (length (slice mem (d + (1 + Z.of_nat j * max)) c)) = c.
Proof.
  intros Hd Hin Hmax Hj c. subst c.
  destruct (fu_arith _ _ Hmax) as (Hlen & Hlast & Hcnt).
  destruct (Nat.eqb_spec j (Z.to_nat (fuCount (len n) max))) as [E|E].
  - apply slice_length; [nia | lia |].
    subst j. rewrite Z2Nat.id by lia. lia.
  - apply slice_length; [nia | lia |].
    assert (Z.of_nat j + 1 <= fuCount (len n) max) by lia. nia.
Qed.

(** ** Selecting and emitting one NAL unit *)

Lemma fuPayload_form m sq ts ssrc b12 b13 payload :
  fuPayload (rtpHeader m sq ts ssrc ++ [b12; b13] ++ payload) = payload.
Proof. reflexivity. Qed.

(** The fragment counter and the last size, by division and remainder. *)
Lemma fu_div_mod len max :
  1 <= max < len ->
  fuCount len max = (if len mod max =? 0 then len / max - 1 else len / max) /\
  fuLast len max = (if len mod max =? 0 then max else len mod max).
Proof.
  intros H. unfold fuCount, fuLast.
  rewrite Z.rem_mod_nonneg, Z.quot_div_nonneg by lia. split; reflexivity.
Qed.

(** A NAL unit longer than [max] is emitted as [fuPackets]. *)
Lemma fragmented_nalu now nows s s1 :
  Selects s s1 ->
  1 <= maxPacketLength (params_ s1) < len (nalu_ s1) ->
  maxPacketLength (params_ s1) + 14 <= MAX_OUTBUF_SIZE ->
  Z.of_nat (length nows)
  = fuCount (len (nalu_ s1)) (maxPacketLength (params_ s1)) ->
  exists mem d,
    inBuffer_ s1 = Some mem /\ ndata (nalu_ s1) = Some d /\
    0 <= d /\ d + len (nalu_ s1) <= Z.of_nat (length mem) /\
    emitsNalu (now :: nows) s
      (fuPackets mem (nalu_ s1) d (maxPacketLength (params_ s1))
         (sampleTime now (tsStartMillisec_ s1)) (ssrc (params_ s1))
         (seqNum_ s1)).
Proof.
  intros (Hbc & Hnc & Hgn) Hmax Hfit Hlen.
  destruct (gets_fuPackets now nows s 1 s1 Hbc Hnc Hgn ltac:(lia) Hmax Hfit
              Hlen)
    as (mem & d & Hmem & Hdata & Hd & Hin & Hmap & Hc & _ & _ & Hpre).
  exists mem, d. do 4 (split; [assumption|]).
  split; [exact Hmap|]. split; [exact Hc|].
  intros j Hj. apply Hpre. cbn [length] in Hj. lia.
Qed.

(** C1, as amended.  A NAL unit of [len] bytes (header byte included) that
    is longer than [max], with [q = len / max] and [r = len mod max], is
    emitted as exactly [q] fragments when [r = 0] and as exactly [q + 1]
    fragments otherwise; every fragment before the last one carries exactly
    [max] payload bytes; the last one carries [max - 1] payload bytes when
    [r = 0] and [r - 1] otherwise. *)
Theorem fragment_count_and_sizes now nows s s1 :
  Selects s s1 ->
  let L := len (nalu_ s1) in
  let max := maxPacketLength (params_ s1) in
  let q := L / max in
  let r := L mod max in
  1 <= max < L ->
  max + 14 <= MAX_OUTBUF_SIZE ->
  Z.of_nat (length (now :: nows)) = (if r =? 0 then q else q + 1) ->
  exists pkts,
    emitsNalu (now :: nows) s pkts /\
    Z.of_nat (length pkts) = (if r =? 0 then q else q + 1) /\
    (forall i, (S i < length pkts)%nat ->
       Z.of_nat (length (fuPayload (nth i pkts []))) = max) /\
    Z.of_nat (length (fuPayload (nth (length pkts - 1) pkts [])))
    = (if r =? 0 then max - 1 else r - 1).
Proof.
  intros Hsel L max q r Hmax Hfit Hlen.
  destruct (fu_div_mod _ _ Hmax) as (Hcnt & Hlast).
  destruct (fu_arith _ _ Hmax) as (_ & _ & Hc1).
  fold L max in Hcnt, Hlast, Hc1. fold q r in Hcnt, Hlast.
  assert (Hcount : (if r =? 0 then q else q + 1) = fuCount L max + 1).
  { rewrite Hcnt. destruct (r =? 0); lia. }
  destruct (fragmented_nalu now nows s s1 Hsel Hmax Hfit)
    as (mem & d & Hmem & Hdata & Hd & Hin & Hemit).
  { fold L max. cbn [length] in Hlen. lia. }
  fold L max in Hemit, Hin.
  set (pkts := fuPackets mem (nalu_ s1) d max
                 (sampleTime now (tsStartMillisec_ s1)) (ssrc (params_ s1))
                 (seqNum_ s1)) in *.
  assert (Hlp : Z.of_nat (length pkts) = fuCount L max + 1)
    by (apply fuPackets_length; exact Hc1).
  exists pkts. split; [exact Hemit|]. split; [lia|]. split.
  - intros i Hi.
    destruct (fuPackets_nth mem (nalu_ s1) d max
                (sampleTime now (tsStartMillisec_ s1)) (ssrc (params_ s1))
                (seqNum_ s1) i Hmax ltac:(fold L; lia)) as (sq & Hnth).
    fold pkts L in Hnth. rewrite Hnth, fuPayload_form.
    pose proof (fragment_slice_length mem (nalu_ s1) d max i Hd Hin Hmax
                  ltac:(fold L; lia)) as Hsl.
    fold L in Hsl. cbv zeta in Hsl.
    replace (Nat.eqb i (Z.to_nat (fuCount L max))) with false in *
      by (symmetry; apply Nat.eqb_neq; lia).
    exact Hsl.
  - assert (Ei : (length pkts - 1)%nat = Z.to_nat (fuCount L max)) by lia.
    rewrite Ei.
    destruct (fuPackets_nth mem (nalu_ s1) d max
                (sampleTime now (tsStartMillisec_ s1)) (ssrc (params_ s1))
                (seqNum_ s1) (Z.to_nat (fuCount L max)) Hmax
                ltac:(fold L; lia)) as (sq & Hnth).
    fold pkts L in Hnth. rewrite Hnth, fuPayload_form.
    pose proof (fragment_slice_length mem (nalu_ s1) d max
                  (Z.to_nat (fuCount L max)) Hd Hin Hmax
                  ltac:(fold L; lia)) as Hsl.
    fold L in Hsl. cbv zeta in Hsl.
    rewrite Nat.eqb_refl in *.
    rewrite Hsl, Hlast. destruct (r =? 0); reflexivity.
Qed.

Lemma exampleB_selects : Selects exampleB exampleB1.
Proof.
  split; [reflexivity|]. split; [reflexivity|]. vm_compute. reflexivity.
Defined.

Lemma exampleA_selects : Selects exampleA exampleA1.
Proof.
  split; [reflexivity|]. split; [reflexivity|]. vm_compute. reflexivity.
Defined.

Lemma fragment_count_and_sizes_witness :
  exists pkts,
    emitsNalu [10; 20] exampleB pkts /\
    Z.of_nat (length pkts) = 2 /\
    (forall i, (S i < length pkts)%nat ->
       Z.of_nat (length (fuPayload (nth i pkts []))) = 4) /\
    Z.of_nat (length (fuPayload (nth (length pkts - 1) pkts []))) = 1.
Proof.
  apply (fragment_count_and_sizes 10 [20] exampleB exampleB1).
  - exact exampleB_selects.
  - vm_compute. split; [discriminate | reflexivity].
  - vm_compute. discriminate.
  - reflexivity.
Defined.

(** C1 as stated fails.  With [max = 4], the NAL unit of 6 bytes ([r = 2])
    is emitted as two fragments carrying 4 and 1 payload bytes: the final
    fragment carries [r - 1] bytes, not [r].  The NAL unit of 8 bytes
    ([r = 0]) is emitted as two fragments carrying 4 and 3 payload bytes:
    the final fragment carries [max - 1] bytes, not [max]. *)
Lemma final_fragment_is_one_byte_short :
  (Selects exampleB exampleB1 /\
   len (nalu_ exampleB1) mod maxPacketLength (params_ exampleB1) = 2 /\
   map (option_map (fun p => Z.of_nat (length (fuPayload p))))
       (map emitted (fst (gets [10; 20; 30] exampleB)))
   = [Some 4; Some 1; None] /\
   nth 1 (map (option_map (fun p => Z.of_nat (length (fuPayload p))))
            (map emitted (fst (gets [10; 20; 30] exampleB)))) None
   <> Some (len (nalu_ exampleB1) mod maxPacketLength (params_ exampleB1))) /\
  (Selects exampleC exampleC1 /\
   len (nalu_ exampleC1) mod maxPacketLength (params_ exampleC1) = 0 /\
   map (option_map (fun p => Z.of_nat (length (fuPayload p))))
       (map emitted (fst (gets [10; 20; 30] exampleC)))
   = [Some 4; Some 3; None] /\
   nth 1 (map (option_map (fun p => Z.of_nat (length (fuPayload p))))
            (map emitted (fst (gets [10; 20; 30] exampleC)))) None
   <> Some (maxPacketLength (params_ exampleC1))).
Proof.
  split; (split; [|split; [|split]]);
    try (vm_compute; reflexivity); try (vm_compute; discriminate).
  - exact exampleB_selects.
  - split; [reflexivity|]. split; [reflexivity|]. vm_compute. reflexivity.
Qed.

(** C2.  The payloads of the fragments of a NAL unit (each packet without
    its 12-byte RTP header and its 2 FU bytes), put end to end in emission
    order, are the bytes 1 .. len - 1 of the NAL unit. *)
Theorem fragments_reassemble now nows s s1 mem d :
  Selects s s1 ->
  inBuffer_ s1 = Some mem -> ndata (nalu_ s1) = Some d ->
  1 <= maxPacketLength (params_ s1) < len (nalu_ s1) ->
  maxPacketLength (params_ s1) + 14 <= MAX_OUTBUF_SIZE ->
  Z.of_nat (length nows)
  = fuCount (len (nalu_ s1)) (maxPacketLength (params_ s1)) ->
  exists pkts,
    emitsNalu (now :: nows) s pkts /\
    concat (map fuPayload pkts) = slice mem (d + 1) (len (nalu_ s1) - 1) /\
    Z.of_nat (length (concat (map fuPayload pkts))) = len (nalu_ s1) - 1.
Proof.
  intros Hsel Hmem Hdata Hmax Hfit Hlen.
  destruct (fragmented_nalu now nows s s1 Hsel Hmax Hfit Hlen)
    as (mem' & d' & Hmem' & Hdata' & Hd & Hin & Hemit).
  assert (mem' = mem) by congruence. assert (d' = d) by congruence.
  subst mem' d'.
  eexists. split; [exact Hemit|].
  rewrite fuPackets_concat by assumption.
  split; [reflexivity|]. apply slice_length; lia.
Qed.

Lemma fragments_reassemble_witness :
  exists pkts,
    emitsNalu [10; 20] exampleB pkts /\
    concat (map fuPayload pkts) = slice [0;0;1; 101;1;2;3;4;5] (3 + 1) (6 - 1) /\
    Z.of_nat (length (concat (map fuPayload pkts))) = 6 - 1.
Proof.
  apply (fragments_reassemble 10 [20] exampleB exampleB1
           [0;0;1; 101;1;2;3;4;5] 3).
  - exact exampleB_selects.
  - reflexivity.
  - reflexivity.
  - vm_compute. split; [discriminate | reflexivity].
  - vm_compute. discriminate.
  - reflexivity.
Defined.

Lemma gets_nil s : gets [] s = ([], s).
Proof. reflexivity. Qed.

(** The fields [getNextNalu] decodes are those of the header byte. *)
Lemma getNextNalu_header s s1 mem d h :
  getNextNalu s = Some (1, s1) ->
  inBuffer_ s1 = Some mem -> ndata (nalu_ s1) = Some d ->
  rd mem d = Some h ->
  forbiddenBit (nalu_ s1) = Z.shiftr (Z.land h 128) 7 /\
  nalRefIdc (nalu_ s1) = Z.shiftr (Z.land h 96) 5 /\
  nalUnitType (nalu_ s1) = Z.land h 31.
Proof.
  intros Hgn Hmem Hdata Hrd.
  destruct (getNextNalu_ok _ _ _ Hgn ltac:(lia))
    as (mem' & cur & scl & np & nx & h' & _ & Emem & _ & Es1 & Eh & _).
  subst s1. proj_simpl. cbn [inBuffer_ ndata nalu_ set_nalu_
                              set_nextNaluPtr_] in Hmem, Hdata.
  assert (mem' = mem) by congruence. subst mem'.
  injection Hdata as <-. assert (h' = h) by congruence. subst h'.
  repeat split.
Qed.

(** A NAL unit of at most [max] bytes is emitted as one packet. *)
Lemma whole_nalu now s s1 :
  Selects s s1 ->
  len (nalu_ s1) <= maxPacketLength (params_ s1) ->
  len (nalu_ s1) + 12 <= MAX_OUTBUF_SIZE ->
  exists mem d b,
    inBuffer_ s1 = Some mem /\ ndata (nalu_ s1) = Some d /\
    0 <= d /\ 1 <= len (nalu_ s1) /\
    d + len (nalu_ s1) <= Z.of_nat (length mem) /\
    fst (get now s) = Packet b /\
    size b = len (nalu_ s1) + 12 /\
    naluComplete_ (snd (get now s)) = true /\
    nextNaluPtr_ (snd (get now s)) = nextNaluPtr_ s1 /\
    bytesOf b
    = rtpHeader 1 (seqNum_ s1) (sampleTime now (tsStartMillisec_ s1))
        (ssrc (params_ s1))
      ++ [naluHeaderByte (nalu_ s1)]
      ++ slice mem (d + 1) (len (nalu_ s1) - 1).
Proof.
  intros (Hbc & Hnc & Hgn) Hle Hfit.
  destruct (get_whole now s 1 s1 Hbc Hnc Hgn ltac:(lia) Hle Hfit)
    as (mem & d & out & Hmem & Hdata & Hget & Hbytes).
  destruct (getNextNalu_ok _ _ _ Hgn ltac:(lia))
    as (mem' & cur & scl & np & nx & h' & _ & Emem & _ & Es1 & Eh & Hcur
        & Hscl & Hnp & _).
  assert (Hd : ndata (nalu_ s1) = Some (cur + scl)
               /\ len (nalu_ s1) = np - cur - scl
               /\ inBuffer_ s1 = Some mem').
  { subst s1. proj_simpl. auto. }
  destruct Hd as (Hd1 & Hl1 & Hm1).
  assert (mem' = mem) by congruence. assert (d = cur + scl) by congruence.
  subst mem'.
  exists mem, d, (mkBuffer (Some out) (len (nalu_ s1) + 12)).
  rewrite Hget. cbn [fst snd size].
  split; [exact Hmem|]. split; [exact Hdata|].
  split; [lia|]. split; [lia|]. split; [lia|].
  split; [reflexivity|]. split; [reflexivity|].
  split; [reflexivity|]. split; [reflexivity|].
  exact Hbytes.
Qed.

(** C3.  A NAL unit of [len] bytes, [len] at most [max], is emitted as
    exactly one packet: the marker bit is set, byte 12 is the header byte of
    the NAL unit, the payload is the [len - 1] bytes of the NAL unit from
    offset 1, and the packet has [len + 12] bytes.  (The packet has to fit
    the output buffer: [len + 12 <= MAX_OUTBUF_SIZE].) *)
Theorem whole_packet now s s1 mem d h :
  Selects s s1 ->
  inBuffer_ s1 = Some mem -> ndata (nalu_ s1) = Some d ->
  rd mem d = Some h -> 0 <= h < 256 ->
  len (nalu_ s1) <= maxPacketLength (params_ s1) ->
  len (nalu_ s1) + 12 <= MAX_OUTBUF_SIZE ->
  exists b,
    fst (get now s) = Packet b /\
    emitsNalu [now] s [bytesOf b] /\
    pktMarker (bytesOf b) = true /\
    pktByte (bytesOf b) 12 = h /\
    wholePayload (bytesOf b) = slice mem (d + 1) (len (nalu_ s1) - 1) /\
    Z.of_nat (length (wholePayload (bytesOf b))) = len (nalu_ s1) - 1 /\
    size b = len (nalu_ s1) + 12 /\
    Z.of_nat (length (bytesOf b)) = len (nalu_ s1) + 12.
Proof.
  intros Hsel Hmem Hdata Hrd Hh Hle Hfit.
  destruct (whole_nalu now s s1 Hsel Hle Hfit)
    as (mem' & d' & b & Hmem' & Hdata' & Hd & Hl & Hin & Hfst & Hsize & Hnc
        & _ & Hbytes).
  assert (mem' = mem) by congruence. assert (d' = d) by congruence.
  subst mem' d'.
  destruct Hsel as (_ & _ & Hgn).
  destruct (getNextNalu_header s s1 mem d h Hgn Hmem Hdata Hrd)
    as (Ef & En & Et).
  assert (Hsl : Z.of_nat (length (slice mem (d + 1) (len (nalu_ s1) - 1)))
                = len (nalu_ s1) - 1) by (apply slice_length; lia).
  exists b. split; [exact Hfst|]. split.
  { split; [|split].
    - destruct (get now s) as [o s2] eqn:Eg. cbn [fst] in Hfst. subst o.
      rewrite (fst_gets_step now [] s _ _ Eg), gets_nil. reflexivity.
    - destruct (get now s) as [o s2] eqn:Eg. cbn [snd] in Hnc.
      rewrite (snd_gets_step now [] s _ _ Eg), gets_nil. exact Hnc.
    - intros j Hj. cbn [length] in Hj. lia. }
  rewrite Hbytes.
  split; [rewrite marker_bit; reflexivity|].
  split.
  { unfold pktByte, rtpHeader, naluHeaderByte. cbn [app nth].
    rewrite Ef, En, Et. apply naluHeader_roundtrip. exact Hh. }
  split; [reflexivity|].
  split; [exact Hsl|].
  split; [exact Hsize|].
  rewrite !length_app. unfold rtpHeader. cbn [length]. lia.
Qed.

Lemma whole_packet_witness :
  exists b,
    fst (get 1010 exampleA) = Packet b /\
    emitsNalu [1010] exampleA [bytesOf b] /\
    pktMarker (bytesOf b) = true /\
    pktByte (bytesOf b) 12 = 101 /\
    wholePayload (bytesOf b)
    = slice [0;0;0;1; 101;1;2;3;4;5;6;7;8;9] (4 + 1) (10 - 1) /\
    Z.of_nat (length (wholePayload (bytesOf b))) = 10 - 1 /\
    size b = 10 + 12 /\
    Z.of_nat (length (bytesOf b)) = 10 + 12.
Proof.
  apply (whole_packet 1010 exampleA exampleA1
           [0;0;0;1; 101;1;2;3;4;5;6;7;8;9] 4 101).
  - exact exampleA_selects.
  - reflexivity.
  - reflexivity.
  - reflexivity.
  - lia.
  - vm_compute. discriminate.
  - vm_compute. discriminate.
Defined.

(** C5.  The marker bit is set on exactly one packet of a NAL unit: on the
    single packet of a NAL unit of at most [max] bytes, and on the last
    fragment only of a longer one.  Of the fragments, the first and only the
    first has the S bit, the last and only the last has the E bit. *)
Theorem marker_and_fu_bits now nows s s1 :
  Selects s s1 ->
  1 <= maxPacketLength (params_ s1) ->
  maxPacketLength (params_ s1) + 14 <= MAX_OUTBUF_SIZE ->
  (len (nalu_ s1) <= maxPacketLength (params_ s1) ->
   exists p, emitsNalu [now] s [p] /\ pktMarker p = true) /\
  (maxPacketLength (params_ s1) < len (nalu_ s1) ->
   Z.of_nat (length nows)
   = fuCount (len (nalu_ s1)) (maxPacketLength (params_ s1)) ->
   exists pkts,
     emitsNalu (now :: nows) s pkts /\
     (2 <= length pkts)%nat /\
     forall i, (i < length pkts)%nat ->
       pktMarker (nth i pkts []) = Nat.eqb i (length pkts - 1) /\
       fuS (nth i pkts []) = Nat.eqb i 0 /\
       fuE (nth i pkts []) = Nat.eqb i (length pkts - 1)).
Proof.
  intros Hsel Hmax1 Hfit. split.
  - intros Hle.
    destruct (whole_nalu now s s1 Hsel Hle ltac:(lia))
      as (mem & d & b & _ & _ & _ & _ & _ & Hfst & _ & Hnc & _ & Hbytes).
    exists (bytesOf b). split.
    + split; [|split].
      * destruct (get now s) as [o s2] eqn:Eg. cbn [fst] in Hfst. subst o.
        rewrite (fst_gets_step now [] s _ _ Eg), gets_nil. reflexivity.
      * destruct (get now s) as [o s2] eqn:Eg. cbn [snd] in Hnc.
        rewrite (snd_gets_step now [] s _ _ Eg), gets_nil. exact Hnc.
      * intros j Hj. cbn [length] in Hj. lia.
    + rewrite Hbytes, marker_bit. reflexivity.
  - intros Hlt Hlen.
    assert (Hmax : 1 <= maxPacketLength (params_ s1) < len (nalu_ s1))
      by lia.
    destruct (fragmented_nalu now nows s s1 Hsel Hmax Hfit Hlen)
      as (mem & d & _ & _ & _ & _ & Hemit).
    destruct (fu_arith _ _ Hmax) as (_ & _ & Hc1).
    eexists. split; [exact Hemit|].
    pose proof (fuPackets_length mem (nalu_ s1) d
                  (maxPacketLength (params_ s1))
                  (sampleTime now (tsStartMillisec_ s1)) (ssrc (params_ s1))
                  (seqNum_ s1) Hc1) as Hlp.
    split; [lia|].
    intros i Hi.
    destruct (fuPackets_nth mem (nalu_ s1) d (maxPacketLength (params_ s1))
                (sampleTime now (tsStartMillisec_ s1)) (ssrc (params_ s1))
                (seqNum_ s1) i Hmax ltac:(lia)) as (sq & Hnth).
    rewrite Hnth.
    replace (Nat.eqb i (length (fuPackets mem (nalu_ s1) d
               (maxPacketLength (params_ s1))
               (sampleTime now (tsStartMillisec_ s1)) (ssrc (params_ s1))
               (seqNum_ s1)) - 1))
      with (Nat.eqb i (Z.to_nat (fuCount (len (nalu_ s1))
                                   (maxPacketLength (params_ s1))))).
    2:{ f_equal. lia. }
    rewrite marker_bit.
    match goal with
    | |- context [rtpHeader ?m ?q ?t ?c ++ [?b12; ?b13] ++ ?pl] =>
        destruct (fu_bits m q t c b12 b13 pl) as (-> & ->)
    end.
    destruct (fuHeaderFirst_bits (nalu_ s1)) as (HS1 & HE1).
    destruct (Nat.eqb i (Z.to_nat (fuCount (len (nalu_ s1))
                                     (maxPacketLength (params_ s1)))))
      eqn:Efin; destruct i as [|i]; cbn [Nat.eqb].
    + apply Nat.eqb_eq in Efin. lia.
    + destruct (fuHeaderNext_bits 1 (nalu_ s1)) as (-> & ->). auto.
    + rewrite HS1, HE1. auto.
    + destruct (fuHeaderNext_bits 0 (nalu_ s1)) as (-> & ->). auto.
Qed.

Lemma marker_and_fu_bits_witness :
  (exists p, emitsNalu [1010] exampleA [p] /\ pktMarker p = true) /\
  (exists pkts,
     emitsNalu [10; 20] exampleB pkts /\
     (2 <= length pkts)%nat /\
     forall i, (i < length pkts)%nat ->
       pktMarker (nth i pkts []) = Nat.eqb i (length pkts - 1) /\
       fuS (nth i pkts []) = Nat.eqb i 0 /\
       fuE (nth i pkts []) = Nat.eqb i (length pkts - 1)).
Proof.
  split.
  - apply (proj1 (marker_and_fu_bits 1010 [] exampleA exampleA1
                    exampleA_selects
                    ltac:(vm_compute; discriminate)
                    ltac:(vm_compute; discriminate))).
    vm_compute. discriminate.
  - apply (proj2 (marker_and_fu_bits 10 [20] exampleB exampleB1
                    exampleB_selects
                    ltac:(vm_compute; discriminate)
                    ltac:(vm_compute; discriminate))).
    + vm_compute. reflexivity.
    + reflexivity.
Defined.

(** C6.  Every fragment of a NAL unit carries the time stamp computed from
    the clock reading [now] of the call that selected the NAL unit, whatever
    the clock readings [nows] of the later calls. *)
Theorem fragments_share_timestamp now nows s s1 :
  Selects s s1 ->
  1 <= maxPacketLength (params_ s1) < len (nalu_ s1) ->
  maxPacketLength (params_ s1) + 14 <= MAX_OUTBUF_SIZE ->
  Z.of_nat (length nows)
  = fuCount (len (nalu_ s1)) (maxPacketLength (params_ s1)) ->
  exists pkts,
    emitsNalu (now :: nows) s pkts /\
    forall i, (i < length pkts)%nat ->
      pktTimestamp (nth i pkts []) = sampleTime now (tsStartMillisec_ s).
Proof.
  intros Hsel Hmax Hfit Hlen.
  destruct (fragmented_nalu now nows s s1 Hsel Hmax Hfit Hlen)
    as (mem & d & _ & _ & _ & _ & Hemit).
  destruct (fu_arith _ _ Hmax) as (_ & _ & Hc1).
  destruct Hsel as (_ & _ & Hgn).
  destruct (getNextNalu_frame _ _ _ Hgn) as (n1 & nx1 & Es1).
  assert (Ets : tsStartMillisec_ s1 = tsStartMillisec_ s)
    by (subst s1; reflexivity).
  eexists. split; [exact Hemit|].
  intros i Hi.
  pose proof (fuPackets_length mem (nalu_ s1) d
                (maxPacketLength (params_ s1))
                (sampleTime now (tsStartMillisec_ s1)) (ssrc (params_ s1))
                (seqNum_ s1) Hc1) as Hlp.
  destruct (fuPackets_nth mem (nalu_ s1) d (maxPacketLength (params_ s1))
              (sampleTime now (tsStartMillisec_ s1)) (ssrc (params_ s1))
              (seqNum_ s1) i Hmax ltac:(lia)) as (sq & Hnth).
  rewrite Hnth, timestamp_field by apply sampleTime_range.
  rewrite Ets. reflexivity.
Qed.

Lemma fragments_share_timestamp_witness :
  exists pkts,
    emitsNalu [10; 20] exampleB pkts /\
    forall i, (i < length pkts)%nat ->
      pktTimestamp (nth i pkts [])
      = sampleTime 10 (tsStartMillisec_ exampleB).
Proof.
  apply (fragments_share_timestamp 10 [20] exampleB exampleB1).
  - exact exampleB_selects.
  - vm_compute. split; [discriminate | reflexivity].
  - vm_compute. discriminate.
  - reflexivity.
Defined.

(** ** One call of [get], in any state *)

Lemma upd_length l n f : length (upd l n f) = length l.
Proof.
  revert n. induction l as [|b t IH]; intros n; [reflexivity|].
  destruct n; cbn [upd length]; [reflexivity|]. rewrite IH. reflexivity.
Qed.

(** A successful [memcpy] into a buffer whose first [doff] bytes are [pre]:
    both ranges were inside their storage, the buffer keeps its length and
    its first [doff + n] bytes are [pre] and the bytes copied. *)
Lemma memcpy_prefix_inv pre tail mem doff soff n out :
  Z.of_nat (length pre) = doff ->
  memcpy (pre ++ tail) doff mem soff n = Some out ->
  0 <= n /\ 0 <= soff /\
  soff + n <= Z.of_nat (length mem) /\
  doff + n <= Z.of_nat (length (pre ++ tail)) /\
  firstn (Z.to_nat (doff + n)) out = pre ++ slice mem soff n /\
  length out = length (pre ++ tail).
Proof.
  intros Hpre Hcp.
  assert (Hc : 0 <= n /\ 0 <= soff /\
               soff + n <= Z.of_nat (length mem) /\
               doff + n <= Z.of_nat (length (pre ++ tail))).
  { unfold memcpy in Hcp.
    destruct (Z.ltb_spec n 0); [discriminate|].
    destruct (Z.ltb_spec soff 0); [discriminate|].
    destruct (Z.ltb_spec doff 0); [discriminate|].
    cbn [orb] in Hcp.
    destruct (Z.ltb_spec (Z.of_nat (length mem)) (soff + n));
      [discriminate|].
    destruct (Z.ltb_spec (Z.of_nat (length (pre ++ tail))) (doff + n));
      [discriminate|].
    lia. }
  destruct Hc as (Hn & Hs & Hm & Ho).
  do 4 (split; [assumption|]).
  destruct (memcpy_prefix pre tail mem doff soff n Hpre Hn Hs Hm Ho)
    as (out' & Hcp' & Hfn).
  assert (out' = out) by congruence. subst out'.
  split; [exact Hfn|].
  unfold memcpy in Hcp.
  destruct ((n <? 0) || (soff <? 0) || (doff <? 0)); [discriminate|].
  destruct (Z.of_nat (length mem) <? soff + n); [discriminate|].
  destruct (Z.of_nat (length (pre ++ tail)) <? doff + n); [discriminate|].
  injection Hcp as <-.
  rewrite !length_app, length_firstn, length_skipn.
  fold (slice mem soff n).
  pose proof (slice_length mem soff n Hs Hn Hm) as Hsl.
  rewrite length_app in Ho. rewrite !length_app. lia.
Qed.

Ltac run_stores_in H :=
  rewrite memset0_split in H;
  unfold store_htonl, store_htons, store_byte, store_bits in H;
  repeat match type of H with
  | context [Z.to_nat ?z] =>
      is_Z_const z;
      let n := eval vm_compute in (Z.to_nat z) in
      progress change (Z.to_nat z) with n in H
  end;
  cbn [upd app] in H.

Ltac proj_simpl_in H :=
  cbn [params_ outBuffer_ inBuffer_ nextNaluPtr_ inBufferSize_ fuCounter_
       lastFuSize_ fuIndex_ inBufferComplete_ naluComplete_ nalu_ seqNum_
       tsStartMillisec_ tsCurrentSample_
       set_outBuffer_ set_inBuffer_ set_nextNaluPtr_ set_inBufferSize_
       set_fuCounter_ set_lastFuSize_ set_fuIndex_ set_inBufferComplete_
       set_naluComplete_ set_nalu_ set_seqNum_ set_tsCurrentSample_
       startCodeLen ndata len forbiddenBit nalRefIdc nalUnitType] in H.

Lemma copyNalu_at13_inv b0 b1 b2 b3 b4 b5 b6 b7 b8 b9 b10 b11 b12 tail st
      off n out :
  copyNalu (b0 :: b1 :: b2 :: b3 :: b4 :: b5 :: b6 :: b7 :: b8 :: b9 :: b10
              :: b11 :: b12 :: tail) 13 st off n = Some out ->
  exists payload,
    firstn (Z.to_nat (13 + n)) out
    = [b0; b1; b2; b3; b4; b5; b6; b7; b8; b9; b10; b11; b12] ++ payload /\
    Z.of_nat (length payload) = n /\
    Z.of_nat (length out) = 13 + Z.of_nat (length tail).
Proof.
  unfold copyNalu. intros H.
  destruct (inBuffer_ st) as [mem|]; [|discriminate].
  destruct (ndata (nalu_ st)) as [d|]; [|discriminate].
  apply (memcpy_prefix_inv
           [b0; b1; b2; b3; b4; b5; b6; b7; b8; b9; b10; b11; b12] tail)
    in H; [|reflexivity].
  destruct H as (Hn & Hs & Hm & Ho & Hfn & Hl).
  exists (slice mem (d + off) n). split; [exact Hfn|].
  split; [apply slice_length; assumption|].
  rewrite Hl, length_app. cbn [length]. lia.
Qed.

Lemma copyNalu_at14_inv b0 b1 b2 b3 b4 b5 b6 b7 b8 b9 b10 b11 b12 b13 tail
      st off n out :
  copyNalu (b0 :: b1 :: b2 :: b3 :: b4 :: b5 :: b6 :: b7 :: b8 :: b9 :: b10
              :: b11 :: b12 :: b13 :: tail) 14 st off n = Some out ->
  exists payload,
    firstn (Z.to_nat (14 + n)) out
    = [b0; b1; b2; b3; b4; b5; b6; b7; b8; b9; b10; b11; b12; b13]
      ++ payload /\
    Z.of_nat (length payload) = n /\
    Z.of_nat (length out) = 14 + Z.of_nat (length tail).
Proof.
  unfold copyNalu. intros H.
  destruct (inBuffer_ st) as [mem|]; [|discriminate].
  destruct (ndata (nalu_ st)) as [d|]; [|discriminate].
  apply (memcpy_prefix_inv
           [b0; b1; b2; b3; b4; b5; b6; b7; b8; b9; b10; b11; b12; b13] tail)
    in H; [|reflexivity].
  destruct H as (Hn & Hs & Hm & Ho & Hfn & Hl).
  exists (slice mem (d + off) n). split; [exact Hfn|].
  split; [apply slice_length; assumption|].
  rewrite Hl, length_app. cbn [length]. lia.
Qed.

(** The bytes seen through the buffer [get] returns, from the first bytes
    of the output buffer. *)
Lemma bytesOf_packet out sz k hdr payload :
  firstn (Z.to_nat (k + Z.of_nat (length payload))) out = hdr ++ payload ->
  Z.of_nat (length hdr) = k ->
  sz = k + Z.of_nat (length payload) ->
  bytesOf (mkBuffer (Some out) sz) = hdr ++ payload /\
  Z.of_nat (length (bytesOf (mkBuffer (Some out) sz))) = sz.
Proof.
  intros Hfn Hk ->. unfold bytesOf. cbn [data size]. rewrite Hfn.
  split; [reflexivity|]. rewrite length_app. lia.
Qed.

Lemma get_packet_inv now s b s' :
  get now s = (Packet b, s') ->
  exists m ts rest,
    bytesOf b = rtpHeader m (seqNum_ s) ts (ssrc (params_ s)) ++ rest /\
    Z.of_nat (length (bytesOf b)) = size b /\
    size b <= MAX_OUTBUF_SIZE /\
    computedSize s = Some (size b) /\
    seqNum_ s' = (seqNum_ s + 1) mod 65536 /\
    params_ s' = params_ s /\
    ((naluComplete_ s = true /\ naluComplete_ s' = true /\
      size b <= maxPacketLength (params_ s) + 12) \/
     (naluComplete_ s' = false /\
      size b = maxPacketLength (params_ s) + 14) \/
     (naluComplete_ s = false /\ naluComplete_ s' = true /\
      size b = lastFuSize_ s - 1 + 14)).
Proof.
  intros H. unfold computedSize. unfold get in H.
  destruct (inBufferComplete_ s) eqn:Hbc; [discriminate|].
  cbv zeta in H. cbv zeta. run_stores_in H.
  destruct (naluComplete_ s) eqn:Hnc.
  - destruct (getNextNalu s) as [[ret s1]|] eqn:Hgn; [|discriminate].
    destruct (ret <=? 0) eqn:Hret; [discriminate|].
    destruct (getNextNalu_frame _ _ _ Hgn) as (n1 & nx1 & Es1).
    assert (Hfr : seqNum_ s1 = seqNum_ s /\ params_ s1 = params_ s)
      by (subst s1; split; reflexivity).
    destruct Hfr as (Eseq & Epar). clear Es1.
    proj_simpl_in H.
    destruct (len (nalu_ s1) <=? maxPacketLength (params_ s)) eqn:Hle.
    + destruct (MAX_OUTBUF_SIZE <? len (nalu_ s1) + 12) eqn:Hov;
        [discriminate|].
      match type of H with
      | match ?c with _ => _ end = _ => destruct c as [out|] eqn:Hcp
      end; [|discriminate].
      injection H as <- <-.
      apply copyNalu_at13_inv in Hcp.
      destruct Hcp as (payload & Hfn & Hpl & Hlo).
      rewrite <- Hpl in Hfn.
      destruct (bytesOf_packet out (len (nalu_ s1) + 12) 13 _ payload Hfn
                  eq_refl ltac:(lia)) as (Hb & Hbl).
      rewrite Eseq in Hb.
      eexists 1, _, _. split; [exact Hb|].
      split; [exact Hbl|]. cbn [size]. proj_simpl.
      apply Z.ltb_ge in Hov. apply Z.leb_le in Hle.
      split; [exact Hov|]. split; [reflexivity|].
      split; [rewrite Eseq; reflexivity|]. split; [exact Epar|].
      left. split; [reflexivity|]. split; [reflexivity|]. lia.
    + destruct (maxPacketLength (params_ s) =? 0) eqn:Hz; [discriminate|].
      destruct (MAX_OUTBUF_SIZE <? maxPacketLength (params_ s) + 14) eqn:Hov;
        [discriminate|].
      destruct (Z.rem (len (nalu_ s1)) (maxPacketLength (params_ s)) =? 0);
        proj_simpl_in H;
        (match type of H with
         | match ?c with _ => _ end = _ => destruct c as [out|] eqn:Hcp
         end; [|discriminate]);
        injection H as <- <-;
        apply copyNalu_at14_inv in Hcp;
        destruct Hcp as (payload & Hfn & Hpl & Hlo);
        rewrite <- Hpl in Hfn;
        destruct (bytesOf_packet out (maxPacketLength (params_ s) + 14) 14 _
                    payload Hfn eq_refl ltac:(lia)) as (Hb & Hbl);
        rewrite Eseq in Hb;
        (eexists 0, _, _; split; [exact Hb|]);
        (split; [exact Hbl|]); cbn [size]; proj_simpl;
        apply Z.ltb_ge in Hov;
        (split; [exact Hov|]); (split; [reflexivity|]);
        (split; [rewrite Eseq; reflexivity|]); (split; [exact Epar|]);
        right; left; split; reflexivity.
  - proj_simpl_in H.
    destruct (fuIndex_ s =? fuCounter_ s) eqn:Hidx.
    + destruct (MAX_OUTBUF_SIZE <? lastFuSize_ s - 1 + 14) eqn:Hov;
        [discriminate|].
      match type of H with
      | match ?c with _ => _ end = _ => destruct c as [out|] eqn:Hcp
      end; [|discriminate].
      injection H as <- <-.
      apply copyNalu_at14_inv in Hcp.
      destruct Hcp as (payload & Hfn & Hpl & Hlo).
      rewrite <- Hpl in Hfn.
      destruct (bytesOf_packet out (lastFuSize_ s - 1 + 14) 14 _
                  payload Hfn eq_refl ltac:(lia)) as (Hb & Hbl).
      eexists 1, _, _. split; [exact Hb|].
      split; [exact Hbl|]. cbn [size]. proj_simpl.
      apply Z.ltb_ge in Hov.
      split; [exact Hov|]. split; [reflexivity|].
      split; [reflexivity|]. split; [reflexivity|].
      right; right. split; [reflexivity|]. split; reflexivity.
    + destruct (MAX_OUTBUF_SIZE <? maxPacketLength (params_ s) + 14) eqn:Hov;
        [discriminate|].
      match type of H with
      | match ?c with _ => _ end = _ => destruct c as [out|] eqn:Hcp
      end; [|discriminate].
      injection H as <- <-.
      apply copyNalu_at14_inv in Hcp.
      destruct Hcp as (payload & Hfn & Hpl & Hlo).
      rewrite <- Hpl in Hfn.
      destruct (bytesOf_packet out (maxPacketLength (params_ s) + 14) 14 _
                  payload Hfn eq_refl ltac:(lia)) as (Hb & Hbl).
      eexists 0, _, _. split; [exact Hb|].
      split; [exact Hbl|]. cbn [size]. proj_simpl.
      apply Z.ltb_ge in Hov.
      split; [exact Hov|]. split; [reflexivity|].
      split; [reflexivity|]. split; [reflexivity|].
      right; left. split; [exact Hnc|]. reflexivity.
Qed.

(** A call that returns nothing leaves the sequence number alone and the
    buffer drained. *)
Lemma get_nullopt_inv now s s' :
  get now s = (Nullopt, s') ->
  seqNum_ s' = seqNum_ s /\ params_ s' = params_ s /\
  inBufferComplete_ s' = true /\ naluComplete_ s' = naluComplete_ s.
Proof.
  intros H. unfold get in H.
  destruct (inBufferComplete_ s) eqn:Hbc.
  { injection H as <-. auto. }
  cbv zeta in H.
  destruct (naluComplete_ s) eqn:Hnc.
  - destruct (getNextNalu s) as [[ret s1]|] eqn:Hgn; [|discriminate].
    destruct (Z.leb_spec ret 0) as [Hret|Hret].
    + injection H as <-.
      rewrite (getNextNalu_fail _ _ _ Hgn Hret). proj_simpl. auto.
    + exfalso. proj_simpl_in H.
      destruct (len (nalu_ s1) <=? maxPacketLength (params_ s)).
      * destruct (MAX_OUTBUF_SIZE <? len (nalu_ s1) + 12); [discriminate|].
        match type of H with
        | match ?c with _ => _ end = _ => destruct c
        end; discriminate.
      * destruct (maxPacketLength (params_ s) =? 0); [discriminate|].
        destruct (MAX_OUTBUF_SIZE <? maxPacketLength (params_ s) + 14);
          [discriminate|].
        match type of H with
        | match ?c with _ => _ end = _ => destruct c
        end; discriminate.
  - exfalso. proj_simpl_in H.
    destruct (fuIndex_ s =? fuCounter_ s).
    + destruct (MAX_OUTBUF_SIZE <? lastFuSize_ s - 1 + 14); [discriminate|].
      match type of H with
      | match ?c with _ => _ end = _ => destruct c
      end; discriminate.
    + destruct (MAX_OUTBUF_SIZE <? maxPacketLength (params_ s) + 14);
        [discriminate|].
      match type of H with
      | match ?c with _ => _ end = _ => destruct c
      end; discriminate.
Qed.

(** A computed size above the capacity makes [get] throw. *)
Lemma get_overflow now s sz :
  computedSize s = Some sz -> MAX_OUTBUF_SIZE < sz ->
  fst (get now s) = overflow.
Proof.
  unfold computedSize, get. intros H Hsz.
  destruct (inBufferComplete_ s); [discriminate|].
  cbv zeta in H. cbv zeta.
  destruct (naluComplete_ s).
  - destruct (getNextNalu s) as [[ret s1]|]; [|discriminate].
    destruct (ret <=? 0); [discriminate|].
    proj_simpl.
    destruct (len (nalu_ s1) <=? maxPacketLength (params_ s)).
    + injection H as <-. rewrite (proj2 (Z.ltb_lt _ _) Hsz). reflexivity.
    + destruct (maxPacketLength (params_ s) =? 0); [discriminate|].
      injection H as <-. rewrite (proj2 (Z.ltb_lt _ _) Hsz). reflexivity.
  - proj_simpl. destruct (fuIndex_ s =? fuCounter_ s);
      injection H as <-; rewrite (proj2 (Z.ltb_lt _ _) Hsz); reflexivity.
Qed.

(** C7.  When the size computed for the packet under construction exceeds
    the capacity of the output buffer, [get] throws [PackException] and
    returns no packet.  A packet that is returned has the computed size, fits
    the output buffer and is there in full. *)
Theorem overflow_is_raised now s :
  (forall sz, computedSize s = Some sz -> MAX_OUTBUF_SIZE < sz ->
     fst (get now s) = PackException "RTP output buffer overflow") /\
  (forall b, fst (get now s) = Packet b ->
     computedSize s = Some (size b) /\
     size b <= MAX_OUTBUF_SIZE /\
     Z.of_nat (length (bytesOf b)) = size b).
Proof.
  split.
  - intros sz Hsz Hgt. exact (get_overflow now s sz Hsz Hgt).
  - intros b Hb. destruct (get now s) as [o s'] eqn:Hget.
    cbn [fst] in Hb. subst o.
    destruct (get_packet_inv now s b s' Hget)
      as (m & ts & rest & _ & Hlen & Hfit & Hcs & _).
    auto.
Qed.

Lemma overflow_is_raised_witness :
  fst (get 5 exampleBig) = PackException "RTP output buffer overflow" /\
  (computedSize exampleA = Some (size (returned (fst (get 1010 exampleA)))) /\
   size (returned (fst (get 1010 exampleA))) <= MAX_OUTBUF_SIZE /\
   Z.of_nat (length (bytesOf (returned (fst (get 1010 exampleA)))))
   = size (returned (fst (get 1010 exampleA)))).
Proof.
  split.
  - apply (proj1 (overflow_is_raised 5 exampleBig) 10312).
    + vm_compute. reflexivity.
    + reflexivity.
  - apply (proj2 (overflow_is_raised 1010 exampleA)).
    vm_compute. reflexivity.
Defined.

(** ** Sequences of calls *)

Lemma put_seqNum input s : seqNum_ (put input s) = seqNum_ s.
Proof. reflexivity. Qed.

Lemma run_get now rest s o s1 :
  get now s = (o, s1) ->
  run (CallGet now :: rest) s = (o :: fst (run rest s1), snd (run rest s1)).
Proof.
  intros H. cbn [run]. rewrite H. destruct (run rest s1). reflexivity.
Qed.

Lemma run_put input rest s :
  run (CallPut input :: rest) s = run rest (put input s).
Proof. reflexivity. Qed.

Lemma run_sequence calls : forall s,
  0 <= seqNum_ s < 65536 ->
  Forall normal (fst (run calls s)) ->
  (forall i, (i < length (packetsOf (fst (run calls s))))%nat ->
     pktSeq (nth i (packetsOf (fst (run calls s))) [])
     = (seqNum_ s + Z.of_nat i) mod 65536) /\
  seqNum_ (snd (run calls s))
  = (seqNum_ s + Z.of_nat (length (packetsOf (fst (run calls s)))))
    mod 65536.
Proof.
  induction calls as [|c rest IH]; intros s Hs Hn.
  - cbn [run fst snd packetsOf length]. split.
    + intros i Hi. lia.
    + rewrite Z.add_0_r, Z.mod_small by lia. reflexivity.
  - destruct c as [input | now].
    + rewrite run_put in *. rewrite <- (put_seqNum input s).
      apply IH; [rewrite put_seqNum; exact Hs | exact Hn].
    + destruct (get now s) as [o s1] eqn:Hget.
      rewrite (run_get now rest s o s1 Hget) in *. cbn [fst snd] in *.
      inversion Hn as [|? ? Ho Hrest]; subst.
      destruct o as [b | | w | ]; cbn [normal] in Ho; try contradiction.
      * destruct (get_packet_inv now s b s1 Hget)
          as (m & ts & rst & Hb & _ & _ & _ & Hseq & _).
        assert (Hs1 : 0 <= seqNum_ s1 < 65536)
          by (rewrite Hseq; apply Z.mod_pos_bound; lia).
        destruct (IH s1 Hs1 Hrest) as (IHn & IHs).
        cbn [packetsOf length]. split.
        -- intros i Hi. destruct i as [|i].
           ++ cbn [nth]. rewrite Hb, seq_field by exact Hs.
              rewrite Z.add_0_r, Z.mod_small by lia. reflexivity.
           ++ cbn [nth]. rewrite IHn by lia. rewrite Hseq.
              rewrite Zplus_mod_idemp_l. f_equal. lia.
        -- rewrite IHs, Hseq, Zplus_mod_idemp_l. f_equal. lia.
      * destruct (get_nullopt_inv now s s1 Hget) as (Hseq & _).
        assert (Hs1 : 0 <= seqNum_ s1 < 65536) by (rewrite Hseq; exact Hs).
        destruct (IH s1 Hs1 Hrest) as (IHn & IHs).
        cbn [packetsOf]. rewrite <- Hseq. split; assumption.
Qed.

(** ** Reachable states *)

(** A call that throws has taken a sequence number and leaves the NAL unit
    flag as it was. *)
Lemma get_throw_inv now s w s' :
  get now s = (PackException w, s') ->
  seqNum_ s' = (seqNum_ s + 1) mod 65536 /\ params_ s' = params_ s /\
  naluComplete_ s' = naluComplete_ s.
Proof.
  intros H. unfold get in H.
  destruct (inBufferComplete_ s) eqn:Hbc; [discriminate|].
  cbv zeta in H.
  destruct (naluComplete_ s) eqn:Hnc.
  - destruct (getNextNalu s) as [[ret s1]|] eqn:Hgn; [|discriminate].
    destruct (ret <=? 0) eqn:Hret; [discriminate|].
    destruct (getNextNalu_frame _ _ _ Hgn) as (n1 & nx1 & Es1).
    assert (Hfr : seqNum_ s1 = seqNum_ s /\ params_ s1 = params_ s
                  /\ naluComplete_ s1 = true)
      by (subst s1; proj_simpl; auto).
    destruct Hfr as (Eseq & Epar & Enc). clear Es1.
    proj_simpl_in H.
    destruct (len (nalu_ s1) <=? maxPacketLength (params_ s)).
    + destruct (MAX_OUTBUF_SIZE <? len (nalu_ s1) + 12).
      * injection H as _ <-. proj_simpl. rewrite Eseq. auto.
      * match type of H with
        | match ?c with _ => _ end = _ => destruct c
        end; discriminate.
    + destruct (maxPacketLength (params_ s) =? 0); [discriminate|].
      destruct (MAX_OUTBUF_SIZE <? maxPacketLength (params_ s) + 14).
      * injection H as _ <-.
        destruct (Z.rem (len (nalu_ s1)) (maxPacketLength (params_ s)) =? 0);
          proj_simpl; rewrite Eseq; auto.
      * match type of H with
        | match ?c with _ => _ end = _ => destruct c
        end; discriminate.
  - proj_simpl_in H.
    destruct (fuIndex_ s =? fuCounter_ s).
    + destruct (MAX_OUTBUF_SIZE <? lastFuSize_ s - 1 + 14).
      * injection H as _ <-. proj_simpl. auto.
      * match type of H with
        | match ?c with _ => _ end = _ => destruct c
        end; discriminate.
    + destruct (MAX_OUTBUF_SIZE <? maxPacketLength (params_ s) + 14).
      * injection H as _ <-. proj_simpl. auto.
      * match type of H with
        | match ?c with _ => _ end = _ => destruct c
        end; discriminate.
Qed.

(** The call that returns a first fragment: the scanner found a NAL unit
    longer than [max], [max] is positive and the fragment fits. *)
Lemma get_first_inv now s b s' :
  get now s = (Packet b, s') ->
  naluComplete_ s = true -> naluComplete_ s' = false ->
  inBufferComplete_ s = false /\
  exists s1,
    getNextNalu s = Some (1, s1) /\
    1 <= maxPacketLength (params_ s1) < len (nalu_ s1) /\
    maxPacketLength (params_ s1) + 14 <= MAX_OUTBUF_SIZE.
Proof.
  intros H Hnc Hnc'. unfold get in H.
  destruct (inBufferComplete_ s) eqn:Hbc; [discriminate|].
  split; [reflexivity|].
  cbv zeta in H. run_stores_in H. rewrite Hnc in H.
  destruct (getNextNalu s) as [[ret s1]|] eqn:Hgn; [|discriminate].
  destruct (Z.leb_spec ret 0) as [Hret|Hret]; [discriminate|].
  destruct (getNextNalu_ok _ _ _ Hgn Hret)
    as (mem & cur & scl & np & nx & h & Eret & _ & _ & Es1 & _).
  subst ret. exists s1. split; [reflexivity|].
  assert (Epar : params_ s1 = params_ s) by (subst s1; reflexivity).
  clear Es1. rewrite Epar. proj_simpl_in H.
  destruct (Z.leb_spec (len (nalu_ s1)) (maxPacketLength (params_ s)))
    as [Hle|Hle].
  - destruct (MAX_OUTBUF_SIZE <? len (nalu_ s1) + 12); [discriminate|].
    match type of H with
    | match ?c with _ => _ end = _ => destruct c
    end; [|discriminate].
    injection H as _ <-. proj_simpl_in Hnc'. discriminate.
  - destruct (Z.eqb_spec (maxPacketLength (params_ s)) 0) as [Hz|Hz];
      [discriminate|].
    destruct (Z.ltb_spec MAX_OUTBUF_SIZE (maxPacketLength (params_ s) + 14))
      as [Hov|Hov]; [discriminate|].
    assert (Hpos : 0 <= maxPacketLength (params_ s)).
    { destruct (Z.rem (len (nalu_ s1)) (maxPacketLength (params_ s)) =? 0);
        proj_simpl_in H;
        (match type of H with
         | match ?c with _ => _ end = _ => destruct c as [out|] eqn:Hcp
         end; [|discriminate]);
        apply copyNalu_at14_inv in Hcp;
        destruct Hcp as (payload & _ & Hpl & _); lia. }
    lia.
Qed.

Lemma Inv_new params now : Inv params (Impl_new params now).
Proof.
  constructor.
  - reflexivity.
  - cbn [seqNum_ Impl_new]. lia.
  - cbn [naluComplete_ Impl_new]. discriminate.
Qed.

Lemma Inv_put params input s : Inv params s -> Inv params (put input s).
Proof.
  intros [Hp Hs _]. constructor.
  - exact Hp.
  - rewrite put_seqNum. exact Hs.
  - intros H. discriminate H.
Qed.

(** Between two fragments the call of [get] is determined. *)
Lemma get_fragment now s mem d :
  FragState mem d s ->
  exists b s',
    get now s = (Packet b, s') /\
    seqNum_ s' = (seqNum_ s + 1) mod 65536 /\
    params_ s' = params_ s /\
    nextNaluPtr_ s' = nextNaluPtr_ s /\ inBuffer_ s' = inBuffer_ s /\
    (naluComplete_ s' = false -> FragState mem d s').
Proof.
  intros Hfs. pose proof (fs_idx _ _ _ Hfs) as Hidx.
  destruct (Z.eq_dec (fuIndex_ s) (fuCounter_ s)) as [E|E].
  - destruct (get_last now s mem d Hfs E) as (out & Hget & _).
    eexists _, _. split; [exact Hget|]. proj_simpl.
    do 4 (split; [reflexivity|]). discriminate.
  - destruct (get_middle now s mem d Hfs ltac:(lia)) as (out & Hget & _).
    eexists _, _. split; [exact Hget|]. proj_simpl.
    do 4 (split; [reflexivity|]). intros _.
    destruct Hfs. constructor; proj_simpl; try assumption. lia.
Qed.

Lemma Inv_get params now s o s' :
  Inv params s -> get now s = (o, s') -> o <> Undefined -> Inv params s'.
Proof.
  intros [Hp Hs Hf] Hget Ho.
  destruct (naluComplete_ s) eqn:Hnc.
  - destruct o as [b | | w | ]; [| | |contradiction].
    + destruct (get_packet_inv now s b s' Hget)
        as (_ & _ & _ & _ & _ & _ & _ & Hseq & Hpar & _).
      constructor.
      * congruence.
      * rewrite Hseq. apply Z.mod_pos_bound. lia.
      * intros Hnc'.
        destruct (get_first_inv now s b s' Hget Hnc Hnc')
          as (Hbc & s1 & Hgn & Hmax & Hfit).
        destruct (get_first now s 1 s1 Hbc Hnc Hgn ltac:(lia) Hmax Hfit)
          as (mem & d & out & Hmem & Hdata & Hd & Hin & Hget' & _).
        destruct (getNextNalu_ok _ _ _ Hgn ltac:(lia))
          as (mem' & cur & scl & np & nx & h & _ & Emem & _ & Es1 & _ & _
              & _ & _ & Hnx).
        assert (Hfr : inBufferComplete_ s1 = false /\
                      nextNaluPtr_ s1 = nx /\ inBuffer_ s1 = Some mem').
        { subst s1. proj_simpl. auto. }
        destruct Hfr as (Hbc1 & Enx & Emem1). clear Es1.
        assert (mem' = mem) by congruence. subst mem'.
        destruct (fu_arith _ _ Hmax) as (_ & _ & Hc1).
        rewrite Hget in Hget'. injection Hget' as _ ->.
        split.
        -- unfold CursorOk. proj_simpl. rewrite Enx, Hmem.
           destruct Hnx as [Hnone | (Hsome & Hsc)]; [left; exact Hnone|].
           right. exists mem, np. auto.
        -- exists mem, d.
           constructor; proj_simpl; try assumption; try reflexivity; lia.
    + destruct (get_nullopt_inv now s s' Hget) as (Hseq & Hpar & _ & Hnc').
      constructor; [congruence | rewrite Hseq; exact Hs |].
      intros H. congruence.
    + destruct (get_throw_inv now s w s' Hget) as (Hseq & Hpar & Hnc').
      constructor; [congruence | |].
      * rewrite Hseq. apply Z.mod_pos_bound. lia.
      * intros H. congruence.
  - destruct (Hf eq_refl) as (Hcur & mem & d & Hfs).
    destruct (get_fragment now s mem d Hfs)
      as (b & s2 & Hget' & Hseq & Hpar & Hnx & Hmem & Hfs').
    rewrite Hget in Hget'. injection Hget' as -> ->.
    constructor.
    + congruence.
    + rewrite Hseq. apply Z.mod_pos_bound. lia.
    + intros Hnc'. split; [|exists mem, d; exact (Hfs' Hnc')].
      unfold CursorOk in *. rewrite Hnx, Hmem. exact Hcur.
Qed.

Lemma reachable_Inv params s : reachable params s -> Inv params s.
Proof.
  induction 1 as [now | s input _ IH | s now o s' _ IH Hget Ho].
  - apply Inv_new.
  - apply Inv_put. exact IH.
  - exact (Inv_get params now s o s' IH Hget Ho).
Qed.

(** C10.  A packet returned by [get] has at most [maxPacketLength + 14]
    bytes: a whole packet has at most [maxPacketLength + 12] bytes, a
    fragment that is not the last one exactly [maxPacketLength + 14], the
    last fragment at most [maxPacketLength + 13]; the bytes seen through the
    returned buffer are as many as its size. *)
Theorem packet_size_bounds params s now b s' :
  reachable params s ->
  1 <= maxPacketLength params ->
  get now s = (Packet b, s') ->
  Z.of_nat (length (bytesOf b)) = size b /\
  size b <= maxPacketLength params + 14 /\
  (naluComplete_ s = true -> naluComplete_ s' = true ->
   size b <= maxPacketLength params + 12) /\
  (naluComplete_ s' = false -> size b = maxPacketLength params + 14) /\
  (naluComplete_ s = false -> naluComplete_ s' = true ->
   size b <= maxPacketLength params + 13).
Proof.
  intros Hr Hmax1 Hget.
  destruct (reachable_Inv params s Hr) as [Hp _ Hf].
  destruct (get_packet_inv now s b s' Hget)
    as (_ & _ & _ & _ & Hlen & _ & _ & _ & _ & Hkind).
  rewrite Hp in Hkind.
  assert (Hlast : naluComplete_ s = false ->
                  lastFuSize_ s <= maxPacketLength params).
  { intros Hnc. destruct (Hf Hnc) as (_ & mem & d & Hfs).
    destruct (fu_arith _ _ (fs_max _ _ _ Hfs)) as (_ & Hl & _).
    rewrite <- (fs_last _ _ _ Hfs), Hp in Hl. lia. }
  split; [exact Hlen|].
  destruct Hkind as [(Hnc & Hnc' & Hsz) | [(Hnc' & Hsz) | (Hnc & Hnc' & Hsz)]].
  - split; [lia|]. split; [intros _ _; exact Hsz|].
    split; intros; congruence.
  - split; [lia|]. split; [intros _ H; congruence|].
    split; [intros _; exact Hsz|]. intros _ H; congruence.
  - specialize (Hlast Hnc).
    split; [lia|]. split; [intros H; congruence|].
    split; [intros H; congruence|]. intros _ _. lia.
Qed.

Lemma exampleB_reachable : reachable smallParams exampleB.
Proof. apply reach_put. apply reach_new. Defined.

Lemma packet_size_bounds_witness :
  Z.of_nat (length (bytesOf (returned (fst (get 10 exampleB)))))
  = size (returned (fst (get 10 exampleB))) /\
  size (returned (fst (get 10 exampleB))) <= maxPacketLength smallParams + 14 /\
  (naluComplete_ exampleB = true ->
   naluComplete_ (snd (get 10 exampleB)) = true ->
   size (returned (fst (get 10 exampleB)))
   <= maxPacketLength smallParams + 12) /\
  (naluComplete_ (snd (get 10 exampleB)) = false ->
   size (returned (fst (get 10 exampleB)))
   = maxPacketLength smallParams + 14) /\
  (naluComplete_ exampleB = false ->
   naluComplete_ (snd (get 10 exampleB)) = true ->
   size (returned (fst (get 10 exampleB)))
   <= maxPacketLength smallParams + 13).
Proof.
  apply (packet_size_bounds smallParams exampleB 10
           (returned (fst (get 10 exampleB))) (snd (get 10 exampleB))).
  - exact exampleB_reachable.
  - vm_compute. discriminate.
  - vm_compute. reflexivity.
Defined.

(** ** A drained buffer *)

(** Once the buffer is drained every call returns nothing and changes
    nothing. *)
Lemma gets_drained nows : forall s,
  inBufferComplete_ s = true ->
  gets nows s = (repeat Nullopt (length nows), s).
Proof.
  induction nows as [|now rest IH]; intros s Hbc.
  - reflexivity.
  - assert (Hget : get now s = (Nullopt, s)).
    { unfold get. rewrite Hbc. reflexivity. }
    cbn [gets]. rewrite Hget, (IH s Hbc). reflexivity.
Qed.

(** When the scanner finds no NAL unit, [get] returns nothing, marks the
    buffer drained and changes nothing but the output buffer. *)
Lemma get_scan_failed now s ret :
  inBufferComplete_ s = false -> naluComplete_ s = true ->
  getNextNalu s = Some (ret, s) -> ret <= 0 ->
  exists out,
    get now s = (Nullopt, set_inBufferComplete_ true (set_outBuffer_ out s)).
Proof.
  intros Hbc Hnc Hgn Hret. unfold get. rewrite Hbc, Hnc, Hgn.
  rewrite (proj2 (Z.leb_le _ _) Hret). cbv zeta.
  eexists. reflexivity.
Qed.

Lemma getNextNalu_no_start_code s mem p :
  inBuffer_ s = Some mem -> nextNaluPtr_ s = Some p ->
  isStartCode3 mem p = Some false -> isStartCode4 mem p = Some false ->
  getNextNalu s = Some (-1, s).
Proof.
  intros Hmem Hp H3 H4. unfold getNextNalu, startCodeLenAt.
  rewrite Hp, Hmem, H3, H4. reflexivity.
Qed.

(** C8.  When neither start code is at the scan position, [get] returns
    nothing without throwing and marks the buffer drained; the calls that
    follow return nothing either, until [put] binds a new buffer. *)
Theorem missing_start_code params s now nows mem p :
  reachable params s ->
  inBuffer_ s = Some mem -> nextNaluPtr_ s = Some p ->
  isStartCode3 mem p = Some false -> isStartCode4 mem p = Some false ->
  fst (get now s) = Nullopt /\
  inBufferComplete_ (snd (get now s)) = true /\
  seqNum_ (snd (get now s)) = seqNum_ s /\
  fst (gets nows (snd (get now s))) = repeat Nullopt (length nows) /\
  snd (gets nows (snd (get now s))) = snd (get now s) /\
  (forall input, inBufferComplete_ (put input (snd (get now s))) = false).
Proof.
  intros Hr Hmem Hp H3 H4.
  assert (Hget : exists s', get now s = (Nullopt, s') /\
                            inBufferComplete_ s' = true /\
                            seqNum_ s' = seqNum_ s).
  { destruct (inBufferComplete_ s) eqn:Hbc.
    - exists s. unfold get. rewrite Hbc. auto.
    - destruct (naluComplete_ s) eqn:Hnc.
      + pose proof (getNextNalu_no_start_code s mem p Hmem Hp H3 H4) as Hgn.
        destruct (get_scan_failed now s (-1) Hbc Hnc Hgn ltac:(lia))
          as (out & Hg).
        eexists. split; [exact Hg|]. proj_simpl. auto.
      + exfalso.
        destruct (inv_frag _ _ (reachable_Inv params s Hr) Hnc)
          as ([Hnone | (mem' & p' & Hmem' & Hp' & Hsc)] & _).
        * congruence.
        * assert (mem' = mem) by congruence.
          assert (p' = p) by congruence. subst mem' p'.
          unfold isStartCode in Hsc. rewrite H3, H4 in Hsc. discriminate. }
  destruct Hget as (s' & Hget & Hbc' & Hseq).
  rewrite Hget. cbn [fst snd].
  rewrite (gets_drained nows s' Hbc'). cbn [fst snd].
  repeat (split; [assumption || reflexivity|]).
  intros input. reflexivity.
Qed.

Lemma missing_start_code_witness :
  fst (get 10 exampleNoStart) = Nullopt /\
  inBufferComplete_ (snd (get 10 exampleNoStart)) = true /\
  seqNum_ (snd (get 10 exampleNoStart)) = seqNum_ exampleNoStart /\
  fst (gets [20; 30] (snd (get 10 exampleNoStart)))
  = repeat Nullopt (length [20; 30]) /\
  snd (gets [20; 30] (snd (get 10 exampleNoStart)))
  = snd (get 10 exampleNoStart) /\
  (forall input,
     inBufferComplete_ (put input (snd (get 10 exampleNoStart))) = false).
Proof.
  apply (missing_start_code smallParams exampleNoStart 10 [20; 30]
           [9;0;0;1; 101;1;2] 0).
  - apply reach_put. apply reach_new.
  - reflexivity.
  - reflexivity.
  - reflexivity.
  - reflexivity.
Defined.

(** C9.  On a packetizer that was just constructed, before any [put], every
    call of [get] returns nothing; none throws; the sequence number stays
    what it was. *)
Theorem get_before_put params t0 nows :
  fst (gets nows (Impl_new params t0)) = repeat Nullopt (length nows) /\
  seqNum_ (snd (gets nows (Impl_new params t0)))
  = seqNum_ (Impl_new params t0).
Proof.
  destruct nows as [|now rest].
  - split; reflexivity.
  - assert (Hgn : getNextNalu (Impl_new params t0)
                  = Some (0, Impl_new params t0)) by reflexivity.
    destruct (get_scan_failed now (Impl_new params t0) 0 eq_refl eq_refl Hgn
                ltac:(lia)) as (out & Hget).
    rewrite (fst_gets_step now rest _ _ _ Hget),
            (snd_gets_step now rest _ _ _ Hget).
    rewrite gets_drained by reflexivity.
    cbn [fst snd repeat length]. split; reflexivity.
Qed.

(** A call that throws computed a size above the capacity. *)
Lemma get_throw_size now s w s' :
  get now s = (PackException w, s') ->
  exists sz, computedSize s = Some sz /\ MAX_OUTBUF_SIZE < sz.
Proof.
  intros H. unfold computedSize. unfold get in H.
  destruct (inBufferComplete_ s); [discriminate|].
  cbv zeta in H. cbv zeta.
  destruct (naluComplete_ s).
  - destruct (getNextNalu s) as [[ret s1]|]; [|discriminate].
    destruct (ret <=? 0); [discriminate|].
    proj_simpl_in H.
    destruct (len (nalu_ s1) <=? maxPacketLength (params_ s)).
    + destruct (Z.ltb_spec MAX_OUTBUF_SIZE (len (nalu_ s1) + 12)).
      * eexists. split; [reflexivity | assumption].
      * match type of H with
        | match ?c with _ => _ end = _ => destruct c
        end; discriminate.
    + destruct (maxPacketLength (params_ s) =? 0); [discriminate|].
      destruct (Z.ltb_spec MAX_OUTBUF_SIZE
                  (maxPacketLength (params_ s) + 14)).
      * eexists. split; [reflexivity | assumption].
      * match type of H with
        | match ?c with _ => _ end = _ => destruct c
        end; discriminate.
  - proj_simpl_in H.
    destruct (fuIndex_ s =? fuCounter_ s).
    + destruct (Z.ltb_spec MAX_OUTBUF_SIZE (lastFuSize_ s - 1 + 14)).
      * eexists. split; [reflexivity | assumption].
      * match type of H with
        | match ?c with _ => _ end = _ => destruct c
        end; discriminate.
    + destruct (Z.ltb_spec MAX_OUTBUF_SIZE
                  (maxPacketLength (params_ s) + 14)).
      * eexists. split; [reflexivity | assumption].
      * match type of H with
        | match ?c with _ => _ end = _ => destruct c
        end; discriminate.
Qed.

(** In a reachable state the computed size is at most
    [maxPacketLength + 14]. *)
Lemma computedSize_bound params s sz :
  Inv params s -> computedSize s = Some sz ->
  sz <= maxPacketLength params + 14.
Proof.
  intros [Hp _ Hf]. unfold computedSize. cbv zeta. rewrite Hp.
  destruct (inBufferComplete_ s); [discriminate|].
  destruct (naluComplete_ s).
  - destruct (getNextNalu s) as [[ret s1]|]; [|discriminate].
    destruct (ret <=? 0); [discriminate|].
    destruct (Z.leb_spec (len (nalu_ s1)) (maxPacketLength params)).
    + intros [= <-]. lia.
    + destruct (maxPacketLength params =? 0); [discriminate|].
      intros [= <-]. lia.
  - destruct (Hf eq_refl) as (_ & mem & d & Hfs).
    destruct (fu_arith _ _ (fs_max _ _ _ Hfs)) as (_ & Hl & _).
    rewrite <- (fs_last _ _ _ Hfs), Hp in Hl.
    destruct (fuIndex_ s =? fuCounter_ s); intros [= <-]; lia.
Qed.

(** With a maximum payload length that leaves room for the headers, [get]
    never throws. *)
Lemma conforming_never_throws params s now w s' :
  Inv params s ->
  maxPacketLength params + 14 <= MAX_OUTBUF_SIZE ->
  get now s <> (PackException w, s').
Proof.
  intros Hinv Hfit Hget.
  destruct (get_throw_size now s w s' Hget) as (sz & Hcs & Hgt).
  pose proof (computedSize_bound params s sz Hinv Hcs). lia.
Qed.

Lemma run_normal params calls : forall s,
  Inv params s ->
  maxPacketLength params + 14 <= MAX_OUTBUF_SIZE ->
  ~ In Undefined (fst (run calls s)) ->
  Forall normal (fst (run calls s)).
Proof.
  induction calls as [|c rest IH]; intros s Hinv Hfit Hub.
  - constructor.
  - destruct c as [input | now].
    + rewrite run_put in *. apply IH; [apply Inv_put|..]; assumption.
    + destruct (get now s) as [o s1] eqn:Hget.
      rewrite (run_get now rest s o s1 Hget) in *. cbn [fst] in *.
      assert (Ho : o <> Undefined).
      { intros ->. apply Hub. left. reflexivity. }
      constructor.
      * destruct o as [b | | w | ]; cbn [normal]; try exact I.
        -- exact (conforming_never_throws params s now w s1 Hinv Hfit Hget).
        -- exact (Ho eq_refl).
      * apply IH; [exact (Inv_get params now s o s1 Hinv Hget Ho)
                  | exact Hfit |].
        intros Hin. apply Hub. right. exact Hin.
Qed.

(** C4.  Over any sequence of [put] and [get] calls on a packetizer, the
    packets returned carry consecutive sequence numbers modulo 65536, across
    the [put] calls, and [put] leaves the sequence number as it is.  The
    maximum payload length leaves room for the headers
    ([maxPacketLength + 14 <= MAX_OUTBUF_SIZE]), so that no call throws, and
    no call of the sequence runs into undefined behaviour. *)
Theorem sequence_numbers params s calls :
  reachable params s ->
  maxPacketLength params + 14 <= MAX_OUTBUF_SIZE ->
  ~ In Undefined (fst (run calls s)) ->
  (forall i, (i < length (packetsOf (fst (run calls s))))%nat ->
     pktSeq (nth i (packetsOf (fst (run calls s))) [])
     = (seqNum_ s + Z.of_nat i) mod 65536) /\
  seqNum_ (snd (run calls s))
  = (seqNum_ s + Z.of_nat (length (packetsOf (fst (run calls s)))))
    mod 65536 /\
  (forall input s0, seqNum_ (put input s0) = seqNum_ s0).
Proof.
  intros Hr Hfit Hub.
  pose proof (reachable_Inv params s Hr) as Hinv.
  pose proof (run_normal params calls s Hinv Hfit Hub) as Hn.
  destruct (run_sequence calls s (inv_seq _ _ Hinv) Hn) as (H1 & H2).
  split; [exact H1|]. split; [exact H2|].
  intros input s0. apply put_seqNum.
Qed.

Example exampleCalls_sequence :
  map pktSeq (packetsOf (fst (run exampleCalls (Impl_new smallParams 0))))
  = [0; 1; 2].
Proof. vm_compute. reflexivity. Qed.

Lemma sequence_numbers_witness :
  (forall i,
     (i < length (packetsOf
                    (fst (run exampleCalls (Impl_new smallParams 0)))))%nat ->
     pktSeq (nth i (packetsOf
                      (fst (run exampleCalls (Impl_new smallParams 0)))) [])
     = (seqNum_ (Impl_new smallParams 0) + Z.of_nat i) mod 65536) /\
  seqNum_ (snd (run exampleCalls (Impl_new smallParams 0)))
  = (seqNum_ (Impl_new smallParams 0)
     + Z.of_nat (length (packetsOf
                           (fst (run exampleCalls
                                   (Impl_new smallParams 0))))))
    mod 65536 /\
  (forall input s0, seqNum_ (put input s0) = seqNum_ s0).
Proof.
  apply (sequence_numbers smallParams (Impl_new smallParams 0) exampleCalls).
  - apply reach_new.
  - vm_compute. discriminate.
  - vm_compute. intros H.
    repeat (destruct H as [H | H]; [discriminate H|]). exact H.
Defined.

(** ** More on the scanner *)

(** The positions the loop stepped over were inside the declared buffer and
    held no start code; a start code is found inside the declared buffer. *)
Lemma scanNext_steps mem inBufferSize p r :
  scanNext mem inBufferSize p = Some r ->
  (forall q, p < q < fst r ->
     q < inBufferSize /\ isStartCode mem q = Some false) /\
  (snd r = Some (fst r) -> fst r < inBufferSize).
Proof.
  funelim (scanNext mem inBufferSize p); intros Hr.
  - injection Hr as <-. cbn [fst snd]. split; [intros q Hq; lia|].
    discriminate.
  - injection Hr as <-. cbn [fst snd]. split; [intros q Hq; lia|].
    intros _. assumption.
  - match goal with
    | IH : forall r, scanNext _ _ _ = Some r -> _ |- _ =>
        destruct (IH _ Hr) as (Hq & Hfound)
    end.
    split; [|exact Hfound].
    intros q Hq'. destruct (Z.eq_dec q (nextPtr + 1)) as [-> | Hne].
    + split; assumption.
    + apply Hq. lia.
  - discriminate.
Qed.

(** X1.  A NAL unit found by the scanner follows a start code of 3 or 4
    bytes, is not empty, lies inside the storage, holds no start code after
    its first byte, and ends on the next start code inside the declared
    buffer (where the cursor is left) or where the declared buffer ends
    (and the cursor is null). *)
Theorem scanned_unit s s1 mem cur :
  getNextNalu s = Some (1, s1) ->
  inBuffer_ s = Some mem -> nextNaluPtr_ s = Some cur ->
  exists d,
    ndata (nalu_ s1) = Some d /\
    d = cur + startCodeLen (nalu_ s1) /\
    ((startCodeLen (nalu_ s1) = 3 /\ isStartCode3 mem cur = Some true) \/
     (startCodeLen (nalu_ s1) = 4 /\ isStartCode4 mem cur = Some true)) /\
    1 <= len (nalu_ s1) /\
    0 <= cur /\ d + len (nalu_ s1) <= Z.of_nat (length mem) /\
    (forall q, d < q < d + len (nalu_ s1) ->
       q < inBufferSize_ s /\ isStartCode mem q = Some false) /\
    ((nextNaluPtr_ s1 = None /\ inBufferSize_ s <= d + len (nalu_ s1)) \/
     (nextNaluPtr_ s1 = Some (d + len (nalu_ s1)) /\
      d + len (nalu_ s1) < inBufferSize_ s /\
      isStartCode mem (d + len (nalu_ s1)) = Some true)).
Proof.
  intros Hgn Hmem Hcur. unfold getNextNalu in Hgn. rewrite Hcur, Hmem in Hgn.
  destruct (startCodeLenAt mem cur) as [scl|] eqn:Escl; [|discriminate].
  destruct (Z.ltb_spec scl 0) as [Hneg|Hpos].
  { injection Hgn as Hgn _. discriminate Hgn. }
  destruct (scanNext mem (inBufferSize_ s) (cur + scl)) as [r|] eqn:Er;
    [|discriminate].
  destruct (rd mem (cur + scl)) as [h|] eqn:Eh; [|discriminate].
  injection Hgn as <-.
  destruct (startCodeLenAt_cases _ _ _ Escl) as (Hc & Hcases).
  destruct (scanNext_spec _ _ _ _ Er) as (Hlt & Hrd & Hend).
  destruct (scanNext_steps _ _ _ _ Er) as (Hstep & Hfound).
  pose proof (rd_Some _ _ _ Eh) as Hd.
  exists (cur + scl). proj_simpl.
  replace (cur + scl + (fst r - cur - scl)) with (fst r) by lia.
  split; [reflexivity|]. split; [reflexivity|].
  split.
  { destruct Hcases as [(-> & H3) | [(-> & _ & H4) | (-> & _)]];
      [left | right | lia]; auto. }
  split; [lia|]. split; [lia|].
  split.
  { destruct (Z.eq_dec (fst r) (cur + scl + 1)) as [E|E]; [lia|].
    specialize (Hrd (fst r - 1)). lia. }
  split; [exact Hstep|].
  destruct Hend as [(Hn & Hsz) | (Hs & Hsc)].
  - left. split; assumption.
  - right. split; [exact Hs|]. split; [exact (Hfound Hs) | exact Hsc].
Qed.

Lemma scanned_unit_witness :
  exists d,
    ndata (nalu_ exampleB1) = Some d /\
    d = 0 + startCodeLen (nalu_ exampleB1) /\
    ((startCodeLen (nalu_ exampleB1) = 3 /\
      isStartCode3 [0;0;1; 101;1;2;3;4;5] 0 = Some true) \/
     (startCodeLen (nalu_ exampleB1) = 4 /\
      isStartCode4 [0;0;1; 101;1;2;3;4;5] 0 = Some true)) /\
    1 <= len (nalu_ exampleB1) /\
    0 <= 0 /\
    d + len (nalu_ exampleB1)
    <= Z.of_nat (length [0;0;1; 101;1;2;3;4;5]) /\
    (forall q, d < q < d + len (nalu_ exampleB1) ->
       q < inBufferSize_ exampleB /\
       isStartCode [0;0;1; 101;1;2;3;4;5] q = Some false) /\
    ((nextNaluPtr_ exampleB1 = None /\
      inBufferSize_ exampleB <= d + len (nalu_ exampleB1)) \/
     (nextNaluPtr_ exampleB1 = Some (d + len (nalu_ exampleB1)) /\
      d + len (nalu_ exampleB1) < inBufferSize_ exampleB /\
      isStartCode [0;0;1; 101;1;2;3;4;5] (d + len (nalu_ exampleB1))
      = Some true)).
Proof.
  apply (scanned_unit exampleB exampleB1 [0;0;1; 101;1;2;3;4;5] 0).
  - vm_compute. reflexivity.
  - reflexivity.
  - reflexivity.
Defined.

(** X2.  After the scanner has found a NAL unit, the next scan of the same
    buffer never reports a missing start code: it finds the next NAL unit
    or the end of the buffer.  A missing start code can only be met by the
    first scan after [put]. *)
Theorem malformed_only_at_start s s1 ret s2 :
  getNextNalu s = Some (1, s1) ->
  getNextNalu s1 = Some (ret, s2) ->
  ret = 0 \/ ret = 1.
Proof.
  intros Hgn Hgn2.
  destruct (getNextNalu_ok _ _ _ Hgn ltac:(lia))
    as (mem & cur & scl & np & nx & h & _ & Emem & _ & Es1 & _ & _ & _ & _
        & Hnx).
  assert (Hf : inBuffer_ s1 = Some mem /\ nextNaluPtr_ s1 = nx)
    by (subst s1; proj_simpl; auto).
  destruct Hf as (Hmem1 & Hnx1). clear Es1.
  unfold getNextNalu in Hgn2. rewrite Hnx1 in Hgn2.
  destruct Hnx as [-> | (-> & Hsc)].
  - injection Hgn2 as <- _. left. reflexivity.
  - rewrite Hmem1 in Hgn2. unfold startCodeLenAt in Hgn2.
    unfold isStartCode in Hsc.
    destruct (isStartCode3 mem np) as [[|]|]; try discriminate.
    + cbn [Z.ltb] in Hgn2. change (3 <? 0) with false in Hgn2.
      destruct (scanNext mem (inBufferSize_ s1) (np + 3)); [|discriminate].
      destruct (rd mem (np + 3)); [|discriminate].
      injection Hgn2 as <- _. right. reflexivity.
    + rewrite Hsc in Hgn2. change (4 <? 0) with false in Hgn2.
      destruct (scanNext mem (inBufferSize_ s1) (np + 4)); [|discriminate].
      destruct (rd mem (np + 4)); [|discriminate].
      injection Hgn2 as <- _. right. reflexivity.
Qed.

Lemma malformed_only_at_start_witness : 1 = 0 \/ 1 = 1.
Proof.
  apply (malformed_only_at_start exampleTwo exampleTwo1 1 exampleTwo2).
  - vm_compute. reflexivity.
  - vm_compute. reflexivity.
Defined.

Lemma scanNext_end mem inBufferSize p :
  inBufferSize <= p + 1 ->
  scanNext mem inBufferSize p = Some (p + 1, None).
Proof.
  intros H. funelim (scanNext mem inBufferSize p); try lia. reflexivity.
Qed.

(** X3.  When the declared buffer ends with the start code (no byte of the
    declared buffer follows it) and the storage holds a byte there, the
    scanner returns a NAL unit of one byte that lies outside the declared
    buffer; the cursor becomes null. *)
Theorem start_code_at_end s mem cur scl h :
  inBuffer_ s = Some mem -> nextNaluPtr_ s = Some cur ->
  startCodeLenAt mem cur = Some scl -> 0 <= scl ->
  inBufferSize_ s <= cur + scl ->
  rd mem (cur + scl) = Some h ->
  exists s1,
    getNextNalu s = Some (1, s1) /\
    len (nalu_ s1) = 1 /\
    ndata (nalu_ s1) = Some (cur + scl) /\
    nextNaluPtr_ s1 = None.
Proof.
  intros Hmem Hcur Hscl Hpos Hsz Hrd. unfold getNextNalu.
  rewrite Hcur, Hmem, Hscl.
  replace (scl <? 0) with false by (symmetry; apply Z.ltb_ge; lia).
  rewrite scanNext_end by lia. rewrite Hrd. cbn [fst snd].
  eexists. split; [reflexivity|]. proj_simpl.
  split; [lia|]. split; reflexivity.
Qed.

Lemma start_code_at_end_witness :
  exists s1,
    getNextNalu exampleEndsInStartCode = Some (1, s1) /\
    len (nalu_ s1) = 1 /\
    ndata (nalu_ s1) = Some (4 + 3) /\
    nextNaluPtr_ s1 = None.
Proof.
  apply (start_code_at_end exampleEndsInStartCode
           [0;0;1; 101; 0;0;1; 77] 4 3 77).
  - reflexivity.
  - reflexivity.
  - reflexivity.
  - lia.
  - vm_compute. discriminate.
  - reflexivity.
Defined.

(** X4.  With a configured maximum that leaves room for the headers, no
    call of [get] on a packetizer throws, whatever buffers it was given. *)
Theorem reachable_never_throws params s now w :
  reachable params s ->
  maxPacketLength params + 14 <= MAX_OUTBUF_SIZE ->
  fst (get now s) <> PackException w.
Proof.
  intros Hr Hfit Hthrow.
  apply (conforming_never_throws params s now w (snd (get now s))
           (reachable_Inv params s Hr) Hfit).
  rewrite <- Hthrow. apply surjective_pairing.
Qed.

Lemma reachable_never_throws_witness :
  fst (get 10 exampleB) <> PackException "RTP output buffer overflow".
Proof.
  apply (reachable_never_throws smallParams exampleB 10
           "RTP output buffer overflow").
  - exact exampleB_reachable.
  - vm_compute. discriminate.
Defined.

(** X5.  Between two fragments of a NAL unit, [get] always returns a packet:
    it neither returns nothing, nor throws, nor reads out of bounds, and the
    buffer is not drained. *)
Theorem fragment_always_delivered params s now :
  reachable params s ->
  naluComplete_ s = false ->
  inBufferComplete_ s = false /\
  exists b,
    fst (get now s) = Packet b /\
    seqNum_ (snd (get now s)) = (seqNum_ s + 1) mod 65536 /\
    nextNaluPtr_ (snd (get now s)) = nextNaluPtr_ s /\
    tsCurrentSample_ (snd (get now s)) = tsCurrentSample_ s.
Proof.
  intros Hr Hnc.
  destruct (reachable_Inv params s Hr) as [_ _ Hf].
  destruct (Hf Hnc) as (_ & mem & d & Hfs).
  split; [exact (fs_bc _ _ _ Hfs)|].
  pose proof (fs_idx _ _ _ Hfs) as Hidx.
  destruct (Z.eq_dec (fuIndex_ s) (fuCounter_ s)) as [E|E].
  - destruct (get_last now s mem d Hfs E) as (out & Hget & _).
    rewrite Hget. eexists. split; [reflexivity|]. cbn [snd]. proj_simpl.
    split; [reflexivity|]. split; reflexivity.
  - destruct (get_middle now s mem d Hfs ltac:(lia)) as (out & Hget & _).
    rewrite Hget. eexists. split; [reflexivity|]. cbn [snd]. proj_simpl.
    split; [reflexivity|]. split; reflexivity.
Qed.

Lemma exampleB_first : reachable smallParams (snd (get 10 exampleB)).
Proof.
  apply (reach_get smallParams exampleB 10 (fst (get 10 exampleB))).
  - exact exampleB_reachable.
  - apply surjective_pairing.
  - vm_compute. discriminate.
Qed.

Lemma fragment_always_delivered_witness :
  inBufferComplete_ (snd (get 10 exampleB)) = false /\
  exists b,
    fst (get 20 (snd (get 10 exampleB))) = Packet b /\
    seqNum_ (snd (get 20 (snd (get 10 exampleB))))
    = (seqNum_ (snd (get 10 exampleB)) + 1) mod 65536 /\
    nextNaluPtr_ (snd (get 20 (snd (get 10 exampleB))))
    = nextNaluPtr_ (snd (get 10 exampleB)) /\
    tsCurrentSample_ (snd (get 20 (snd (get 10 exampleB))))
    = tsCurrentSample_ (snd (get 10 exampleB)).
Proof.
  apply (fragment_always_delivered smallParams (snd (get 10 exampleB)) 20).
  - exact exampleB_first.
  - vm_compute. reflexivity.
Defined.

(** X6.  A call of [get] that throws has consumed a sequence number, and,
    when it was selecting a NAL unit, has consumed that unit: the cursor is
    past it and the next call goes on with the unit that follows.  The
    message is always the same. *)
Theorem throw_skips_unit now s w :
  fst (get now s) = PackException w ->
  w = "RTP output buffer overflow"%string /\
  seqNum_ (snd (get now s)) = (seqNum_ s + 1) mod 65536 /\
  inBufferComplete_ (snd (get now s)) = false /\
  naluComplete_ (snd (get now s)) = naluComplete_ s /\
  (naluComplete_ s = true ->
   exists s1,
     getNextNalu s = Some (1, s1) /\
     nextNaluPtr_ (snd (get now s)) = nextNaluPtr_ s1).
Proof.
  intros H0.
  destruct (get now s) as [o s'] eqn:H. cbn [fst snd] in *. subst o.
  unfold get in H.
  destruct (inBufferComplete_ s) eqn:Hbc; [discriminate|].
  cbv zeta in H.
  destruct (naluComplete_ s) eqn:Hnc.
  - destruct (getNextNalu s) as [[ret s1]|] eqn:Hgn; [|discriminate].
    destruct (Z.leb_spec ret 0) as [Hret|Hret]; [discriminate|].
    destruct (getNextNalu_ok _ _ _ Hgn Hret)
      as (mem & cur & scl & np & nx & h & Eret & _ & _ & Es1 & _).
    assert (Hfr : seqNum_ s1 = seqNum_ s /\ inBufferComplete_ s1 = false
                  /\ naluComplete_ s1 = true)
      by (subst s1; proj_simpl; auto).
    destruct Hfr as (Eseq & Ebc & Enc). clear Es1. subst ret.
    proj_simpl_in H.
    destruct (len (nalu_ s1) <=? maxPacketLength (params_ s)).
    + destruct (MAX_OUTBUF_SIZE <? len (nalu_ s1) + 12).
      * injection H as <- <-. proj_simpl. rewrite Eseq.
        split; [reflexivity|]. split; [reflexivity|].
        split; [exact Ebc|]. split; [exact Enc|].
        intros _. exists s1. split; reflexivity.
      * match type of H with
        | match ?c with _ => _ end = _ => destruct c
        end; discriminate.
    + destruct (maxPacketLength (params_ s) =? 0); [discriminate|].
      destruct (MAX_OUTBUF_SIZE <? maxPacketLength (params_ s) + 14).
      * injection H as <- <-.
        destruct (Z.rem (len (nalu_ s1)) (maxPacketLength (params_ s)) =? 0);
          proj_simpl; rewrite Eseq;
          (split; [reflexivity|]); (split; [reflexivity|]);
          (split; [exact Ebc|]); (split; [exact Enc|]);
          intros _; exists s1; split; reflexivity.
      * match type of H with
        | match ?c with _ => _ end = _ => destruct c
        end; discriminate.
  - proj_simpl_in H.
    destruct (fuIndex_ s =? fuCounter_ s).
    + destruct (MAX_OUTBUF_SIZE <? lastFuSize_ s - 1 + 14).
      * injection H as <- <-. proj_simpl.
        split; [reflexivity|]. split; [reflexivity|].
        split; [exact Hbc|]. split; [exact Hnc|]. discriminate.
      * match type of H with
        | match ?c with _ => _ end = _ => destruct c
        end; discriminate.
    + destruct (MAX_OUTBUF_SIZE <? maxPacketLength (params_ s) + 14).
      * injection H as <- <-. proj_simpl.
        split; [reflexivity|]. split; [reflexivity|].
        split; [exact Hbc|]. split; [exact Hnc|]. discriminate.
      * match type of H with
        | match ?c with _ => _ end = _ => destruct c
        end; discriminate.
Qed.

Lemma throw_skips_unit_witness :
  "RTP output buffer overflow"%string = "RTP output buffer overflow"%string /\
  seqNum_ (snd (get 5 exampleBig)) = (seqNum_ exampleBig + 1) mod 65536 /\
  inBufferComplete_ (snd (get 5 exampleBig)) = false /\
  naluComplete_ (snd (get 5 exampleBig)) = naluComplete_ exampleBig /\
  (naluComplete_ exampleBig = true ->
   exists s1,
     getNextNalu exampleBig = Some (1, s1) /\
     nextNaluPtr_ (snd (get 5 exampleBig)) = nextNaluPtr_ s1).
Proof.
  apply (throw_skips_unit 5 exampleBig "RTP output buffer overflow").
  vm_compute. reflexivity.
Defined.

(** The RTP header of a returned packet carries the sample time the call
    leaves in the state; a call that selects a NAL unit reads the clock,
    a call that continues one does not. *)
Lemma get_packet_header now s b s' :
  get now s = (Packet b, s') ->
  exists m rest,
    (m = 0 \/ m = 1) /\
    bytesOf b
    = rtpHeader m (seqNum_ s) (tsCurrentSample_ s') (ssrc (params_ s))
      ++ rest /\
    rest <> [] /\
    tsCurrentSample_ s'
    = (if naluComplete_ s then sampleTime now (tsStartMillisec_ s)
       else tsCurrentSample_ s).
Proof.
  intros H. unfold get in H.
  destruct (inBufferComplete_ s) eqn:Hbc; [discriminate|].
  cbv zeta in H. run_stores_in H.
  destruct (naluComplete_ s) eqn:Hnc.
  - destruct (getNextNalu s) as [[ret s1]|] eqn:Hgn; [|discriminate].
    destruct (ret <=? 0) eqn:Hret; [discriminate|].
    destruct (getNextNalu_frame _ _ _ Hgn) as (n1 & nx1 & Es1).
    assert (Hfr : seqNum_ s1 = seqNum_ s /\ params_ s1 = params_ s /\
                  tsStartMillisec_ s1 = tsStartMillisec_ s)
      by (subst s1; repeat split; reflexivity).
    destruct Hfr as (Eseq & Epar & Ets). clear Es1.
    proj_simpl_in H.
    destruct (len (nalu_ s1) <=? maxPacketLength (params_ s)) eqn:Hle.
    + destruct (MAX_OUTBUF_SIZE <? len (nalu_ s1) + 12) eqn:Hov;
        [discriminate|].
      match type of H with
      | match ?c with _ => _ end = _ => destruct c as [out|] eqn:Hcp
      end; [|discriminate].
      injection H as <- <-.
      apply copyNalu_at13_inv in Hcp.
      destruct Hcp as (payload & Hfn & Hpl & Hlo).
      rewrite <- Hpl in Hfn.
      destruct (bytesOf_packet out (len (nalu_ s1) + 12) 13 _ payload Hfn
                  eq_refl ltac:(lia)) as (Hb & Hbl).
      rewrite Eseq in Hb.
      eexists 1, _. split; [right; reflexivity|]. proj_simpl.
      split; [exact Hb|]. split; [discriminate|].
      rewrite Ets. reflexivity.
    + destruct (maxPacketLength (params_ s) =? 0) eqn:Hz; [discriminate|].
      destruct (MAX_OUTBUF_SIZE <? maxPacketLength (params_ s) + 14) eqn:Hov;
        [discriminate|].
      destruct (Z.rem (len (nalu_ s1)) (maxPacketLength (params_ s)) =? 0);
        proj_simpl_in H;
        (match type of H with
         | match ?c with _ => _ end = _ => destruct c as [out|] eqn:Hcp
         end; [|discriminate]);
        injection H as <- <-;
        apply copyNalu_at14_inv in Hcp;
        destruct Hcp as (payload & Hfn & Hpl & Hlo);
        rewrite <- Hpl in Hfn;
        destruct (bytesOf_packet out (maxPacketLength (params_ s) + 14) 14 _
                    payload Hfn eq_refl ltac:(lia)) as (Hb & Hbl);
        rewrite Eseq in Hb;
        (eexists 0, _; split; [left; reflexivity|]); proj_simpl;
        (split; [exact Hb|]); (split; [discriminate|]);
        rewrite Ets; reflexivity.
  - proj_simpl_in H.
    destruct (fuIndex_ s =? fuCounter_ s) eqn:Hidx.
    + destruct (MAX_OUTBUF_SIZE <? lastFuSize_ s - 1 + 14) eqn:Hov;
        [discriminate|].
      match type of H with
      | match ?c with _ => _ end = _ => destruct c as [out|] eqn:Hcp
      end; [|discriminate].
      injection H as <- <-.
      apply copyNalu_at14_inv in Hcp.
      destruct Hcp as (payload & Hfn & Hpl & Hlo).
      rewrite <- Hpl in Hfn.
      destruct (bytesOf_packet out (lastFuSize_ s - 1 + 14) 14 _
                  payload Hfn eq_refl ltac:(lia)) as (Hb & Hbl).
      eexists 1, _. split; [right; reflexivity|]. proj_simpl.
      split; [exact Hb|]. split; [discriminate|]. reflexivity.
    + destruct (MAX_OUTBUF_SIZE <? maxPacketLength (params_ s) + 14) eqn:Hov;
        [discriminate|].
      match type of H with
      | match ?c with _ => _ end = _ => destruct c as [out|] eqn:Hcp
      end; [|discriminate].
      injection H as <- <-.
      apply copyNalu_at14_inv in Hcp.
      destruct Hcp as (payload & Hfn & Hpl & Hlo).
      rewrite <- Hpl in Hfn.
      destruct (bytesOf_packet out (maxPacketLength (params_ s) + 14) 14 _
                  payload Hfn eq_refl ltac:(lia)) as (Hb & Hbl).
      eexists 0, _. split; [left; reflexivity|]. proj_simpl.
      split; [exact Hb|]. split; [discriminate|]. reflexivity.
Qed.

(** Whatever a call of [get] does, the sample time it leaves is the one it
    found or one it computed. *)
Lemma get_ts now s o s' :
  get now s = (o, s') ->
  tsCurrentSample_ s' = tsCurrentSample_ s \/
  tsCurrentSample_ s' = sampleTime now (tsStartMillisec_ s).
Proof.
  intros H. unfold get in H.
  destruct (inBufferComplete_ s) eqn:Hbc.
  { injection H as _ <-. left; reflexivity. }
  cbv zeta in H.
  destruct (naluComplete_ s) eqn:Hnc.
  - destruct (getNextNalu s) as [[ret s1]|] eqn:Hgn;
      [|injection H as _ <-; left; reflexivity].
    destruct (getNextNalu_frame _ _ _ Hgn) as (n1 & nx1 & Es1).
    assert (Hfr : tsCurrentSample_ s1 = tsCurrentSample_ s /\
                  tsStartMillisec_ s1 = tsStartMillisec_ s)
      by (subst s1; split; reflexivity).
    destruct Hfr as (Ecur & Ets). clear Es1.
    destruct (ret <=? 0) eqn:Hret.
    { injection H as _ <-. proj_simpl. left; exact Ecur. }
    proj_simpl_in H.
    destruct (len (nalu_ s1) <=? maxPacketLength (params_ s)).
    + destruct (MAX_OUTBUF_SIZE <? len (nalu_ s1) + 12).
      * injection H as _ <-. proj_simpl. right. rewrite Ets. reflexivity.
      * match type of H with
        | match ?c with _ => _ end = _ => destruct c
        end; injection H as _ <-; proj_simpl; right; rewrite Ets;
          reflexivity.
    + destruct (maxPacketLength (params_ s) =? 0).
      { injection H as _ <-. proj_simpl. right. rewrite Ets. reflexivity. }
      destruct (Z.rem (len (nalu_ s1)) (maxPacketLength (params_ s)) =? 0);
        (destruct (MAX_OUTBUF_SIZE <? maxPacketLength (params_ s) + 14);
         [ injection H as _ <-; proj_simpl; right; rewrite Ets; reflexivity
         | proj_simpl_in H;
           match type of H with
           | match ?c with _ => _ end = _ => destruct c
           end; injection H as _ <-; proj_simpl; right; rewrite Ets;
             reflexivity ]).
  - proj_simpl_in H.
    destruct (fuIndex_ s =? fuCounter_ s).
    + destruct (MAX_OUTBUF_SIZE <? lastFuSize_ s - 1 + 14).
      * injection H as _ <-. proj_simpl. left; reflexivity.
      * match type of H with
        | match ?c with _ => _ end = _ => destruct c
        end; injection H as _ <-; proj_simpl; left; reflexivity.
    + destruct (MAX_OUTBUF_SIZE <? maxPacketLength (params_ s) + 14).
      * injection H as _ <-. proj_simpl. left; reflexivity.
      * match type of H with
        | match ?c with _ => _ end = _ => destruct c
        end; injection H as _ <-; proj_simpl; left; reflexivity.
Qed.

Lemma put_ts input s :
  tsCurrentSample_ (put input s) = tsCurrentSample_ s /\
  tsStartMillisec_ (put input s) = tsStartMillisec_ s.
Proof. split; reflexivity. Qed.

(** The sample time of a packetizer is a 32-bit value. *)
Lemma reachable_ts params s :
  reachable params s -> 0 <= tsCurrentSample_ s < 2 ^ 32.
Proof.
  induction 1 as [now | s input _ IH | s now o s' _ IH Hget _].
  - cbn [tsCurrentSample_ Impl_new]. lia.
  - exact IH.
  - destruct (get_ts now s o s' Hget) as [E|E]; rewrite E;
      [exact IH | apply sampleTime_range].
Qed.

Lemma version_field m seq ts ssrc rest :
  pktVersion (rtpHeader m seq ts ssrc ++ rest) = 2 /\
  pktByte (rtpHeader m seq ts ssrc ++ rest) 0 = 128.
Proof. split; reflexivity. Qed.

Lemma payload_type_field m seq ts ssrc rest :
  pktPayloadType (rtpHeader m seq ts ssrc ++ rest) = 96.
Proof.
  unfold pktPayloadType, pktByte, rtpHeader. cbn [nth app].
  rewrite rtp_byte1.
  assert (H : m mod 2 = 0 \/ m mod 2 = 1)
    by (pose proof (Z.mod_pos_bound m 2); lia).
  destruct H as [-> | ->]; reflexivity.
Qed.

Lemma ssrc_field m seq ts ssrc rest :
  0 <= ssrc < 2 ^ 32 ->
  pktSsrc (rtpHeader m seq ts ssrc ++ rest) = ssrc.
Proof.
  intros H. unfold pktSsrc, pktByte, rtpHeader. cbn [nth app].
  apply be32_roundtrip. exact H.
Qed.

(** X7.  The fixed header of every packet a packetizer returns: version 2
    with no padding, no extension and no CSRC (first byte 128), payload
    type 96, the sequence number of the state, the 32-bit sample time the
    call leaves in the state and the configured SSRC, each in network byte
    order; at least one byte follows the 12 header bytes.  The clock is
    read only by a call that selects a NAL unit. *)
Theorem packet_header_fields params s now b s' :
  reachable params s ->
  0 <= ssrc params < 2 ^ 32 ->
  get now s = (Packet b, s') ->
  pktByte (bytesOf b) 0 = 128 /\
  pktVersion (bytesOf b) = 2 /\
  pktPayloadType (bytesOf b) = 96 /\
  pktSeq (bytesOf b) = seqNum_ s /\
  pktTimestamp (bytesOf b) = tsCurrentSample_ s' /\
  pktSsrc (bytesOf b) = ssrc params /\
  (13 <= length (bytesOf b))%nat /\
  tsCurrentSample_ s'
  = (if naluComplete_ s then sampleTime now (tsStartMillisec_ s)
     else tsCurrentSample_ s).
Proof.
  intros Hr Hssrc Hget.
  destruct (get_packet_header now s b s' Hget)
    as (m & rest & _ & Hb & Hrest & Hts).
  pose proof (reachable_Inv params s Hr) as [Hp Hseq _].
  assert (Hr' : reachable params s').
  { apply (reach_get params s now (Packet b) s' Hr Hget). discriminate. }
  pose proof (reachable_ts params s' Hr') as Hrange.
  rewrite Hp in Hb. rewrite Hb.
  split; [apply version_field|]. split; [apply version_field|].
  split; [apply payload_type_field|].
  split; [apply seq_field; exact Hseq|].
  split; [apply timestamp_field; exact Hrange|].
  split; [apply ssrc_field; exact Hssrc|].
  split; [|exact Hts].
  rewrite length_app. destruct rest; [contradiction|].
  cbn [length rtpHeader]. lia.
Qed.

Lemma packet_header_fields_witness :
  pktByte (bytesOf (returned (fst (get 10 exampleB)))) 0 = 128 /\
  pktVersion (bytesOf (returned (fst (get 10 exampleB)))) = 2 /\
  pktPayloadType (bytesOf (returned (fst (get 10 exampleB)))) = 96 /\
  pktSeq (bytesOf (returned (fst (get 10 exampleB)))) = seqNum_ exampleB /\
  pktTimestamp (bytesOf (returned (fst (get 10 exampleB))))
  = tsCurrentSample_ (snd (get 10 exampleB)) /\
  pktSsrc (bytesOf (returned (fst (get 10 exampleB)))) = ssrc smallParams /\
  (13 <= length (bytesOf (returned (fst (get 10 exampleB)))))%nat /\
  tsCurrentSample_ (snd (get 10 exampleB))
  = (if naluComplete_ exampleB
     then sampleTime 10 (tsStartMillisec_ exampleB)
     else tsCurrentSample_ exampleB).
Proof.
  apply (packet_header_fields smallParams exampleB 10
           (returned (fst (get 10 exampleB))) (snd (get 10 exampleB))).
  - exact exampleB_reachable.
  - vm_compute. split; [discriminate | reflexivity].
  - vm_compute. reflexivity.
Defined.

Lemma fu_bytes m seq ts ssrc b12 b13 payload :
  pktByte (rtpHeader m seq ts ssrc ++ [b12; b13] ++ payload) 12 = b12 /\
  pktByte (rtpHeader m seq ts ssrc ++ [b12; b13] ++ payload) 13 = b13.
Proof. split; reflexivity. Qed.

Lemma fu_rebuild n h b13 :
  0 <= h < 256 ->
  forbiddenBit n = Z.shiftr (Z.land h 128) 7 ->
  nalRefIdc n = Z.shiftr (Z.land h 96) 5 ->
  nalUnitType n = Z.land h 31 ->
  b13 = fuHeaderFirst n \/ b13 = fuHeaderNext 0 n \/ b13 = fuHeaderNext 1 n ->
  Z.land (fuIndicatorByte n) 31 = 28 /\
  Z.land b13 31 = Z.land h 31 /\
  Z.lor (Z.land (fuIndicatorByte n) 224) (Z.land b13 31) = h.
Proof.
  intros Hh Ef En Et Hb.
  assert (Hall : allBelow 256 fuRebuildCheck = true)
    by (vm_compute; reflexivity).
  pose proof (allBelow_spec 256 fuRebuildCheck Hall h Hh) as Hc.
  unfold fuRebuildCheck in Hc. cbv zeta in Hc.
  apply andb_prop in Hc. destruct Hc as (H1 & Hc).
  apply Z.eqb_eq in H1.
  rewrite forallb_forall in Hc.
  destruct n as [scl dat l f nri t].
  cbn [forbiddenBit nalRefIdc nalUnitType] in Ef, En, Et. subst f nri t.
  split; [exact H1|].
  assert (Hin : In b13
                  [fuHeaderFirst (mkNALU 0 None 0 (Z.shiftr (Z.land h 128) 7)
                     (Z.shiftr (Z.land h 96) 5) (Z.land h 31));
                   fuHeaderNext 0 (mkNALU 0 None 0 (Z.shiftr (Z.land h 128) 7)
                     (Z.shiftr (Z.land h 96) 5) (Z.land h 31));
                   fuHeaderNext 1 (mkNALU 0 None 0 (Z.shiftr (Z.land h 128) 7)
                     (Z.shiftr (Z.land h 96) 5) (Z.land h 31))]).
  { destruct Hb as [-> | [-> | ->]];
      [left | right; left | right; right; left]; reflexivity. }
  specialize (Hc b13 Hin). apply andb_prop in Hc. destruct Hc as (H2 & H3).
  apply Z.eqb_eq in H2, H3. split; [exact H2 | exact H3].
Qed.

(** X8.  Every fragment of a NAL unit has type 28 (FU-A) in its FU
    indicator and the type of the NAL unit in its FU header, and the header
    byte of the NAL unit, which is not sent, is rebuilt from any one of
    them: F and NRI from the FU indicator, the type from the FU header. *)
Theorem fragment_headers_rebuild now nows s s1 mem d h :
  Selects s s1 ->
  inBuffer_ s1 = Some mem -> ndata (nalu_ s1) = Some d ->
  rd mem d = Some h -> 0 <= h < 256 ->
  1 <= maxPacketLength (params_ s1) < len (nalu_ s1) ->
  maxPacketLength (params_ s1) + 14 <= MAX_OUTBUF_SIZE ->
  Z.of_nat (length nows)
  = fuCount (len (nalu_ s1)) (maxPacketLength (params_ s1)) ->
  exists pkts,
    emitsNalu (now :: nows) s pkts /\
    forall i, (i < length pkts)%nat ->
      Z.land (pktByte (nth i pkts []) 12) 31 = 28 /\
      fuType (nth i pkts []) = Z.land h 31 /\
      fuNalHeader (nth i pkts []) = h.
Proof.
  intros Hsel Hmem Hdata Hrd Hh Hmax Hfit Hn.
  destruct (fragmented_nalu now nows s s1 Hsel Hmax Hfit Hn)
    as (mem' & d' & _ & _ & _ & _ & Hem).
  destruct Hsel as (_ & _ & Hgn).
  destruct (getNextNalu_header s s1 mem d h Hgn Hmem Hdata Hrd)
    as (Ef & En & Et).
  eexists. split; [exact Hem|].
  intros i Hi.
  pose proof (fu_arith _ _ Hmax) as (_ & _ & Hcnt).
  assert (Hlen := fuPackets_length mem' (nalu_ s1) d'
                    (maxPacketLength (params_ s1))
                    (sampleTime now (tsStartMillisec_ s1))
                    (ssrc (params_ s1)) (seqNum_ s1) Hcnt).
  destruct (fuPackets_nth mem' (nalu_ s1) d' (maxPacketLength (params_ s1))
              (sampleTime now (tsStartMillisec_ s1)) (ssrc (params_ s1))
              (seqNum_ s1) i Hmax ltac:(lia)) as (sq & Hnth).
  cbv zeta in Hnth. rewrite Hnth. unfold fuNalHeader, fuType.
  rewrite (proj1 (fu_bytes _ _ _ _ _ _ _)), (proj2 (fu_bytes _ _ _ _ _ _ _)).
  apply (fu_rebuild (nalu_ s1) h _ Hh Ef En Et).
  destruct (Nat.eqb i 0); [left; reflexivity|].
  destruct (Nat.eqb i _); [right; right | right; left]; reflexivity.
Qed.

Lemma fragment_headers_rebuild_witness :
  exists pkts,
    emitsNalu [10; 20] exampleB pkts /\
    forall i, (i < length pkts)%nat ->
      Z.land (pktByte (nth i pkts []) 12) 31 = 28 /\
      fuType (nth i pkts []) = Z.land 101 31 /\
      fuNalHeader (nth i pkts []) = 101.
Proof.
  apply (fragment_headers_rebuild 10 [20] exampleB exampleB1
           [0;0;1; 101;1;2;3;4;5] 3 101).
  - exact exampleB_selects.
  - reflexivity.
  - reflexivity.
  - reflexivity.
  - lia.
  - vm_compute. split; [discriminate | reflexivity].
  - vm_compute. discriminate.
  - reflexivity.
Defined.

(** ** The caller's loop *)

(** The call that returns a whole NAL unit. *)
Lemma get_whole_inv now s b s' :
  get now s = (Packet b, s') ->
  naluComplete_ s = true -> naluComplete_ s' = true ->
  inBufferComplete_ s = false /\
  exists s1,
    getNextNalu s = Some (1, s1) /\
    len (nalu_ s1) <= maxPacketLength (params_ s1) /\
    len (nalu_ s1) + 12 <= MAX_OUTBUF_SIZE.
Proof.
  intros H Hnc Hnc'. unfold get in H.
  destruct (inBufferComplete_ s) eqn:Hbc; [discriminate|].
  split; [reflexivity|].
  cbv zeta in H. rewrite Hnc in H.
  destruct (getNextNalu s) as [[ret s1]|] eqn:Hgn; [|discriminate].
  destruct (Z.leb_spec ret 0) as [Hret|Hret]; [discriminate|].
  destruct (getNextNalu_ok _ _ _ Hgn Hret)
    as (mem & cur & scl & np & nx & h & Eret & _ & _ & Es1 & _).
  subst ret. exists s1. split; [reflexivity|].
  assert (Epar : params_ s1 = params_ s) by (subst s1; reflexivity).
  clear Es1. rewrite Epar. proj_simpl_in H.
  destruct (Z.leb_spec (len (nalu_ s1)) (maxPacketLength (params_ s)))
    as [Hle|Hle].
  - destruct (Z.ltb_spec MAX_OUTBUF_SIZE (len (nalu_ s1) + 12)) as [Hov|Hov];
      [discriminate|].
    split; assumption.
  - exfalso.
    destruct (maxPacketLength (params_ s) =? 0); [discriminate|].
    destruct (MAX_OUTBUF_SIZE <? maxPacketLength (params_ s) + 14);
      [discriminate|].
    destruct (Z.rem (len (nalu_ s1)) (maxPacketLength (params_ s)) =? 0);
      proj_simpl_in H;
      (match type of H with
       | match ?c with _ => _ end = _ => destruct c as [out|]
       end; [|discriminate]);
      injection H as _ <-; proj_simpl_in Hnc'; discriminate.
Qed.

(** Where a successful scan leaves the cursor, against the declared size. *)
Lemma getNextNalu_cursor s s1 cur :
  getNextNalu s = Some (1, s1) -> nextNaluPtr_ s = Some cur ->
  inBufferSize_ s1 = inBufferSize_ s /\ inBuffer_ s1 = inBuffer_ s /\
  inBufferComplete_ s1 = inBufferComplete_ s /\
  1 <= len (nalu_ s1) /\
  ((nextNaluPtr_ s1 = None /\
    (len (nalu_ s1) = 1 \/ cur + 3 + len (nalu_ s1) <= inBufferSize_ s)) \/
   (exists np, nextNaluPtr_ s1 = Some np /\ 0 <= np < inBufferSize_ s /\
               np < Z.of_nat (length (match inBuffer_ s with
                                      | Some mem => mem
                                      | None => []
                                      end)) /\
               cur + 3 + len (nalu_ s1) <= np)).
Proof.
  intros Hgn Hcur. unfold getNextNalu in Hgn. rewrite Hcur in Hgn.
  destruct (inBuffer_ s) as [mem|] eqn:Hmem; [|discriminate].
  destruct (startCodeLenAt mem cur) as [scl|] eqn:Escl; [|discriminate].
  destruct (Z.ltb_spec scl 0) as [Hneg|Hpos].
  { injection Hgn as Hgn _. discriminate Hgn. }
  destruct (scanNext mem (inBufferSize_ s) (cur + scl)) as [r|] eqn:Er;
    [|discriminate].
  destruct (rd mem (cur + scl)) as [h|] eqn:Eh; [|discriminate].
  injection Hgn as <-.
  destruct (startCodeLenAt_cases _ _ _ Escl) as (Hc & Hcases).
  destruct (scanNext_spec _ _ _ _ Er) as (Hlt & Hrd & Hend).
  destruct (scanNext_steps _ _ _ _ Er) as (Hstep & Hfound).
  assert (Hscl : scl = 3 \/ scl = 4)
    by (destruct Hcases as [[-> _]|[[-> _]|[-> _]]]; lia).
  proj_simpl. rewrite Hmem.
  split; [reflexivity|]. split; [reflexivity|]. split; [reflexivity|].
  split; [lia|].
  destruct Hend as [(Hn & Hsz) | (Hs & Hsc)].
  - left. split; [exact Hn|].
    destruct (Z.eq_dec (fst r) (cur + scl + 1)) as [E|E]; [left; lia|].
    right. specialize (Hstep (fst r - 1)). lia.
  - right. exists (fst r). split; [exact Hs|].
    pose proof (Hfound Hs).
    assert (Hin : fst r < Z.of_nat (length mem)).
    { unfold isStartCode, isStartCode3 in Hsc.
      destruct (rd mem (fst r)) as [b0|] eqn:E0; [|discriminate].
      pose proof (rd_Some _ _ _ E0). lia. }
    lia.
Qed.

Lemma fuCount_lt len max : 1 <= max < len -> fuCount len max < len.
Proof.
  intros H. destruct (fu_arith len max H) as (E & Hl & Hc). nia.
Qed.

(** Every packet brings the loop nearer to its end. *)
Lemma pendingCalls_packet params now s b s' :
  Inv params s -> get now s = (Packet b, s') ->
  1 <= pendingCalls s' < pendingCalls s.
Proof.
  intros Hinv Hget.
  destruct (naluComplete_ s) eqn:Hnc.
  - destruct (naluComplete_ s') eqn:Hnc'.
    + destruct (get_whole_inv now s b s' Hget Hnc Hnc')
        as (Hbc & s1 & Hgn & Hle & Hov).
      destruct (get_whole now s 1 s1 Hbc Hnc Hgn ltac:(lia) Hle Hov)
        as (mem & d & out & _ & _ & Hget' & _).
      rewrite Hget' in Hget. injection Hget as _ <-.
      destruct (getNextNalu_ok _ _ _ Hgn ltac:(lia))
        as (mem' & cur & scl & np & nx & h & _ & _ & Hcur & _).
      destruct (getNextNalu_cursor s s1 cur Hgn Hcur)
        as (Hsz & _ & Hbc1 & Hlen & Hc).
      unfold pendingCalls. proj_simpl. rewrite Hbc1, Hbc, Hnc, Hcur, Hsz.
      destruct Hc as [(-> & _) | (np' & -> & Hnp & _ & Hadv)]; lia.
    + destruct (get_first_inv now s b s' Hget Hnc Hnc')
        as (Hbc & s1 & Hgn & Hmax & Hfit).
      destruct (get_first now s 1 s1 Hbc Hnc Hgn ltac:(lia) Hmax Hfit)
        as (mem & d & out & _ & _ & _ & _ & Hget' & _).
      rewrite Hget' in Hget. injection Hget as _ <-.
      destruct (getNextNalu_ok _ _ _ Hgn ltac:(lia))
        as (mem' & cur & scl & np & nx & h & _ & _ & Hcur & _).
      destruct (getNextNalu_cursor s s1 cur Hgn Hcur)
        as (Hsz & _ & Hbc1 & Hlen & Hc).
      pose proof (fuCount_lt _ _ Hmax) as Hlt.
      pose proof (fu_arith _ _ Hmax) as (_ & _ & Hcnt).
      unfold pendingCalls. proj_simpl. rewrite Hbc1, Hbc, Hnc, Hcur, Hsz.
      destruct Hc as [(-> & Hl) | (np' & -> & Hnp & _ & Hadv)]; lia.
  - destruct Hinv as [_ _ Hf]. destruct (Hf Hnc) as (_ & mem & d & Hfs).
    pose proof (fs_idx _ _ _ Hfs) as Hidx.
    pose proof (fs_bc _ _ _ Hfs) as Hbc.
    assert (Hcur : 0 <= match nextNaluPtr_ s with
                        | None => 0
                        | Some p => 1 + Z.max 0 (inBufferSize_ s - p)
                        end) by (destruct (nextNaluPtr_ s); lia).
    destruct (Z.eq_dec (fuIndex_ s) (fuCounter_ s)) as [E|E].
    + destruct (get_last now s mem d Hfs E) as (out & Hget' & _).
      rewrite Hget' in Hget. injection Hget as _ <-.
      unfold pendingCalls. proj_simpl. rewrite Hbc, Hnc. lia.
    + destruct (get_middle now s mem d Hfs ltac:(lia)) as (out & Hget' & _).
      rewrite Hget' in Hget. injection Hget as _ <-.
      unfold pendingCalls. proj_simpl. rewrite Hbc, Hnc. lia.
Qed.

Lemma pendingCalls_pos params s : Inv params s -> 1 <= pendingCalls s.
Proof.
  intros [_ _ Hf]. unfold pendingCalls.
  destruct (inBufferComplete_ s); [lia|].
  assert (Hcur : 0 <= match nextNaluPtr_ s with
                      | None => 0
                      | Some p => 1 + Z.max 0 (inBufferSize_ s - p)
                      end) by (destruct (nextNaluPtr_ s); lia).
  destruct (naluComplete_ s); [lia|].
  destruct (Hf eq_refl) as (_ & mem & d & Hfs).
  pose proof (fs_idx _ _ _ Hfs). lia.
Qed.

Lemma drain_step now rest s :
  drain (now :: rest) s
  = match get now s with
    | (Packet b, s1) =>
      mkLoopResult (b :: sent (drain rest s1)) (ending (drain rest s1))
        (after (drain rest s1))
    | (Nullopt, s1) => mkLoopResult [] Drained s1
    | (PackException w, s1) => mkLoopResult [] (Raised w) s1
    | (Undefined, s1) => mkLoopResult [] Faulted s1
    end.
Proof. reflexivity. Qed.

Lemma drain_ends_Inv params nows : forall s,
  Inv params s ->
  maxPacketLength params + 14 <= MAX_OUTBUF_SIZE ->
  pendingCalls s <= Z.of_nat (length nows) ->
  (ending (drain nows s) = Drained /\
   inBufferComplete_ (after (drain nows s)) = true \/
   ending (drain nows s) = Faulted) /\
  Z.of_nat (length (sent (drain nows s))) < pendingCalls s.
Proof.
  induction nows as [|now rest IH]; intros s Hinv Hfit Hn.
  - pose proof (pendingCalls_pos params s Hinv). cbn [length] in Hn. lia.
  - rewrite drain_step.
    pose proof (pendingCalls_pos params s Hinv) as Hpos.
    destruct (get now s) as [o s1] eqn:Hget.
    destruct o as [b | | w | ].
    + destruct (pendingCalls_packet params now s b s1 Hinv Hget) as (H1 & H2).
      assert (Hinv1 : Inv params s1).
      { apply (Inv_get params now s (Packet b) s1 Hinv Hget). discriminate. }
      cbn [length] in Hn.
      destruct (IH s1 Hinv1 Hfit ltac:(lia)) as (He & Hl).
      cbn [sent ending after length]. split; [exact He | lia].
    + cbn [sent ending after length].
      destruct (get_nullopt_inv now s s1 Hget) as (_ & _ & Hc & _).
      split; [left; split; [reflexivity | exact Hc] | lia].
    + exfalso.
      exact (conforming_never_throws params s now w s1 Hinv Hfit Hget).
    + cbn [sent ending after length]. split; [right; reflexivity | lia].
Qed.

(** X9.  The caller's loop ends: with a configured maximum that leaves room
    for the headers, it never sees an exception, and it is over within
    [pendingCalls] calls of [get], the last of which returns nothing and
    leaves the buffer drained (unless the scanner left the storage); it
    hands fewer than [pendingCalls] packets to its body. *)
Theorem drain_ends params s nows :
  reachable params s ->
  maxPacketLength params + 14 <= MAX_OUTBUF_SIZE ->
  pendingCalls s <= Z.of_nat (length nows) ->
  (ending (drain nows s) = Drained /\
   inBufferComplete_ (after (drain nows s)) = true \/
   ending (drain nows s) = Faulted) /\
  Z.of_nat (length (sent (drain nows s))) < pendingCalls s.
Proof.
  intros Hr. apply drain_ends_Inv. apply reachable_Inv. exact Hr.
Qed.

Lemma drain_ends_witness :
  (ending (drain (repeat 10 11) exampleB) = Drained /\
   inBufferComplete_ (after (drain (repeat 10 11) exampleB)) = true \/
   ending (drain (repeat 10 11) exampleB) = Faulted) /\
  Z.of_nat (length (sent (drain (repeat 10 11) exampleB)))
  < pendingCalls exampleB.
Proof.
  apply (drain_ends smallParams exampleB (repeat 10 11)).
  - exact exampleB_reachable.
  - vm_compute. discriminate.
  - vm_compute. discriminate.
Defined.

(** ** Buffers that end in a NAL unit *)

Lemma rd_within mem q :
  0 <= q < Z.of_nat (length mem) -> exists b, rd mem q = Some b.
Proof.
  intros H. unfold rd.
  destruct (Z.ltb_spec q 0) as [Hn|Hn]; [lia|].
  destruct (nth_error mem (Z.to_nat q)) as [b|] eqn:E.
  - exists b. reflexivity.
  - apply nth_error_None in E. lia.
Qed.

Lemma endsInUnit_last mem q :
  endsInUnit mem = true -> rd mem q = Some 0 ->
  q + 1 < Z.of_nat (length mem).
Proof.
  intros He Hq. pose proof (rd_Some _ _ _ Hq) as Hr.
  unfold endsInUnit in He. cbv zeta in He.
  apply andb_prop in He. destruct He as (He & _).
  destruct (Z.eq_dec (q + 1) (Z.of_nat (length mem))) as [E|E]; [|lia].
  replace (Z.of_nat (length mem) - 1) with q in He by lia.
  rewrite Hq in He. discriminate.
Qed.

Lemma endsInUnit_no_code mem q :
  endsInUnit mem = true -> isStartCode3 mem q = Some true ->
  q + 3 < Z.of_nat (length mem).
Proof.
  intros He Hq.
  assert (Hr : q + 2 < Z.of_nat (length mem)).
  { unfold isStartCode3 in Hq.
    destruct (rd mem q) as [b0|]; [|discriminate]. cbn in Hq.
    destruct (b0 =? 0); [|discriminate]. cbn in Hq.
    destruct (rd mem (q + 1)) as [b1|]; [|discriminate]. cbn in Hq.
    destruct (b1 =? 0); [|discriminate]. cbn in Hq.
    destruct (rd mem (q + 2)) as [b2|] eqn:E2; [|discriminate].
    pose proof (rd_Some _ _ _ E2). lia. }
  unfold endsInUnit in He. cbv zeta in He.
  apply andb_prop in He. destruct He as (_ & He).
  destruct (Z.eq_dec (q + 3) (Z.of_nat (length mem))) as [E|E]; [|lia].
  replace (Z.of_nat (length mem) - 3) with q in He by lia.
  rewrite Hq in He. discriminate.
Qed.

Lemma isStartCode3_defined mem q :
  endsInUnit mem = true -> 0 <= q < Z.of_nat (length mem) ->
  exists b, isStartCode3 mem q = Some b.
Proof.
  intros He Hq. unfold isStartCode3.
  destruct (rd_within mem q Hq) as (b0 & E0). rewrite E0. cbn.
  destruct (Z.eqb_spec b0 0) as [-> | _]; cbn; [|eexists; reflexivity].
  pose proof (endsInUnit_last mem q He E0) as H1.
  destruct (rd_within mem (q + 1) ltac:(lia)) as (b1 & E1). rewrite E1. cbn.
  destruct (Z.eqb_spec b1 0) as [-> | _]; cbn; [|eexists; reflexivity].
  pose proof (endsInUnit_last mem (q + 1) He E1) as H2.
  destruct (rd_within mem (q + 2) ltac:(lia)) as (b2 & E2).
  rewrite E2. cbn. eexists; reflexivity.
Qed.

Lemma isStartCode4_defined mem q :
  endsInUnit mem = true -> 0 <= q < Z.of_nat (length mem) ->
  exists b, isStartCode4 mem q = Some b /\
            (b = true -> q + 4 < Z.of_nat (length mem)).
Proof.
  intros He Hq. unfold isStartCode4.
  destruct (rd_within mem q Hq) as (b0 & E0). rewrite E0. cbn.
  destruct (Z.eqb_spec b0 0) as [-> | _]; cbn;
    [|eexists; split; [reflexivity | discriminate]].
  pose proof (endsInUnit_last mem q He E0) as H1.
  destruct (rd_within mem (q + 1) ltac:(lia)) as (b1 & E1). rewrite E1. cbn.
  destruct (Z.eqb_spec b1 0) as [-> | _]; cbn;
    [|eexists; split; [reflexivity | discriminate]].
  pose proof (endsInUnit_last mem (q + 1) He E1) as H2.
  destruct (rd_within mem (q + 2) ltac:(lia)) as (b2 & E2).
  replace (q + 1 + 1) with (q + 2) in H2 by lia.
  rewrite E2. cbn.
  destruct (Z.eqb_spec b2 0) as [-> | _]; cbn;
    [|eexists; split; [reflexivity | discriminate]].
  pose proof (endsInUnit_last mem (q + 2) He E2) as H3.
  destruct (rd_within mem (q + 3) ltac:(lia)) as (b3 & E3).
  replace (q + 2 + 1) with (q + 3) in H3 by lia.
  rewrite E3. cbn. eexists. split; [reflexivity|].
  intros Hb. apply Z.eqb_eq in Hb. subst b3.
  assert (H3' : isStartCode3 mem (q + 1) = Some true).
  { unfold isStartCode3.
    replace (q + 1 + 1) with (q + 2) by lia.
    replace (q + 1 + 2) with (q + 3) by lia.
    rewrite E1, E2, E3. reflexivity. }
  pose proof (endsInUnit_no_code mem (q + 1) He H3'). lia.
Qed.

Lemma isStartCode_defined mem q :
  endsInUnit mem = true -> 0 <= q < Z.of_nat (length mem) ->
  exists b, isStartCode mem q = Some b.
Proof.
  intros He Hq. unfold isStartCode.
  destruct (isStartCode3_defined mem q He Hq) as (b3 & E3). rewrite E3. cbn.
  destruct b3; [eexists; reflexivity|].
  destruct (isStartCode4_defined mem q He Hq) as (b4 & E4 & _).
  exists b4. exact E4.
Qed.

Lemma startCodeLenAt_defined mem q :
  endsInUnit mem = true -> 0 <= q < Z.of_nat (length mem) ->
  exists scl, startCodeLenAt mem q = Some scl /\
              (scl = -1 \/
               (scl = 3 \/ scl = 4) /\ q + scl < Z.of_nat (length mem)).
Proof.
  intros He Hq. unfold startCodeLenAt.
  destruct (isStartCode3_defined mem q He Hq) as (b3 & E3). rewrite E3. cbn.
  destruct b3.
  - exists 3. split; [reflexivity|]. right.
    pose proof (endsInUnit_no_code mem q He E3). lia.
  - destruct (isStartCode4_defined mem q He Hq) as (b4 & E4 & H4).
    rewrite E4. cbn. destruct b4.
    + exists 4. split; [reflexivity|]. right.
      specialize (H4 eq_refl). lia.
    + exists (-1). split; [reflexivity|]. left. reflexivity.
Qed.

Lemma scanNext_defined mem inBufferSize p :
  endsInUnit mem = true -> 0 <= p ->
  inBufferSize <= Z.of_nat (length mem) ->
  exists r, scanNext mem inBufferSize p = Some r.
Proof.
  funelim (scanNext mem inBufferSize p); intros He Hp Hsz.
  - eexists; reflexivity.
  - eexists; reflexivity.
  - match goal with
    | IH : _ -> _ -> _ -> exists r, _ |- _ =>
        apply IH; [exact He | lia | exact Hsz]
    end.
  - exfalso.
    destruct (isStartCode_defined mem (nextPtr + 1) He ltac:(lia))
      as (b & Eb).
    congruence.
Qed.

Lemma getNextNalu_defined s mem :
  endsInUnit mem = true -> ReadsWithin mem s ->
  exists ret s1,
    getNextNalu s = Some (ret, s1) /\ (ret = 0 \/ ret = -1 \/ ret = 1).
Proof.
  intros He (Hmem & Hsz & Hcur). unfold getNextNalu.
  destruct (nextNaluPtr_ s) as [cur|].
  2:{ eexists _, _. split; [reflexivity | left; reflexivity]. }
  rewrite Hmem.
  destruct (startCodeLenAt_defined mem cur He Hcur) as (scl & Escl & Hscl).
  rewrite Escl. cbn.
  destruct Hscl as [-> | (Hscl & Hin)].
  { eexists _, _. split; [reflexivity | right; left; reflexivity]. }
  replace (scl <? 0) with false by (symmetry; apply Z.ltb_ge; lia).
  destruct (scanNext_defined mem (inBufferSize_ s) (cur + scl) He
              ltac:(lia) ltac:(lia)) as (r & Er).
  rewrite Er. cbn.
  destruct (rd_within mem (cur + scl) ltac:(lia)) as (h & Eh).
  rewrite Eh. cbn.
  eexists _, _. split; [reflexivity | right; right; reflexivity].
Qed.

(** On a buffer that ends in a NAL unit, a call of [get] returns: nothing,
    or a packet, and the cursor stays inside the buffer. *)
Lemma get_within params now s mem :
  Inv params s ->
  1 <= maxPacketLength params ->
  maxPacketLength params + 14 <= MAX_OUTBUF_SIZE ->
  endsInUnit mem = true -> ReadsWithin mem s ->
  (exists s', get now s = (Nullopt, s')) \/
  (exists b s', get now s = (Packet b, s') /\ ReadsWithin mem s').
Proof.
  intros Hinv Hmax Hfit He Hrw.
  destruct (inBufferComplete_ s) eqn:Hbc.
  { left. exists s. unfold get. rewrite Hbc. reflexivity. }
  destruct (naluComplete_ s) eqn:Hnc.
  - destruct (getNextNalu_defined s mem He Hrw) as (ret & s1 & Hgn & Hret).
    destruct Hret as [-> | [-> | ->]].
    + left. pose proof (getNextNalu_fail _ _ _ Hgn ltac:(lia)) as ->.
      destruct (get_scan_failed now s 0 Hbc Hnc Hgn ltac:(lia)) as (out & E).
      eexists. exact E.
    + left. pose proof (getNextNalu_fail _ _ _ Hgn ltac:(lia)) as ->.
      destruct (get_scan_failed now s (-1) Hbc Hnc Hgn ltac:(lia))
        as (out & E).
      eexists. exact E.
    + right.
      destruct (getNextNalu_ok _ _ _ Hgn ltac:(lia))
        as (mem' & cur & scl & np & nx & h & _ & Emem & Hcur & Es1 & _).
      assert (Epar : params_ s1 = params) 
        by (subst s1; proj_simpl; apply (inv_params _ _ Hinv)).
      clear Es1.
      destruct (getNextNalu_cursor s s1 cur Hgn Hcur)
        as (Hsz & Hbuf & _ & _ & Hc).
      destruct Hrw as (Hmem & Hsize & _).
      assert (Hrw1 : ReadsWithin mem s1).
      { split; [congruence|]. split; [congruence|].
        destruct Hc as [(-> & _) | (np' & -> & Hnp & Hin & _)]; [exact I|].
        rewrite Hmem in Hin. lia. }
      destruct Hrw1 as (Hmem1 & Hsize1 & Hcur1).
      pose proof Hmax as Hmax1. pose proof Hfit as Hfit1.
      rewrite <- Epar in Hmax1, Hfit1.
      destruct (Z_le_gt_dec (len (nalu_ s1)) (maxPacketLength (params_ s1)))
        as [Hle|Hgt].
      * destruct (get_whole now s 1 s1 Hbc Hnc Hgn ltac:(lia) Hle
                    ltac:(lia))
          as (m & d & out & _ & _ & Hget & _).
        eexists _, _. split; [exact Hget|].
        unfold ReadsWithin. proj_simpl.
        split; [exact Hmem1|]. split; [exact Hsize1 | exact Hcur1].
      * destruct (get_first now s 1 s1 Hbc Hnc Hgn ltac:(lia)
                    ltac:(lia) Hfit1)
          as (m & d & out & _ & _ & _ & _ & Hget & _).
        eexists _, _. split; [exact Hget|].
        unfold ReadsWithin. proj_simpl.
        split; [exact Hmem1|]. split; [exact Hsize1 | exact Hcur1].
  - right. destruct Hinv as [_ _ Hf].
    destruct (Hf Hnc) as (_ & mem' & d & Hfs).
    pose proof (fs_idx _ _ _ Hfs) as Hidx.
    destruct Hrw as (Hmem & Hsize & Hcur).
    destruct (Z.eq_dec (fuIndex_ s) (fuCounter_ s)) as [E|E].
    + destruct (get_last now s mem' d Hfs E) as (out & Hget & _).
      eexists _, _. split; [exact Hget|].
      unfold ReadsWithin. proj_simpl.
      split; [exact Hmem|]. split; [exact Hsize | exact Hcur].
    + destruct (get_middle now s mem' d Hfs ltac:(lia)) as (out & Hget & _).
      eexists _, _. split; [exact Hget|].
      unfold ReadsWithin. proj_simpl.
      split; [exact Hmem|]. split; [exact Hsize | exact Hcur].
Qed.

Lemma drain_within params mem nows : forall s,
  Inv params s ->
  1 <= maxPacketLength params ->
  maxPacketLength params + 14 <= MAX_OUTBUF_SIZE ->
  endsInUnit mem = true -> ReadsWithin mem s ->
  pendingCalls s <= Z.of_nat (length nows) ->
  ending (drain nows s) = Drained.
Proof.
  induction nows as [|now rest IH]; intros s Hinv Hmax Hfit He Hrw Hn.
  - pose proof (pendingCalls_pos params s Hinv). cbn [length] in Hn. lia.
  - rewrite drain_step.
    destruct (get_within params now s mem Hinv Hmax Hfit He Hrw)
      as [(s' & Hget) | (b & s' & Hget & Hrw')]; rewrite Hget.
    + reflexivity.
    + cbn [ending].
      destruct (pendingCalls_packet params now s b s' Hinv Hget) as (H1 & H2).
      assert (Hinv1 : Inv params s').
      { apply (Inv_get params now s (Packet b) s' Hinv Hget). discriminate. }
      cbn [length] in Hn.
      apply IH; try assumption. lia.
Qed.

Lemma put_pendingCalls input s :
  pendingCalls (put input s)
  = match data input with
    | None => 1
    | Some _ => 2 + Z.max 0 (size input)
    end.
Proof.
  unfold pendingCalls, put. proj_simpl.
  destruct (data input); lia.
Qed.

(** X10.  A buffer that ends in a NAL unit, given with its true size to a
    packetizer whose configured maximum is at least 1 and leaves room for
    the headers, is packetized without undefined behaviour and without an
    exception: the caller's loop ends with a call that returns nothing,
    within two calls more than the buffer has bytes (so it hands fewer
    packets than that to its body), whatever the packetizer was doing
    before [put]. *)
Theorem well_formed_buffer_drains params s mem nows :
  reachable params s ->
  1 <= maxPacketLength params ->
  maxPacketLength params + 14 <= MAX_OUTBUF_SIZE ->
  endsInUnit mem = true ->
  2 + Z.of_nat (length mem) <= Z.of_nat (length nows) ->
  ending (drain nows (put (mkBuffer (Some mem) (Z.of_nat (length mem))) s))
  = Drained /\
  inBufferComplete_
    (after (drain nows (put (mkBuffer (Some mem) (Z.of_nat (length mem))) s)))
  = true /\
  Z.of_nat
    (length (sent (drain nows
                     (put (mkBuffer (Some mem) (Z.of_nat (length mem))) s))))
  < 2 + Z.of_nat (length mem).
Proof.
  intros Hr Hmax Hfit He Hn.
  pose proof (reachable_Inv params s Hr) as Hinv.
  pose proof (Inv_put params (mkBuffer (Some mem) (Z.of_nat (length mem))) s
                Hinv) as Hinv'.
  assert (Hne : 1 <= Z.of_nat (length mem)).
  { unfold endsInUnit in He. cbv zeta in He.
    apply andb_prop in He. destruct He as (He & _).
    destruct (rd mem (Z.of_nat (length mem) - 1)) as [b|] eqn:E;
      [|discriminate].
    pose proof (rd_Some _ _ _ E). lia. }
  assert (Hp : pendingCalls
                 (put (mkBuffer (Some mem) (Z.of_nat (length mem))) s)
               = 2 + Z.of_nat (length mem)).
  { rewrite put_pendingCalls. cbn [data size]. lia. }
  assert (Hrw : ReadsWithin mem
                  (put (mkBuffer (Some mem) (Z.of_nat (length mem))) s)).
  { unfold ReadsWithin, put. proj_simpl. cbn [data size].
    split; [reflexivity|]. split; [reflexivity | lia]. }
  pose proof (drain_within params mem nows _ Hinv' Hmax Hfit He Hrw
                ltac:(lia)) as Hd.
  destruct (drain_ends_Inv params nows _ Hinv' Hfit ltac:(lia))
    as ([(_ & Hc) | Hf] & Hl).
  - split; [exact Hd|]. split; [exact Hc|]. lia.
  - rewrite Hd in Hf. discriminate.
Qed.

Lemma well_formed_buffer_drains_witness :
  ending (drain (repeat 10 11)
            (put (mkBuffer (Some [0;0;1; 101;1;2;3;4;5])
                    (Z.of_nat (length [0;0;1; 101;1;2;3;4;5])))
               (Impl_new smallParams 0)))
  = Drained /\
  inBufferComplete_
    (after (drain (repeat 10 11)
              (put (mkBuffer (Some [0;0;1; 101;1;2;3;4;5])
                      (Z.of_nat (length [0;0;1; 101;1;2;3;4;5])))
                 (Impl_new smallParams 0))))
  = true /\
  Z.of_nat
    (length (sent (drain (repeat 10 11)
                     (put (mkBuffer (Some [0;0;1; 101;1;2;3;4;5])
                             (Z.of_nat (length [0;0;1; 101;1;2;3;4;5])))
                        (Impl_new smallParams 0)))))
  < 2 + Z.of_nat (length [0;0;1; 101;1;2;3;4;5]).
Proof.
  apply (well_formed_buffer_drains smallParams (Impl_new smallParams 0)
           [0;0;1; 101;1;2;3;4;5] (repeat 10 11)).
  - apply reach_new.
  - vm_compute. discriminate.
  - vm_compute. discriminate.
  - vm_compute. reflexivity.
  - vm_compute. discriminate.
Defined.

(** ** A buffer that ends with a zero byte *)

Lemma isStartCode_last_zero mem q :
  q + 1 = Z.of_nat (length mem) -> rd mem q = Some 0 ->
  isStartCode mem q = None.
Proof.
  intros Hq E0. unfold isStartCode, isStartCode3. rewrite E0. cbn.
  destruct (rd mem (q + 1)) as [b|] eqn:E1; [|reflexivity].
  pose proof (rd_Some _ _ _ E1). lia.
Qed.

Lemma scanNext_trailing_zero mem inBufferSize p :
  inBufferSize = Z.of_nat (length mem) ->
  rd mem (inBufferSize - 1) = Some 0 ->
  p + 1 < inBufferSize ->
  (forall q, p < q < inBufferSize -> isStartCode mem q <> Some true) ->
  scanNext mem inBufferSize p = None.
Proof.
  funelim (scanNext mem inBufferSize p); intros Hsz Hz Hp Hno.
  - lia.
  - exfalso. apply (Hno (nextPtr + 1)); [lia | assumption].
  - destruct (Z.eq_dec (nextPtr + 2) inBufferSize) as [E|E].
    + exfalso.
      rewrite (isStartCode_last_zero mem (nextPtr + 1)) in Heq;
        [discriminate | lia |].
      replace (nextPtr + 1) with (inBufferSize - 1) by lia. exact Hz.
    + match goal with
      | IH : _ -> _ -> _ -> _ -> scanNext _ _ _ = None |- _ =>
          apply IH; [exact Hsz | exact Hz | lia |]
      end.
      intros q Hq. apply Hno. lia.
  - reflexivity.
Qed.

(** X11.  When the last NAL unit of a buffer has more than one byte and the
    storage ends with a zero byte, the scanner reads past the end of the
    storage while it looks for the next start code: the behaviour of the
    call of [get] that selects this unit is undefined. *)
Theorem trailing_zero_overread now s mem cur scl :
  inBufferComplete_ s = false -> naluComplete_ s = true ->
  inBuffer_ s = Some mem ->
  inBufferSize_ s = Z.of_nat (length mem) ->
  nextNaluPtr_ s = Some cur ->
  startCodeLenAt mem cur = Some scl -> 0 <= scl ->
  cur + scl + 1 < Z.of_nat (length mem) ->
  rd mem (Z.of_nat (length mem) - 1) = Some 0 ->
  (forall q, cur + scl < q < Z.of_nat (length mem) ->
             isStartCode mem q <> Some true) ->
  getNextNalu s = None /\ get now s = (Undefined, s).
Proof.
  intros Hbc Hnc Hmem Hsz Hcur Hscl Hpos Hlen Hz Hno.
  assert (Hgn : getNextNalu s = None).
  { unfold getNextNalu. rewrite Hcur, Hmem, Hscl. cbn.
    replace (scl <? 0) with false by (symmetry; apply Z.ltb_ge; lia).
    rewrite (scanNext_trailing_zero mem (inBufferSize_ s) (cur + scl));
      [reflexivity | exact Hsz | rewrite Hsz; exact Hz | lia |].
    rewrite Hsz. exact Hno. }
  split; [exact Hgn|].
  unfold get. rewrite Hbc. cbv zeta. rewrite Hnc, Hgn. reflexivity.
Qed.

Lemma trailing_zero_overread_witness :
  getNextNalu exampleTrailingZero = None /\
  get 10 exampleTrailingZero = (Undefined, exampleTrailingZero).
Proof.
  apply (trailing_zero_overread 10 exampleTrailingZero [0;0;1; 101;7;0] 0 3).
  - reflexivity.
  - reflexivity.
  - reflexivity.
  - reflexivity.
  - reflexivity.
  - reflexivity.
  - lia.
  - vm_compute. reflexivity.
  - reflexivity.
  - intros q Hq.
    assert (Hc : q = 4 \/ q = 5) by (cbn [length Z.of_nat] in Hq; lia).
    destruct Hc as [-> | ->]; vm_compute; discriminate.
Defined.

(** ** What a call of [get] depends on *)

Lemma getNextNalu_sameView s t :
  inBuffer_ s = inBuffer_ t -> nextNaluPtr_ s = nextNaluPtr_ t ->
  inBufferSize_ s = inBufferSize_ t ->
  (getNextNalu s = None /\ getNextNalu t = None) \/
  (exists ret, ret <= 0 /\ getNextNalu s = Some (ret, s) /\
               getNextNalu t = Some (ret, t)) \/
  (exists n nx,
     getNextNalu s = Some (1, set_nalu_ n (set_nextNaluPtr_ nx s)) /\
     getNextNalu t = Some (1, set_nalu_ n (set_nextNaluPtr_ nx t))).
Proof.
  intros Hb Hc Hz. unfold getNextNalu. rewrite <- Hb, <- Hc, <- Hz.
  destruct (nextNaluPtr_ s) as [cur|].
  2:{ right; left. exists 0. split; [lia|]. split; reflexivity. }
  destruct (inBuffer_ s) as [mem|]; [|left; split; reflexivity].
  cbn.
  destruct (startCodeLenAt mem cur) as [scl|]; [|left; split; reflexivity].
  cbn.
  destruct (Z.ltb_spec scl 0) as [Hneg|Hpos].
  { right; left. exists (-1). split; [lia|]. split; reflexivity. }
  destruct (scanNext mem (inBufferSize_ s) (cur + scl)) as [r|];
    [|left; split; reflexivity].
  cbn.
  destruct (rd mem (cur + scl)) as [h|]; [|left; split; reflexivity].
  cbn. right; right. eexists _, _. split; reflexivity.
Qed.

Ltac sv_solve :=
  unfold sameView; proj_simpl;
  repeat match goal with
         | |- _ /\ _ => split
         end;
  first [ assumption | reflexivity | discriminate | congruence
        | intros _; split; first [reflexivity | assumption]
        | intros ?; congruence
        | idtac ].

(** [get] returns the same in two states it cannot tell apart, and leaves
    two such states. *)
Lemma get_sameView now s t :
  sameView s t ->
  fst (get now s) = fst (get now t) /\
  sameView (snd (get now s)) (snd (get now t)).
Proof.
  intros Hsv. pose proof Hsv as Hsv0.
  destruct Hsv as (Hp & Hb & Hc & Hz & Hfc & Hl & Hi & Hbc & Hnc & Hq
                   & Hts & Hn).
  unfold get. rewrite <- Hbc.
  destruct (inBufferComplete_ s) eqn:Ebc.
  { split; [reflexivity | exact Hsv0]. }
  clear Hsv0. cbv zeta. rewrite <- Hnc, <- Hp.
  destruct (naluComplete_ s) eqn:Enc.
  - clear Hn.
    destruct (getNextNalu_sameView s t Hb Hc Hz)
      as [(-> & ->) | [(ret & Hret & -> & ->) | (n & nx & -> & ->)]].
    + cbn [fst snd]. split; [reflexivity|]. sv_solve.
    + replace (ret <=? 0) with true by (symmetry; apply Z.leb_le; exact Hret).
      cbn [fst snd]. split; [reflexivity|]. sv_solve.
    + change (1 <=? 0) with false. cbv iota.
      unfold copyNalu. proj_simpl. rewrite <- Hq, <- Hts, <- Hb.
      destruct (len n <=? maxPacketLength (params_ s)).
      * destruct (MAX_OUTBUF_SIZE <? len n + 12).
        { cbn [fst snd]. split; [reflexivity|]. sv_solve. }
        destruct (inBuffer_ s) as [mem|] eqn:Emem; cbn [fst snd];
          [|split; [reflexivity|]; sv_solve].
        destruct (ndata n) as [d|]; cbn [fst snd];
          [|split; [reflexivity|]; sv_solve].
        match goal with
        | |- context [memcpy ?a ?b ?c ?d ?e] => destruct (memcpy a b c d e)
        end; cbn [fst snd]; (split; [reflexivity|]); sv_solve.
      * destruct (maxPacketLength (params_ s) =? 0).
        { cbn [fst snd]. split; [reflexivity|]. sv_solve. }
        destruct (Z.rem (len n) (maxPacketLength (params_ s)) =? 0);
          proj_simpl;
          (destruct (MAX_OUTBUF_SIZE <? maxPacketLength (params_ s) + 14);
           [cbn [fst snd]; split; [reflexivity|]; sv_solve|]);
          rewrite <- Hb;
          (destruct (inBuffer_ s) as [mem|] eqn:Emem; cbn [fst snd];
           [|split; [reflexivity|]; sv_solve]);
          (destruct (ndata n) as [d|]; cbn [fst snd];
           [|split; [reflexivity|]; sv_solve]);
          match goal with
          | |- context [memcpy ?a ?b ?c ?d ?e] => destruct (memcpy a b c d e)
          end; cbn [fst snd]; (split; [reflexivity|]); sv_solve.
  - destruct (Hn eq_refl) as (Hnalu & Hcur).
    unfold copyNalu. proj_simpl.
    rewrite <- Hq, <- Hcur, <- Hi, <- Hfc, <- Hl, <- Hnalu, <- Hb.
    destruct (fuIndex_ s =? fuCounter_ s).
    + destruct (MAX_OUTBUF_SIZE <? lastFuSize_ s - 1 + 14).
      { cbn [fst snd]. split; [reflexivity|]. sv_solve. }
      destruct (inBuffer_ s) as [mem|] eqn:Emem; cbn [fst snd];
        [|split; [reflexivity|]; sv_solve].
      destruct (ndata (nalu_ s)) as [d|]; cbn [fst snd];
        [|split; [reflexivity|]; sv_solve].
      match goal with
      | |- context [memcpy ?a ?b ?c ?d ?e] => destruct (memcpy a b c d e)
      end; cbn [fst snd]; (split; [reflexivity|]); sv_solve.
    + destruct (MAX_OUTBUF_SIZE <? maxPacketLength (params_ s) + 14).
      { cbn [fst snd]. split; [reflexivity|]. sv_solve. }
      destruct (inBuffer_ s) as [mem|] eqn:Emem; cbn [fst snd];
        [|split; [reflexivity|]; sv_solve].
      destruct (ndata (nalu_ s)) as [d|]; cbn [fst snd];
        [|split; [reflexivity|]; sv_solve].
      match goal with
      | |- context [memcpy ?a ?b ?c ?d ?e] => destruct (memcpy a b c d e)
      end; cbn [fst snd]; (split; [reflexivity|]); sv_solve.
Qed.

Lemma gets_sameView nows : forall s t,
  sameView s t ->
  fst (gets nows s) = fst (gets nows t) /\
  sameView (snd (gets nows s)) (snd (gets nows t)).
Proof.
  induction nows as [|now rest IH]; intros s t Hsv.
  - rewrite !gets_nil. split; [reflexivity | exact Hsv].
  - destruct (get_sameView now s t Hsv) as (Ho & Hsv1).
    destruct (IH _ _ Hsv1) as (Hos & Hsv2).
    rewrite (fst_gets_step now rest s _ _ (surjective_pairing (get now s))).
    rewrite (fst_gets_step now rest t _ _ (surjective_pairing (get now t))).
    rewrite (snd_gets_step now rest s _ _ (surjective_pairing (get now s))).
    rewrite (snd_gets_step now rest t _ _ (surjective_pairing (get now t))).
    split; [congruence | exact Hsv2].
Qed.

Lemma put_sameView input s t :
  params_ s = params_ t -> seqNum_ s = seqNum_ t ->
  tsStartMillisec_ s = tsStartMillisec_ t ->
  sameView (put input s) (put input t).
Proof.
  intros Hp Hq Hts. unfold sameView, put. proj_simpl.
  repeat match goal with
         | |- _ /\ _ => split
         end; try assumption; try reflexivity. discriminate.
Qed.

(** X12.  [put] starts afresh: whatever the packetizer was doing
    (fragments of a NAL unit still to come, a buffer drained or not), the
    calls of [get] after [put] return what they return on any other
    packetizer with the same parameters, sequence number and start time.
    The fragments that were still to come are dropped without a trace. *)
Theorem put_starts_afresh input s t nows :
  params_ s = params_ t -> seqNum_ s = seqNum_ t ->
  tsStartMillisec_ s = tsStartMillisec_ t ->
  fst (gets nows (put input s)) = fst (gets nows (put input t)) /\
  seqNum_ (snd (gets nows (put input s)))
  = seqNum_ (snd (gets nows (put input t))).
Proof.
  intros Hp Hq Hts.
  destruct (gets_sameView nows _ _ (put_sameView input s t Hp Hq Hts))
    as (Ho & Hsv).
  split; [exact Ho|].
  destruct Hsv as (_ & _ & _ & _ & _ & _ & _ & _ & _ & Hseq & _).
  exact Hseq.
Qed.

Lemma put_starts_afresh_witness :
  fst (gets [20; 30] (put (mkBuffer (Some [0;0;0;1; 65;9;8]) 7)
                        (snd (get 10 exampleB))))
  = fst (gets [20; 30] (put (mkBuffer (Some [0;0;0;1; 65;9;8]) 7)
                          (set_seqNum_ 1 (Impl_new smallParams 0)))) /\
  seqNum_ (snd (gets [20; 30] (put (mkBuffer (Some [0;0;0;1; 65;9;8]) 7)
                                 (snd (get 10 exampleB)))))
  = seqNum_ (snd (gets [20; 30]
                    (put (mkBuffer (Some [0;0;0;1; 65;9;8]) 7)
                       (set_seqNum_ 1 (Impl_new smallParams 0))))).
Proof.
  apply (put_starts_afresh (mkBuffer (Some [0;0;0;1; 65;9;8]) 7)
           (snd (get 10 exampleB)) (set_seqNum_ 1 (Impl_new smallParams 0))
           [20; 30]).
  - vm_compute. reflexivity.
  - vm_compute. reflexivity.
  - vm_compute. reflexivity.
Defined.

(** X13.  The two start-code tests never both succeed at one position, so
    the order in which [getNextNalu] makes them does not matter; and where
    the 4-byte test succeeds, the 3-byte test succeeds one byte further. *)
Theorem start_codes_exclusive mem p :
  (isStartCode3 mem p = Some true -> isStartCode4 mem p = Some false) /\
  (isStartCode4 mem p = Some true ->
   isStartCode3 mem p = Some false /\
   isStartCode3 mem (p + 1) = Some true /\
   startCodeLenAt mem p = Some 4).
Proof.
  unfold startCodeLenAt, isStartCode3, isStartCode4.
  replace (p + 1 + 1) with (p + 2) by lia.
  replace (p + 1 + 2) with (p + 3) by lia.
  destruct (rd mem p) as [b0|]; cbn; [|split; discriminate].
  destruct (Z.eqb_spec b0 0) as [-> | _]; cbn; [|split; discriminate].
  destruct (rd mem (p + 1)) as [b1|]; cbn; [|split; discriminate].
  destruct (Z.eqb_spec b1 0) as [-> | _]; cbn; [|split; discriminate].
  destruct (rd mem (p + 2)) as [b2|]; cbn; [|split; discriminate].
  destruct (Z.eqb_spec b2 0) as [-> | Hb2]; cbn.
  - split; [discriminate|].
    destruct (rd mem (p + 3)) as [b3|]; cbn; [|discriminate].
    intros [= Hb3]. rewrite Hb3. repeat split; reflexivity.
  - split; [|discriminate]. reflexivity.
Qed.

Lemma start_codes_exclusive_witness :
  isStartCode4 [0;0;1; 101] 0 = Some false /\
  isStartCode3 [0;0;0;1; 65] 0 = Some false /\
  isStartCode3 [0;0;0;1; 65] (0 + 1) = Some true /\
  startCodeLenAt [0;0;0;1; 65] 0 = Some 4.
Proof.
  split.
  - apply (proj1 (start_codes_exclusive [0;0;1; 101] 0)). reflexivity.
  - apply (proj2 (start_codes_exclusive [0;0;0;1; 65] 0)). reflexivity.
Defined.

(** X14.  The RTP clock runs at 90 kHz: the timestamp of a packet that
    begins a NAL unit is 90 times the milliseconds since the packetizer was
    constructed, as long as this product fits 32 bits (a little more than
    13 hours). *)
Theorem rtp_clock_90khz params s now b s' :
  reachable params s ->
  get now s = (Packet b, s') ->
  naluComplete_ s = true ->
  0 <= now - tsStartMillisec_ s <= 47721858 ->
  pktTimestamp (bytesOf b) = 90 * (now - tsStartMillisec_ s).
Proof.
  intros Hr Hget Hnc Hd.
  destruct (get_packet_header now s b s' Hget)
    as (m & rest & _ & Hb & _ & Hts).
  rewrite Hnc in Hts.
  rewrite Hb, timestamp_field by (rewrite Hts; apply sampleTime_range).
  rewrite Hts. unfold sampleTime.
  rewrite (Z.mod_small (now - tsStartMillisec_ s)) by lia.
  rewrite Z.mod_small by lia. lia.
Qed.

Lemma rtp_clock_90khz_witness :
  pktTimestamp (bytesOf (returned (fst (get 10 exampleB))))
  = 90 * (10 - tsStartMillisec_ exampleB).
Proof.
  apply (rtp_clock_90khz smallParams exampleB 10
           (returned (fst (get 10 exampleB))) (snd (get 10 exampleB))).
  - exact exampleB_reachable.
  - vm_compute. reflexivity.
  - reflexivity.
  - vm_compute. split; discriminate.
Defined.

(** ** The output buffer *)

Lemma rd_repeat_tail front k i :
  Z.of_nat (length front) <= i < Z.of_nat (length front + k) ->
  rd (front ++ repeat 0 k) i = Some 0.
Proof.
  intros Hi. unfold rd.
  destruct (Z.ltb_spec i 0) as [Hn|Hn]; [lia|].
  rewrite nth_error_app2 by lia.
  apply nth_error_repeat. lia.
Qed.

Lemma copyNalu_zero_tail hdr k st doff off n out :
  Z.of_nat (length hdr) = doff ->
  copyNalu (hdr ++ repeat 0 k) doff st off n = Some out ->
  length out = (length hdr + k)%nat /\
  forall i, doff + n <= i < Z.of_nat (length out) -> rd out i = Some 0.
Proof.
  intros Hh Hcp. unfold copyNalu in Hcp.
  destruct (inBuffer_ st) as [mem|]; [|discriminate].
  destruct (ndata (nalu_ st)) as [d|]; [|discriminate].
  cbn in Hcp.
  pose proof (memcpy_prefix_inv hdr (repeat 0 k) mem doff (d + off) n out
                Hh Hcp) as (Hn & Hs & Hm & Ho & _ & Hl).
  rewrite length_app, repeat_length in Hl, Ho.
  split; [exact Hl|].
  unfold memcpy in Hcp.
  destruct ((n <? 0) || (d + off <? 0) || (doff <? 0)); [discriminate|].
  destruct (Z.of_nat (length mem) <? d + off + n); [discriminate|].
  destruct (Z.of_nat (length (hdr ++ repeat 0 k)) <? doff + n);
    [discriminate|].
  injection Hcp as <-. fold (slice mem (d + off) n). fold (slice mem (d + off) n) in Hl.
  pose proof (slice_length mem (d + off) n Hs Hn Hm) as Hsl.
  assert (Hsk : skipn (Z.to_nat (doff + n)) (hdr ++ repeat 0 k)
                = repeat 0 (k - Z.to_nat n)).
  { rewrite skipn_app.
    rewrite skipn_all2 by lia. cbn [app].
    replace (Z.to_nat (doff + n) - length hdr)%nat with (Z.to_nat n) by lia.
    clear. revert k. induction (Z.to_nat n) as [|m IH]; intros k.
    - rewrite Nat.sub_0_r. reflexivity.
    - destruct k as [|k]; [reflexivity|]. cbn [repeat skipn]. apply IH. }
  rewrite Hsk. intros i Hi.
  rewrite app_assoc.
  apply rd_repeat_tail.
  rewrite !length_app, !length_firstn, !repeat_length in *.
  rewrite length_app, repeat_length. lia.
Qed.

(** X15.  A packet is returned in place: the buffer [get] returns is the
    packetizer's own output buffer, which keeps its 10240 bytes; the bytes
    after the packet are zero. *)
Theorem packet_returned_in_place now s b s' :
  get now s = (Packet b, s') ->
  data b = Some (outBuffer_ s') /\
  Z.of_nat (length (outBuffer_ s')) = MAX_OUTBUF_SIZE /\
  forall i, size b <= i < MAX_OUTBUF_SIZE -> rd (outBuffer_ s') i = Some 0.
Proof.
  intros H. unfold get in H.
  destruct (inBufferComplete_ s) eqn:Hbc; [discriminate|].
  cbv zeta in H. run_stores_in H.
  destruct (naluComplete_ s) eqn:Hnc.
  - destruct (getNextNalu s) as [[ret s1]|] eqn:Hgn; [|discriminate].
    destruct (ret <=? 0) eqn:Hret; [discriminate|].
    destruct (getNextNalu_frame _ _ _ Hgn) as (n1 & nx1 & Es1).
    assert (Epar : params_ s1 = params_ s) by (subst s1; reflexivity).
    clear Es1. proj_simpl_in H.
    destruct (len (nalu_ s1) <=? maxPacketLength (params_ s)) eqn:Hle.
    + destruct (MAX_OUTBUF_SIZE <? len (nalu_ s1) + 12) eqn:Hov;
        [discriminate|].
      match type of H with
      | match ?c with _ => _ end = _ => destruct c as [out|] eqn:Hcp
      end; [|discriminate].
      injection H as <- <-.
      apply (copyNalu_zero_tail [_;_;_;_;_;_;_;_;_;_;_;_;_]
               (S (Z.to_nat (MAX_OUTBUF_SIZE - 14)))) in Hcp; [|reflexivity].
      destruct Hcp as (Hl & Hz). cbn [data size]. proj_simpl.
      split; [reflexivity|].
      cbn [length] in Hl. unfold MAX_OUTBUF_SIZE in *.
      split; [lia|]. intros i Hi. apply Hz. lia.
    + destruct (maxPacketLength (params_ s) =? 0) eqn:Hz0; [discriminate|].
      destruct (MAX_OUTBUF_SIZE <? maxPacketLength (params_ s) + 14) eqn:Hov;
        [discriminate|].
      destruct (Z.rem (len (nalu_ s1)) (maxPacketLength (params_ s)) =? 0);
        proj_simpl_in H;
        (match type of H with
         | match ?c with _ => _ end = _ => destruct c as [out|] eqn:Hcp
         end; [|discriminate]);
        injection H as <- <-;
        (apply (copyNalu_zero_tail [_;_;_;_;_;_;_;_;_;_;_;_;_;_]
                  (Z.to_nat (MAX_OUTBUF_SIZE - 14))) in Hcp; [|reflexivity]);
        destruct Hcp as (Hl & Hz); cbn [data size]; proj_simpl;
        (split; [reflexivity|]);
        cbn [length] in Hl; unfold MAX_OUTBUF_SIZE in *;
        (split; [lia|]); intros i Hi; apply Hz; lia.
  - proj_simpl_in H.
    destruct (fuIndex_ s =? fuCounter_ s) eqn:Hidx.
    + destruct (MAX_OUTBUF_SIZE <? lastFuSize_ s - 1 + 14) eqn:Hov;
        [discriminate|].
      match type of H with
      | match ?c with _ => _ end = _ => destruct c as [out|] eqn:Hcp
      end; [|discriminate].
      injection H as <- <-.
      apply (copyNalu_zero_tail [_;_;_;_;_;_;_;_;_;_;_;_;_;_]
               (Z.to_nat (MAX_OUTBUF_SIZE - 14))) in Hcp; [|reflexivity].
      destruct Hcp as (Hl & Hz). cbn [data size]. proj_simpl.
      split; [reflexivity|].
      cbn [length] in Hl. unfold MAX_OUTBUF_SIZE in *.
      split; [lia|]. intros i Hi. apply Hz. lia.
    + destruct (MAX_OUTBUF_SIZE <? maxPacketLength (params_ s) + 14) eqn:Hov;
        [discriminate|].
      match type of H with
      | match ?c with _ => _ end = _ => destruct c as [out|] eqn:Hcp
      end; [|discriminate].
      injection H as <- <-.
      apply (copyNalu_zero_tail [_;_;_;_;_;_;_;_;_;_;_;_;_;_]
               (Z.to_nat (MAX_OUTBUF_SIZE - 14))) in Hcp; [|reflexivity].
      destruct Hcp as (Hl & Hz). cbn [data size]. proj_simpl.
      split; [reflexivity|].
      cbn [length] in Hl. unfold MAX_OUTBUF_SIZE in *.
      split; [lia|]. intros i Hi. apply Hz. lia.
Qed.

Lemma packet_returned_in_place_witness :
  data (returned (fst (get 10 exampleB)))
  = Some (outBuffer_ (snd (get 10 exampleB))) /\
  Z.of_nat (length (outBuffer_ (snd (get 10 exampleB)))) = MAX_OUTBUF_SIZE /\
  forall i, size (returned (fst (get 10 exampleB))) <= i < MAX_OUTBUF_SIZE ->
            rd (outBuffer_ (snd (get 10 exampleB))) i = Some 0.
Proof.
  apply (packet_returned_in_place 10 exampleB
           (returned (fst (get 10 exampleB))) (snd (get 10 exampleB))).
  vm_compute. reflexivity.
Defined.

(** ** Byte streams *)

Lemma rd_app_r pre v i :
  0 <= i -> rd (pre ++ v) (Z.of_nat (length pre) + i) = rd v i.
Proof.
  intros Hi. unfold rd.
  destruct (Z.ltb_spec (Z.of_nat (length pre) + i) 0); [lia|].
  destruct (Z.ltb_spec i 0); [lia|].
  rewrite nth_error_app2 by lia. f_equal. lia.
Qed.

Lemma isStartCode3_shift pre v i :
  0 <= i ->
  isStartCode3 (pre ++ v) (Z.of_nat (length pre) + i) = isStartCode3 v i.
Proof.
  intros Hi. unfold isStartCode3.
  rewrite <- !Z.add_assoc, !rd_app_r by lia. reflexivity.
Qed.

Lemma isStartCode4_shift pre v i :
  0 <= i ->
  isStartCode4 (pre ++ v) (Z.of_nat (length pre) + i) = isStartCode4 v i.
Proof.
  intros Hi. unfold isStartCode4.
  rewrite <- !Z.add_assoc, !rd_app_r by lia. reflexivity.
Qed.

Lemma isStartCode_shift pre v i :
  0 <= i ->
  isStartCode (pre ++ v) (Z.of_nat (length pre) + i) = isStartCode v i.
Proof.
  intros Hi. unfold isStartCode.
  rewrite isStartCode3_shift, isStartCode4_shift by lia. reflexivity.
Qed.

Lemma startCodeLenAt_shift pre v i :
  0 <= i ->
  startCodeLenAt (pre ++ v) (Z.of_nat (length pre) + i) = startCodeLenAt v i.
Proof.
  intros Hi. unfold startCodeLenAt.
  rewrite isStartCode3_shift, isStartCode4_shift by lia. reflexivity.
Qed.

Lemma scanNext_step mem inBufferSize p :
  scanNext mem inBufferSize p
  = if Z_lt_dec (p + 1) inBufferSize then
      match isStartCode mem (p + 1) with
      | None => None
      | Some true => Some (p + 1, Some (p + 1))
      | Some false => scanNext mem inBufferSize (p + 1)
      end
    else Some (p + 1, None).
Proof.
  funelim (scanNext mem inBufferSize p).
  - destruct (Z_lt_dec (nextPtr + 1) inBufferSize); [lia | reflexivity].
  - destruct (Z_lt_dec (nextPtr + 1) inBufferSize); [|lia].
    rewrite Heq. reflexivity.
  - destruct (Z_lt_dec (nextPtr + 1) inBufferSize); [|lia].
    rewrite Heq. reflexivity.
  - destruct (Z_lt_dec (nextPtr + 1) inBufferSize); [|lia].
    rewrite Heq. reflexivity.
Qed.

(** The start of a stream is a start code. *)
Lemma annexB_starts units :
  units <> [] -> isStartCode (annexB units) 0 = Some true.
Proof.
  destruct units as [|[long u] rest]; [congruence|]. intros _.
  cbn [annexB]. destruct long; reflexivity.
Qed.

Lemma has001_tail b v : has001 (b :: v) = false -> has001 v = false.
Proof.
  cbn [has001]. intros H. apply orb_false_elim in H. apply H.
Qed.

Lemma isStartCode3_head l :
  isStartCode3 l 0
  = match l with
    | [] => None
    | b0 :: t =>
      if negb (b0 =? 0) then Some false else
      match t with
      | [] => None
      | b1 :: t' =>
        if negb (b1 =? 0) then Some false else
        match t' with
        | [] => None
        | b2 :: _ => Some (b2 =? 1)
        end
      end
    end.
Proof. destruct l as [|b0 [|b1 [|b2 l]]]; reflexivity. Qed.

Lemma isStartCode4_head l :
  isStartCode4 l 0
  = match l with
    | [] => None
    | b0 :: t =>
      if negb (b0 =? 0) then Some false else
      match t with
      | [] => None
      | b1 :: t' =>
        if negb (b1 =? 0) then Some false else
        match t' with
        | [] => None
        | b2 :: t'' =>
          if negb (b2 =? 0) then Some false else
          match t'' with
          | [] => None
          | b3 :: _ => Some (b3 =? 1)
          end
        end
      end
    end.
Proof. destruct l as [|b0 [|b1 [|b2 [|b3 l]]]]; reflexivity. Qed.

(** Inside a NAL unit no position tests as a start code, and the test
    reads no byte after the unit. *)
Lemma isStartCode_inside b v T :
  has001 (b :: v) = false -> last (b :: v) 0 <> 0 ->
  isStartCode ((b :: v) ++ T) 0 = Some false.
Proof.
  intros Hno Hlast.
  unfold isStartCode. rewrite isStartCode3_head, isStartCode4_head.
  cbn [app].
  destruct (Z.eqb_spec b 0) as [-> | Hb]; [|reflexivity]. cbn [negb].
  destruct v as [|b1 v]; [cbn in Hlast; congruence|]. cbn [app].
  destruct (Z.eqb_spec b1 0) as [-> | Hb1]; [|reflexivity]. cbn [negb].
  destruct v as [|b2 v]; [cbn in Hlast; congruence|]. cbn [app].
  cbn [has001] in Hno.
  apply orb_false_elim in Hno. destruct Hno as (Hno0 & Hno).
  destruct (b2 =? 1) eqn:E21; [cbn in Hno0; discriminate Hno0|].
  destruct (Z.eqb_spec b2 0) as [-> | Hb2]; [|reflexivity]. cbn [negb].
  destruct v as [|b3 v]; [cbn in Hlast; congruence|]. cbn [app].
  apply orb_false_elim in Hno. destruct Hno as (Hno1 & _).
  destruct (b3 =? 1) eqn:E31; [cbn in Hno1; discriminate Hno1|].
  reflexivity.
Qed.

(** The scanner's loop over the bytes [v] of a NAL unit that are left:
    it stops where the unit ends. *)
Lemma scanNext_unit T : forall v front p,
  has001 v = false -> (v = [] \/ last v 0 <> 0) ->
  (T = [] \/ isStartCode T 0 = Some true) ->
  p + 1 = Z.of_nat (length front) ->
  scanNext (front ++ v ++ T) (Z.of_nat (length (front ++ v ++ T))) p
  = Some (Z.of_nat (length (front ++ v)),
          match T with
          | [] => None
          | _ => Some (Z.of_nat (length (front ++ v)))
          end).
Proof.
  induction v as [|b v IH]; intros front p Hno Hlast HT Hp.
  - rewrite scanNext_step. cbn [app]. rewrite app_nil_r.
    destruct (Z_lt_dec (p + 1) (Z.of_nat (length (front ++ T)))) as [Hlt|Hge].
    + destruct T as [|t0 T'].
      { rewrite app_nil_r in Hlt. lia. }
      destruct HT as [HT|HT]; [discriminate|].
      replace (p + 1) with (Z.of_nat (length front) + 0) by lia.
      rewrite isStartCode_shift by lia. rewrite HT.
      f_equal. f_equal; [lia | f_equal; lia].
    + destruct T as [|t0 T'].
      * f_equal. f_equal. lia.
      * rewrite length_app in Hge. cbn [length] in Hge. lia.
  - rewrite scanNext_step.
    destruct (Z_lt_dec (p + 1) (Z.of_nat (length (front ++ (b :: v) ++ T))))
      as [Hlt|Hge].
    2:{ rewrite !length_app in Hge. cbn [length] in Hge. lia. }
    replace (p + 1) with (Z.of_nat (length front) + 0) at 1 by lia.
    rewrite isStartCode_shift by lia.
    rewrite isStartCode_inside;
      [| exact Hno | destruct Hlast as [Hl|Hl]; [discriminate | exact Hl]].
    replace (front ++ (b :: v) ++ T) with ((front ++ [b]) ++ v ++ T)
      by (rewrite <- app_assoc; reflexivity).
    rewrite (IH (front ++ [b]) (p + 1)).
    + replace ((front ++ [b]) ++ v) with (front ++ b :: v)
        by (rewrite <- app_assoc; reflexivity).
      reflexivity.
    + exact (has001_tail b v Hno).
    + destruct v as [|b1 v]; [left; reflexivity|]. right.
      destruct Hlast as [Hl|Hl]; [discriminate|]. exact Hl.
    + exact HT.
    + rewrite length_app. cbn [length]. lia.
Qed.

Lemma startCodeLenAt_startCode long rest :
  startCodeLenAt (startCode long ++ rest) 0
  = Some (Z.of_nat (length (startCode long))).
Proof.
  unfold startCodeLenAt. rewrite isStartCode3_head, isStartCode4_head.
  destruct long; reflexivity.
Qed.

(** The scanner on a byte stream: with the cursor on the start code of the
    NAL unit [h :: v], it returns this unit and leaves the cursor on the
    start code of the next one, or null after the last one. *)
Lemma getNextNalu_stream s pre long h v T :
  inBuffer_ s = Some (pre ++ startCode long ++ (h :: v) ++ T) ->
  inBufferSize_ s
  = Z.of_nat (length (pre ++ startCode long ++ (h :: v) ++ T)) ->
  nextNaluPtr_ s = Some (Z.of_nat (length pre)) ->
  has001 (h :: v) = false -> last (h :: v) 0 <> 0 ->
  (T = [] \/ isStartCode T 0 = Some true) ->
  getNextNalu s
  = Some (1,
          set_nalu_
            (mkNALU (Z.of_nat (length (startCode long)))
               (Some (Z.of_nat (length (pre ++ startCode long))))
               (Z.of_nat (length (h :: v)))
               (Z.shiftr (Z.land h 128) 7) (Z.shiftr (Z.land h 96) 5)
               (Z.land h 31))
            (set_nextNaluPtr_
               match T with
               | [] => None
               | _ => Some (Z.of_nat (length (pre ++ startCode long
                                                ++ h :: v)))
               end s)).
Proof.
  intros Hmem Hsz Hcur Hno Hlast HT.
  unfold getNextNalu. rewrite Hcur, Hmem, Hsz. cbv beta iota.
  replace (Z.of_nat (length pre)) with (Z.of_nat (length pre) + 0) at 1
    by lia.
  rewrite startCodeLenAt_shift by lia.
  rewrite startCodeLenAt_startCode. cbv beta iota.
  replace (Z.of_nat (length (startCode long)) <? 0) with false
    by (symmetry; apply Z.ltb_ge; lia).
  assert (Hre : pre ++ startCode long ++ (h :: v) ++ T
                = (pre ++ startCode long ++ [h]) ++ v ++ T).
  { rewrite <- !app_assoc. reflexivity. }
  rewrite Hre.
  rewrite (scanNext_unit T v (pre ++ startCode long ++ [h])
             (Z.of_nat (length pre) + Z.of_nat (length (startCode long)))).
  - cbv beta iota. cbn [fst snd].
    assert (Hrd : rd ((pre ++ startCode long ++ [h]) ++ v ++ T)
                     (Z.of_nat (length pre)
                      + Z.of_nat (length (startCode long))) = Some h).
    { rewrite <- Hre.
      replace (pre ++ startCode long ++ (h :: v) ++ T)
        with ((pre ++ startCode long) ++ (h :: v) ++ T)
        by (rewrite <- app_assoc; reflexivity).
      replace (Z.of_nat (length pre) + Z.of_nat (length (startCode long)))
        with (Z.of_nat (length (pre ++ startCode long)) + 0)
        by (rewrite length_app; lia).
      rewrite rd_app_r by lia. reflexivity. }
    rewrite Hrd. cbv beta iota zeta.
    assert (E1 : (pre ++ startCode long ++ [h]) ++ v
                 = pre ++ startCode long ++ h :: v)
      by (rewrite <- !app_assoc; reflexivity).
    rewrite E1.
    f_equal. f_equal. f_equal.
    + f_equal.
      * f_equal. rewrite length_app. lia.
      * rewrite !length_app. cbn [length]. lia.
  - exact (has001_tail h v Hno).
  - destruct v as [|b1 v]; [left; reflexivity|]. right. exact Hlast.
  - exact HT.
  - rewrite !length_app. cbn [length]. lia.
Qed.

(** ** Runs of calls that return packets *)

(** What no call of [get] changes. *)
Lemma get_frame now s o s' :
  get now s = (o, s') ->
  inBuffer_ s' = inBuffer_ s /\ inBufferSize_ s' = inBufferSize_ s /\
  params_ s' = params_ s /\ tsStartMillisec_ s' = tsStartMillisec_ s.
Proof.
  intros H. unfold get in H.
  destruct (inBufferComplete_ s) eqn:Hbc.
  { injection H as _ <-. repeat split; reflexivity. }
  cbv zeta in H.
  destruct (naluComplete_ s) eqn:Hnc.
  - destruct (getNextNalu s) as [[ret s1]|] eqn:Hgn;
      [|injection H as _ <-; repeat split; reflexivity].
    destruct (getNextNalu_frame _ _ _ Hgn) as (n1 & nx1 & Es1).
    assert (Hfr : inBuffer_ s1 = inBuffer_ s /\
                  inBufferSize_ s1 = inBufferSize_ s /\
                  params_ s1 = params_ s /\
                  tsStartMillisec_ s1 = tsStartMillisec_ s)
      by (subst s1; repeat split; reflexivity).
    clear Es1.
    destruct (ret <=? 0) eqn:Hret.
    { injection H as _ <-. proj_simpl. exact Hfr. }
    proj_simpl_in H.
    destruct (len (nalu_ s1) <=? maxPacketLength (params_ s)).
    + destruct (MAX_OUTBUF_SIZE <? len (nalu_ s1) + 12).
      * injection H as _ <-. proj_simpl. exact Hfr.
      * match type of H with
        | match ?c with _ => _ end = _ => destruct c
        end; injection H as _ <-; proj_simpl; exact Hfr.
    + destruct (maxPacketLength (params_ s) =? 0).
      { injection H as _ <-. proj_simpl. exact Hfr. }
      destruct (Z.rem (len (nalu_ s1)) (maxPacketLength (params_ s)) =? 0);
        (destruct (MAX_OUTBUF_SIZE <? maxPacketLength (params_ s) + 14);
         [ injection H as _ <-; proj_simpl; exact Hfr
         | proj_simpl_in H;
           match type of H with
           | match ?c with _ => _ end = _ => destruct c
           end; injection H as _ <-; proj_simpl; exact Hfr ]).
  - proj_simpl_in H.
    destruct (fuIndex_ s =? fuCounter_ s).
    + destruct (MAX_OUTBUF_SIZE <? lastFuSize_ s - 1 + 14).
      * injection H as _ <-. proj_simpl. repeat split; reflexivity.
      * match type of H with
        | match ?c with _ => _ end = _ => destruct c
        end; injection H as _ <-; proj_simpl; repeat split; reflexivity.
    + destruct (MAX_OUTBUF_SIZE <? maxPacketLength (params_ s) + 14).
      * injection H as _ <-. proj_simpl. repeat split; reflexivity.
      * match type of H with
        | match ?c with _ => _ end = _ => destruct c
        end; injection H as _ <-; proj_simpl; repeat split; reflexivity.
Qed.

(** A run of calls that all return packets. *)
Lemma gets_packets params n1 : forall s pkts,
  Inv params s ->
  map emitted (fst (gets n1 s)) = map Some pkts ->
  Inv params (snd (gets n1 s)) /\
  inBuffer_ (snd (gets n1 s)) = inBuffer_ s /\
  inBufferSize_ (snd (gets n1 s)) = inBufferSize_ s /\
  pendingCalls (snd (gets n1 s)) + Z.of_nat (length n1) <= pendingCalls s /\
  forall n2,
    map bytesOf (sent (drain (n1 ++ n2) s))
    = pkts ++ map bytesOf (sent (drain n2 (snd (gets n1 s)))) /\
    ending (drain (n1 ++ n2) s) = ending (drain n2 (snd (gets n1 s))).
Proof.
  induction n1 as [|now rest IH]; intros s pkts Hinv Hem.
  - rewrite gets_nil in *. cbn [fst snd] in *.
    destruct pkts; [|discriminate].
    split; [exact Hinv|]. split; [reflexivity|]. split; [reflexivity|].
    split; [cbn [length]; lia|]. intros n2. split; reflexivity.
  - destruct (get now s) as [o s1] eqn:Hget.
    rewrite (fst_gets_step now rest s o s1 Hget) in Hem.
    rewrite (snd_gets_step now rest s o s1 Hget).
    destruct pkts as [|p pkts]; [discriminate|].
    cbn [map] in Hem. injection Hem as Ho Hem.
    destruct o as [b | | w | ]; try discriminate.
    cbn [emitted] in Ho. injection Ho as Ho.
    assert (Hinv1 : Inv params s1).
    { apply (Inv_get params now s (Packet b) s1 Hinv Hget). discriminate. }
    destruct (IH s1 pkts Hinv1 Hem) as (Hi & Hb & Hz & Hp & Hd).
    destruct (get_frame now s _ s1 Hget) as (Hb1 & Hz1 & _).
    destruct (pendingCalls_packet params now s b s1 Hinv Hget) as (_ & Hlt).
    split; [exact Hi|]. split; [congruence|]. split; [congruence|].
    split; [cbn [length]; lia|].
    intros n2. destruct (Hd n2) as (Hs & He).
    change ((now :: rest) ++ n2) with (now :: rest ++ n2).
    rewrite drain_step, Hget. cbn [sent ending map].
    rewrite Hs, He, Ho. split; reflexivity.
Qed.

(** ** The receiver *)

Lemma depacketize_whole acc m sq ts ssrc hb payload rest :
  Z.land hb 31 <> 28 ->
  depacketize acc ((rtpHeader m sq ts ssrc ++ [hb] ++ payload) :: rest)
  = (hb :: payload) :: depacketize None rest.
Proof.
  intros Ht. cbn [depacketize].
  change (pktByte (rtpHeader m sq ts ssrc ++ [hb] ++ payload) 12) with hb.
  destruct (Z.eqb_spec (Z.land hb 31) 28) as [E|_]; [contradiction|].
  reflexivity.
Qed.

Lemma depacketize_fragment acc m sq ts ssrc b12 b13 payload rest :
  Z.land b12 31 = 28 ->
  depacketize acc ((rtpHeader m sq ts ssrc ++ [b12; b13] ++ payload) :: rest)
  = let p := rtpHeader m sq ts ssrc ++ [b12; b13] ++ payload in
    let acc' := if Z.testbit b13 7
                then Some (fuNalHeader p :: payload)
                else option_map (fun a => a ++ payload) acc in
    if Z.testbit b13 6 then
      match acc' with
      | Some u => u :: depacketize None rest
      | None => depacketize None rest
      end
    else depacketize acc' rest.
Proof.
  intros Ht. cbn [depacketize].
  rewrite (proj1 (fu_bytes m sq ts ssrc b12 b13 payload)), Ht.
  change (28 =? 28) with true. cbv iota.
  destruct (fu_bits m sq ts ssrc b12 b13 payload) as (-> & ->).
  rewrite fuPayload_form. reflexivity.
Qed.

Lemma depacketize_next mem n d max last ts ssrc later k :
  forall acc seq i,
  Z.land (fuIndicatorByte n) 31 = 28 ->
  depacketize (Some acc)
    (nextFragments k mem n d max last ts ssrc seq i ++ later)
  = (acc ++ concat (map fuPayload
                      (nextFragments k mem n d max last ts ssrc seq i)))
    :: depacketize None later.
Proof.
  induction k as [|k IH]; intros acc seq i Ht.
  - cbn [nextFragments map concat].
    rewrite <- app_comm_cons, app_nil_l.
    rewrite depacketize_fragment by exact Ht. cbv zeta.
    destruct (fuHeaderNext_bits 1 n) as (-> & ->).
    rewrite fuPayload_form, app_nil_r. reflexivity.
  - cbn [nextFragments map concat].
    rewrite <- app_comm_cons.
    rewrite depacketize_fragment by exact Ht. cbv zeta.
    destruct (fuHeaderNext_bits 0 n) as (-> & ->).
    cbn [option_map Z.testbit]. rewrite IH by exact Ht.
    rewrite fuPayload_form, app_assoc. reflexivity.
Qed.

(** The receiver rebuilds a fragmented NAL unit: its header byte and its
    bytes from offset 1. *)
Lemma depacketize_fuPackets acc mem n d max ts ssrc seq later h :
  0 <= d -> 1 <= max < len n ->
  0 <= h < 256 ->
  forbiddenBit n = Z.shiftr (Z.land h 128) 7 ->
  nalRefIdc n = Z.shiftr (Z.land h 96) 5 ->
  nalUnitType n = Z.land h 31 ->
  depacketize acc (fuPackets mem n d max ts ssrc seq ++ later)
  = (h :: slice mem (d + 1) (len n - 1)) :: depacketize None later.
Proof.
  intros Hd Hmax Hh Ef En Et.
  pose proof (fuPackets_concat mem n d max ts ssrc seq Hd Hmax) as Hc.
  destruct (fu_rebuild n h (fuHeaderFirst n) Hh Ef En Et
              (or_introl eq_refl)) as (H28 & _ & Hreb).
  unfold fuPackets in *. cbn [map concat] in Hc.
  rewrite <- app_comm_cons.
  rewrite depacketize_fragment by exact H28. cbv zeta.
  destruct (fuHeaderFirst_bits n) as (-> & ->).
  rewrite depacketize_next by exact H28.
  rewrite fuPayload_form in Hc.
  unfold fuNalHeader, fuType.
  rewrite (proj1 (fu_bytes _ _ _ _ _ _ _)), (proj2 (fu_bytes _ _ _ _ _ _ _)).
  rewrite Hreb. cbn [app]. rewrite Hc. reflexivity.
Qed.

Lemma slice_unit front h v T :
  slice (front ++ (h :: v) ++ T) (Z.of_nat (length front) + 1)
    (Z.of_nat (length (h :: v)) - 1) = v.
Proof.
  unfold slice.
  replace (Z.to_nat (Z.of_nat (length front) + 1)) with (length front + 1)%nat
    by lia.
  replace (Z.to_nat (Z.of_nat (length (h :: v)) - 1)) with (length v)
    by (cbn [length]; lia).
  rewrite skipn_app, skipn_all2 by lia.
  replace (length front + 1 - length front)%nat with 1%nat by lia.
  cbn [app skipn]. rewrite firstn_app, firstn_all, Nat.sub_diag.
  cbn [firstn]. apply app_nil_r.
Qed.

(** ** A byte stream through the packetizer and the receiver *)

Lemma isNalUnit_inv u :
  isNalUnit u = true ->
  exists h v,
    u = h :: v /\ has001 (h :: v) = false /\ last (h :: v) 0 <> 0 /\
    0 <= h < 256 /\ Z.land h 31 <> 28.
Proof.
  unfold isNalUnit. intros H.
  apply andb_prop in H. destruct H as (H & Ht).
  apply andb_prop in H. destruct H as (H & Hb).
  apply andb_prop in H. destruct H as (Hl & Hn).
  destruct u as [|h v]; [discriminate Hl|].
  exists h, v. split; [reflexivity|].
  split; [destruct (has001 (h :: v)); [discriminate | reflexivity]|].
  split.
  { intros E. rewrite E in Hl. discriminate. }
  cbn [forallb] in Hb. apply andb_prop in Hb. destruct Hb as (Hb & _).
  split; [lia|].
  cbn [hd] in Ht. intros E. rewrite E in Ht. discriminate.
Qed.

Lemma annexB_tail rest :
  (rest = [] /\ annexB rest = []) \/
  (rest <> [] /\ annexB rest <> [] /\
   isStartCode (annexB rest) 0 = Some true).
Proof.
  destruct rest as [|[long u] rest]; [left; split; reflexivity|].
  right. split; [discriminate|]. split.
  - cbn [annexB]. destruct long; discriminate.
  - apply annexB_starts. discriminate.
Qed.

Lemma pendingCalls_stream s pre long u T :
  inBufferComplete_ s = false -> naluComplete_ s = true ->
  inBufferSize_ s = Z.of_nat (length (pre ++ startCode long ++ u ++ T)) ->
  nextNaluPtr_ s = Some (Z.of_nat (length pre)) ->
  Z.of_nat (length u) + 5 <= pendingCalls s.
Proof.
  intros Hbc Hnc Hsz Hcur. unfold pendingCalls.
  rewrite Hbc, Hnc, Hcur, Hsz, !length_app.
  destruct long; cbn [startCode length]; lia.
Qed.

Lemma drain_stream params : forall units pre s nows,
  Inv params s ->
  1 <= maxPacketLength params ->
  maxPacketLength params + 14 <= MAX_OUTBUF_SIZE ->
  Forall (fun lu => isNalUnit (snd lu) = true) units ->
  inBufferComplete_ s = false -> naluComplete_ s = true ->
  inBuffer_ s = Some (pre ++ annexB units) ->
  inBufferSize_ s = Z.of_nat (length (pre ++ annexB units)) ->
  nextNaluPtr_ s = match units with
                   | [] => None
                   | _ => Some (Z.of_nat (length pre))
                   end ->
  pendingCalls s <= Z.of_nat (length nows) ->
  ending (drain nows s) = Drained /\
  depacketize None (map bytesOf (sent (drain nows s))) = map snd units.
Proof.
  induction units as [|[long u] rest IH];
    intros pre s nows Hinv Hmax Hfit Hu Hbc Hnc Hmem Hsz Hcur Hn.
  - pose proof (pendingCalls_pos params s Hinv) as Hpos.
    destruct nows as [|now nows]; [cbn [length] in Hn; lia|].
    assert (Hgn : getNextNalu s = Some (0, s))
      by (unfold getNextNalu; rewrite Hcur; reflexivity).
    destruct (get_scan_failed now s 0 Hbc Hnc Hgn ltac:(lia)) as (out & Hget).
    rewrite drain_step, Hget. split; reflexivity.
  - inversion Hu as [|x l Hu1 Hu2]; subst x l. cbn [snd] in Hu1.
    destruct (isNalUnit_inv u Hu1) as (h & v & -> & Hno & Hlast & Hh & Ht).
    cbn [annexB] in Hmem, Hsz. cbn [map snd].
    assert (HT : annexB rest = [] \/ isStartCode (annexB rest) 0 = Some true).
    { destruct (annexB_tail rest) as [(_ & E) | (_ & _ & E)];
        [left | right]; exact E. }
    pose proof (pendingCalls_stream s pre long (h :: v) (annexB rest)
                  Hbc Hnc Hsz Hcur) as Hpc.
    pose proof (getNextNalu_stream s pre long h v (annexB rest)
                  Hmem Hsz Hcur Hno Hlast HT) as Hgn.
    match type of Hgn with
    | _ = Some (1, ?t) => remember t as s1 eqn:Es1
    end.
    assert (Hf : params_ s1 = params /\
                 len (nalu_ s1) = Z.of_nat (length (h :: v)) /\
                 ndata (nalu_ s1)
                 = Some (Z.of_nat (length (pre ++ startCode long))) /\
                 inBuffer_ s1
                 = Some (pre ++ startCode long ++ (h :: v) ++ annexB rest) /\
                 nextNaluPtr_ s1
                 = match rest with
                   | [] => None
                   | _ => Some (Z.of_nat
                                  (length (pre ++ startCode long ++ h :: v)))
                   end /\
                 forbiddenBit (nalu_ s1) = Z.shiftr (Z.land h 128) 7 /\
                 nalRefIdc (nalu_ s1) = Z.shiftr (Z.land h 96) 5 /\
                 nalUnitType (nalu_ s1) = Z.land h 31).
    { subst s1. proj_simpl.
      split; [exact (inv_params _ _ Hinv)|]. split; [reflexivity|].
      split; [reflexivity|]. split; [exact Hmem|].
      split; [|repeat split; reflexivity].
      destruct (annexB_tail rest) as [(-> & ->) | (Hr & Ha & _)];
        [reflexivity|].
      destruct rest; [congruence|].
      destruct (annexB (p :: rest)); [congruence | reflexivity]. }
    clear Es1.
    destruct Hf as (Hpar & Hlen & Hdata & Hmem1 & Hcur1 & Ef & En & Et).
    assert (Hre : (pre ++ startCode long ++ h :: v) ++ annexB rest
                  = pre ++ startCode long ++ (h :: v) ++ annexB rest)
      by (rewrite <- !app_assoc; reflexivity).
    assert (Hre2 : pre ++ startCode long ++ (h :: v) ++ annexB rest
                   = (pre ++ startCode long) ++ (h :: v) ++ annexB rest)
      by (rewrite <- !app_assoc; reflexivity).
    destruct nows as [|now nows]; [cbn [length] in Hn; lia|].
    destruct (Z_le_gt_dec (len (nalu_ s1)) (maxPacketLength (params_ s1)))
      as [Hle|Hgt].
    + destruct (get_whole now s 1 s1 Hbc Hnc Hgn ltac:(lia) Hle
                  ltac:(rewrite Hpar in Hle; lia))
        as (mem & d & out & Hmem' & Hdata' & Hget & Hfn).
      assert (mem = pre ++ startCode long ++ (h :: v) ++ annexB rest)
        by congruence.
      assert (d = Z.of_nat (length (pre ++ startCode long))) by congruence.
      subst mem d.
      match type of Hget with
      | _ = (_, ?t) => remember t as s2 eqn:Es2
      end.
      destruct (getNextNalu_frame _ _ _ Hgn) as (n0 & nx0 & Es1).
      assert (Hf2 : inBufferComplete_ s2 = false /\
                    naluComplete_ s2 = true /\
                    inBuffer_ s2 = inBuffer_ s1 /\
                    inBufferSize_ s2 = inBufferSize_ s /\
                    nextNaluPtr_ s2 = nextNaluPtr_ s1).
      { subst s2 s1. proj_simpl. repeat split; try reflexivity. exact Hbc. }
      clear Es2 Es1.
      destruct Hf2 as (Hbc2 & Hnc2 & Hmem2 & Hsz2 & Hcur2).
      assert (Hinv2 : Inv params s2).
      { apply (Inv_get params now s _ s2 Hinv Hget). discriminate. }
      destruct (pendingCalls_packet params now s _ s2 Hinv Hget) as (_ & Hlt).
      rewrite drain_step, Hget. cbn [sent ending map].
      unfold bytesOf at 1. cbn [data size]. rewrite Hfn.
      rewrite depacketize_whole.
      2:{ unfold naluHeaderByte. rewrite Ef, En, Et.
          rewrite naluHeader_roundtrip by exact Hh. exact Ht. }
      destruct (IH (pre ++ startCode long ++ h :: v) s2 nows Hinv2 Hmax Hfit
                  Hu2 Hbc2 Hnc2) as (He & Hd).
      * rewrite Hmem2, Hmem1, Hre. reflexivity.
      * rewrite Hsz2, Hsz, Hre. reflexivity.
      * rewrite Hcur2, Hcur1. reflexivity.
      * cbn [length] in Hn. lia.
      * split; [exact He|]. rewrite Hd. f_equal.
        unfold naluHeaderByte. rewrite Ef, En, Et.
        rewrite naluHeader_roundtrip by exact Hh. f_equal.
        rewrite Hlen, Hre2. apply slice_unit.
    + assert (Hmax1 : 1 <= maxPacketLength (params_ s1) < len (nalu_ s1))
        by (rewrite Hpar; rewrite Hpar in Hgt; lia).
      assert (Hfit1 : maxPacketLength (params_ s1) + 14 <= MAX_OUTBUF_SIZE)
        by (rewrite Hpar; exact Hfit).
      pose proof (fuCount_lt _ _ Hmax1) as Hk.
      pose proof (fu_arith _ _ Hmax1) as (_ & _ & Hk1).
      assert (Hsplit : nows
                       = firstn (Z.to_nat (fuCount (len (nalu_ s1))
                                   (maxPacketLength (params_ s1)))) nows
                         ++ skipn (Z.to_nat (fuCount (len (nalu_ s1))
                                     (maxPacketLength (params_ s1)))) nows)
        by (symmetry; apply firstn_skipn).
      remember (firstn (Z.to_nat (fuCount (len (nalu_ s1))
                          (maxPacketLength (params_ s1)))) nows) as n1.
      remember (skipn (Z.to_nat (fuCount (len (nalu_ s1))
                         (maxPacketLength (params_ s1)))) nows) as n2.
      assert (Hn1 : Z.of_nat (length n1)
                    = fuCount (len (nalu_ s1)) (maxPacketLength (params_ s1))).
      { subst n1. rewrite length_firstn. cbn [length] in Hn. lia. }
      destruct (gets_fuPackets now n1 s 1 s1 Hbc Hnc Hgn ltac:(lia)
                  Hmax1 Hfit1 Hn1)
        as (mem & d & Hmem' & Hdata' & Hd0 & Hin & Hem & Hnc' & Hbc' & Hcur'
            & _).
      assert (mem = pre ++ startCode long ++ (h :: v) ++ annexB rest)
        by congruence.
      assert (d = Z.of_nat (length (pre ++ startCode long))) by congruence.
      subst mem d.
      destruct (gets_packets params (now :: n1) s _ Hinv Hem)
        as (Hinv' & Hb' & Hz' & Hp' & Hdr).
      destruct (Hdr n2) as (Hs & He).
      change ((now :: n1) ++ n2) with (now :: n1 ++ n2) in Hs, He.
      rewrite <- Hsplit in Hs, He.
      rewrite Hs, He.
      rewrite (depacketize_fuPackets None _ (nalu_ s1) _ _ _ _ _ _ h
                 Hd0 Hmax1 Hh Ef En Et).
      destruct (IH (pre ++ startCode long ++ h :: v)
                  (snd (gets (now :: n1) s)) n2 Hinv' Hmax Hfit
                  Hu2 Hbc' Hnc') as (He2 & Hd2).
      * rewrite Hb', Hmem, Hre. reflexivity.
      * rewrite Hz', Hsz, Hre. reflexivity.
      * rewrite Hcur', Hcur1. reflexivity.
      * assert (Hl2 : (length nows = length n1 + length n2)%nat)
          by (rewrite Hsplit at 1; apply length_app).
        cbn [length] in Hn, Hp'. lia.
      * split; [exact He2|]. rewrite Hd2. f_equal. f_equal.
        rewrite Hlen, Hre2. apply slice_unit.
Qed.

(** X16.  A byte stream of NAL units, each after a start code of 3 or 4
    bytes, goes through the packetizer and the receiver unchanged: given
    with its true size to a packetizer with [1 <= maxPacketLength] and room
    for the headers, the caller's loop ends normally, and from the packets
    it was handed the receiver rebuilds the NAL units, all of them, in
    order, whether they were sent whole or in fragments. *)
Theorem stream_round_trip params s units nows :
  reachable params s ->
  1 <= maxPacketLength params ->
  maxPacketLength params + 14 <= MAX_OUTBUF_SIZE ->
  units <> [] ->
  forallb (fun lu => isNalUnit (snd lu)) units = true ->
  2 + Z.of_nat (length (annexB units)) <= Z.of_nat (length nows) ->
  ending (drain nows
            (put (mkBuffer (Some (annexB units))
                    (Z.of_nat (length (annexB units)))) s))
  = Drained /\
  depacketize None
    (map bytesOf
       (sent (drain nows
                (put (mkBuffer (Some (annexB units))
                        (Z.of_nat (length (annexB units)))) s))))
  = map snd units.
Proof.
  intros Hr Hmax Hfit Hne Hu Hn.
  pose proof (Inv_put params
                (mkBuffer (Some (annexB units))
                   (Z.of_nat (length (annexB units)))) s
                (reachable_Inv params s Hr)) as Hinv.
  apply (drain_stream params units [] _ nows Hinv Hmax Hfit).
  - apply Forall_forall. intros lu Hin.
    rewrite forallb_forall in Hu. exact (Hu lu Hin).
  - reflexivity.
  - reflexivity.
  - reflexivity.
  - reflexivity.
  - unfold put. proj_simpl. cbn [data].
    destruct units; [congruence | reflexivity].
  - rewrite put_pendingCalls. cbn [data size]. lia.
Qed.

Lemma stream_round_trip_witness :
  ending (drain (repeat 10 20)
            (put (mkBuffer (Some (annexB exampleUnits))
                    (Z.of_nat (length (annexB exampleUnits))))
               (Impl_new smallParams 0)))
  = Drained /\
  depacketize None
    (map bytesOf
       (sent (drain (repeat 10 20)
                (put (mkBuffer (Some (annexB exampleUnits))
                        (Z.of_nat (length (annexB exampleUnits))))
                   (Impl_new smallParams 0)))))
  = map snd exampleUnits.
Proof.
  apply (stream_round_trip smallParams (Impl_new smallParams 0) exampleUnits
           (repeat 10 20)).
  - apply reach_new.
  - vm_compute. discriminate.
  - vm_compute. discriminate.
  - discriminate.
  - reflexivity.
  - vm_compute. discriminate.
Defined.

Example exampleUnits_packets :
  map bytesOf
    (sent (drain (repeat 10 20)
             (put (mkBuffer (Some (annexB exampleUnits))
                     (Z.of_nat (length (annexB exampleUnits))))
                (Impl_new smallParams 0))))
  = [ [128; 96; 0; 0; 0; 0; 3; 132; 0; 0; 4; 210; 124; 133; 1; 2; 3; 4];
      [128; 224; 0; 1; 0; 0; 3; 132; 0; 0; 4; 210; 124; 69; 5];
      [128; 224; 0; 2; 0; 0; 3; 132; 0; 0; 4; 210; 65; 9; 8] ].
Proof. vm_compute. reflexivity. Qed.

(** * The timestamp overlay *)

(** ** What a drawing changes *)

Lemma Drawn_refl P image : Drawn P image image.
Proof. split; [reflexivity|]. intros o. left. reflexivity. Qed.

Lemma Drawn_trans P Q R a b c :
  Drawn P a b -> Drawn Q b c ->
  (forall o, P o -> R o) -> (forall o, Q o -> R o) ->
  Drawn R a c.
Proof.
  intros (Hl1 & H1) (Hl2 & H2) HP HQ. split; [congruence|].
  intros o. destruct (H2 o) as [E2 | (Hq & Hv)].
  - destruct (H1 o) as [E1 | (Hp & Hv)].
    + left. congruence.
    + right. split; [exact (HP o Hp)|]. rewrite E2. exact Hv.
  - right. split; [exact (HQ o Hq) | exact Hv].
Qed.

Lemma rd_upd mem i f o :
  (i < length mem)%nat ->
  rd (upd mem i f) o
  = if o =? Z.of_nat i then option_map f (rd mem o) else rd mem o.
Proof.
  unfold rd. destruct (Z.ltb_spec o 0) as [Hn|Hn].
  { intros _. destruct (Z.eqb_spec o (Z.of_nat i)); [lia | reflexivity]. }
  revert i o Hn. induction mem as [|b t IH]; intros i o Hn Hi.
  { cbn [length] in Hi. lia. }
  destruct i as [|i].
  - cbn [upd]. destruct (Z.eqb_spec o (Z.of_nat 0)) as [E|E].
    + replace (Z.to_nat o) with 0%nat by lia. reflexivity.
    + destruct (Z.to_nat o) as [|k] eqn:Ek; [lia | reflexivity].
  - cbn [upd]. cbn [length] in Hi.
    destruct (Z.to_nat o) as [|k] eqn:Ek.
    + cbn [nth_error].
      destruct (Z.eqb_spec o (Z.of_nat (S i))); [lia | reflexivity].
    + cbn [nth_error].
      specialize (IH i (Z.of_nat k) ltac:(lia) ltac:(lia)).
      rewrite Nat2Z.id in IH. rewrite IH.
      destruct (Z.eqb_spec (Z.of_nat k) (Z.of_nat i)) as [E|E];
        destruct (Z.eqb_spec o (Z.of_nat (S i))) as [E'|E'];
        try reflexivity; lia.
Qed.

Lemma wr_Drawn image i v image' :
  wr image i v = Some image' -> v = 0 \/ v = 255 ->
  0 <= i < Z.of_nat (length image) /\
  Drawn (fun o => o = i) image image'.
Proof.
  unfold wr. intros H Hv.
  destruct (Z.ltb_spec i 0) as [Hn|Hn]; [discriminate|].
  destruct (Z.leb_spec (Z.of_nat (length image)) i) as [Hl|Hl];
    [discriminate|].
  cbn [orb] in H. injection H as <-.
  split; [lia|]. split; [apply upd_length|].
  intros o. rewrite rd_upd by lia.
  destruct (Z.eqb_spec o (Z.of_nat (Z.to_nat i))) as [E|E];
    [|left; reflexivity].
  right. split; [lia|].
  destruct (rd_within image o ltac:(lia)) as (b & ->). cbn [option_map].
  destruct Hv as [-> | ->]; [left | right]; reflexivity.
Qed.

Lemma drawPixel_Drawn image ptr c image' :
  drawPixel image ptr c = Some image' ->
  Drawn (fun o => o = ptr) image image'.
Proof.
  unfold drawPixel. intros H.
  destruct (c =? 1).
  - apply (wr_Drawn image ptr 0 image' H). left; reflexivity.
  - destruct (c =? 2).
    + apply (wr_Drawn image ptr 255 image' H). right; reflexivity.
    + injection H as <-. apply Drawn_refl.
Qed.

Lemma drawRow_Drawn x : forall image ptr glyph cp image',
  drawRow x image ptr glyph cp = Some image' ->
  Drawn (fun o => ptr <= o < ptr + Z.of_nat x) image image'.
Proof.
  induction x as [|x IH]; intros image ptr glyph cp image' H.
  - injection H as <-. apply Drawn_refl.
  - cbn [drawRow] in H.
    destruct (rd glyph cp) as [c|]; [|discriminate].
    destruct (drawPixel image ptr c) as [image1|] eqn:E1; [|discriminate].
    apply (Drawn_trans _ _ _ _ _ _ (drawPixel_Drawn _ _ _ _ E1)
             (IH _ _ _ _ _ H)); intros o Ho; lia.
Qed.

Lemma drawChar_Drawn cols lineOffset y : forall image ptr glyph cp image',
  drawChar y cols lineOffset image ptr glyph cp = Some image' ->
  Drawn (fun o => exists j x,
                    0 <= j < Z.of_nat y /\ 0 <= x < Z.of_nat cols /\
                    o = ptr + j * (Z.of_nat cols + lineOffset) + x)
    image image'.
Proof.
  induction y as [|y IH]; intros image ptr glyph cp image' H.
  - injection H as <-. apply Drawn_refl.
  - cbn [drawChar] in H.
    destruct (drawRow cols image ptr glyph cp) as [image1|] eqn:E1;
      [|discriminate].
    apply (Drawn_trans _ _ _ _ _ _ (drawRow_Drawn _ _ _ _ _ _ E1)
             (IH _ _ _ _ _ H)).
    + intros o Ho. exists 0, (o - ptr). lia.
    + intros o (j & x & Hj & Hx & ->). exists (j + 1), x. lia.
Qed.

Lemma drawChars_Drawn rows cols lineOffset nextCharOffs arr text n :
  forall pos image ptr image',
  drawChars n pos rows cols lineOffset nextCharOffs arr image ptr text
  = Some image' ->
  Drawn (fun o => exists k j x,
                    0 <= k < Z.of_nat n /\ 0 <= j < Z.of_nat rows /\
                    0 <= x < Z.of_nat cols /\
                    o = ptr
                        + k * (Z.of_nat rows * (Z.of_nat cols + lineOffset)
                               - nextCharOffs)
                        + j * (Z.of_nat cols + lineOffset) + x)
    image image'.
Proof.
  induction n as [|n IH]; intros pos image ptr image' H.
  - injection H as <-. apply Drawn_refl.
  - cbn [drawChars] in H.
    destruct (rd text pos) as [t|]; [|discriminate].
    cbv zeta in H.
    destruct (nth_error arr _) as [glyph|]; [|discriminate].
    destruct (drawChar rows cols lineOffset image ptr glyph 0)
      as [image1|] eqn:E1; [|discriminate].
    apply (Drawn_trans _ _ _ _ _ _ (drawChar_Drawn _ _ _ _ _ _ _ _ E1)
             (IH _ _ _ _ H)).
    + intros o (j & x & Hj & Hx & ->). exists 0, j, x. lia.
    + intros o (k & j & x & Hk & Hj & Hx & ->). exists (k + 1), j, x. lia.
Qed.

(** ** Drawing inside the image *)

Lemma drawPixel_defined image ptr c :
  0 <= ptr < Z.of_nat (length image) ->
  exists image', drawPixel image ptr c = Some image'.
Proof.
  intros Hp. unfold drawPixel, wr.
  replace ((ptr <? 0) || (Z.of_nat (length image) <=? ptr)) with false.
  - destruct (c =? 1); [eexists; reflexivity|].
    destruct (c =? 2); eexists; reflexivity.
  - symmetry. apply orb_false_intro; [apply Z.ltb_ge | apply Z.leb_gt]; lia.
Qed.

Lemma drawRow_defined x : forall image ptr glyph cp,
  0 <= ptr -> ptr + Z.of_nat x <= Z.of_nat (length image) ->
  0 <= cp -> cp + Z.of_nat x <= Z.of_nat (length glyph) ->
  exists image', drawRow x image ptr glyph cp = Some image'.
Proof.
  induction x as [|x IH]; intros image ptr glyph cp Hp Hi Hc Hg.
  - eexists; reflexivity.
  - cbn [drawRow].
    destruct (rd_within glyph cp ltac:(lia)) as (c & ->).
    destruct (drawPixel_defined image ptr c ltac:(lia)) as (image1 & E1).
    rewrite E1.
    destruct (drawPixel_Drawn _ _ _ _ E1) as (Hl & _).
    apply IH; lia.
Qed.

Lemma drawChar_defined cols lineOffset y : forall image ptr glyph cp,
  0 <= Z.of_nat cols + lineOffset ->
  0 <= ptr ->
  ptr + Z.of_nat y * (Z.of_nat cols + lineOffset) - lineOffset
  <= Z.of_nat (length image) \/ y = O ->
  0 <= cp -> cp + Z.of_nat y * Z.of_nat cols <= Z.of_nat (length glyph) ->
  exists image', drawChar y cols lineOffset image ptr glyph cp = Some image'.
Proof.
  induction y as [|y IH]; intros image ptr glyph cp Hw Hp Hi Hc Hg.
  - eexists; reflexivity.
  - cbn [drawChar].
    destruct Hi as [Hi|Hi]; [|discriminate].
    destruct (drawRow_defined cols image ptr glyph cp Hp ltac:(nia) Hc
                ltac:(nia)) as (image1 & E1).
    rewrite E1.
    destruct (drawRow_Drawn _ _ _ _ _ _ E1) as (Hl & _).
    apply IH; try lia; try nia.
Qed.

Lemma drawChars_defined rows cols lineOffset nextCharOffs arr text n :
  forall pos image ptr,
  0 <= Z.of_nat cols + lineOffset ->
  0 <= Z.of_nat rows * (Z.of_nat cols + lineOffset) - nextCharOffs ->
  (0 < rows)%nat ->
  0 <= ptr ->
  ptr + (Z.of_nat n - 1)
        * (Z.of_nat rows * (Z.of_nat cols + lineOffset) - nextCharOffs)
      + Z.of_nat rows * (Z.of_nat cols + lineOffset) - lineOffset
  <= Z.of_nat (length image) ->
  0 <= pos -> pos + Z.of_nat n <= Z.of_nat (length text) ->
  length arr = Z.to_nat ASCII_MAX ->
  (forall glyph, In glyph arr ->
                 Z.of_nat rows * Z.of_nat cols <= Z.of_nat (length glyph)) ->
  exists image',
    drawChars n pos rows cols lineOffset nextCharOffs arr image ptr text
    = Some image'.
Proof.
  induction n as [|n IH]; intros pos image ptr Hw Ha Hr Hp Hi Hpos Ht Harr Hg.
  - eexists; reflexivity.
  - cbn [drawChars].
    destruct (rd_within text pos ltac:(lia)) as (t & ->). cbv zeta.
    set (posCheck := if ASCII_MAX <=? u8 t then 32 else u8 t).
    assert (Hpc : 0 <= posCheck < ASCII_MAX).
    { unfold posCheck, u8, ASCII_MAX.
      pose proof (Z.mod_pos_bound t 256 ltac:(lia)).
      destruct (Z.leb_spec 127 (t mod 256)); lia. }
    destruct (nth_error arr (Z.to_nat posCheck)) as [glyph|] eqn:Eg.
    2:{ apply nth_error_None in Eg. unfold ASCII_MAX in *. lia. }
    pose proof (Hg glyph (nth_error_In _ _ Eg)) as Hgl.
    destruct (drawChar_defined cols lineOffset rows image ptr glyph 0
                Hw Hp ltac:(left; nia) ltac:(lia) ltac:(lia))
      as (image1 & E1).
    rewrite E1.
    destruct (drawChar_Drawn _ _ _ _ _ _ _ _ E1) as (Hl & _).
    apply IH; try assumption; try lia; try (rewrite Hl; nia).
Qed.

(** ** The arithmetic of [drawTextN] *)

Lemma i32_small z : - 2 ^ 31 <= z < 2 ^ 31 -> i32 z = z.
Proof.
  intros H. unfold i32. rewrite Z.mod_small by lia. lia.
Qed.

Lemma u32_small z : 0 <= z < 2 ^ 32 -> u32 z = z.
Proof. intros H. unfold u32. apply Z.mod_small. exact H. Qed.

(** The clipped length, where nothing wraps around. *)
Lemma clippedLen_min startX width len factor :
  factor = 0 \/ factor = 1 ->
  0 <= startX < width -> width < 2 ^ 27 -> 0 <= len < 2 ^ 27 ->
  clippedLen startX width len factor
  = Some (Z.min len ((width - startX - 1) / (6 * (factor + 1)))) /\
  startX + 6 * (factor + 1)
           * Z.min len ((width - startX - 1) / (6 * (factor + 1)))
  <= width - 1.
Proof.
  intros Hf Hx Hw Hl.
  assert (Hd : 0 < 6 * (factor + 1) <= 12) by lia.
  pose proof (Z.mul_div_le (width - startX - 1) (6 * (factor + 1))
                ltac:(lia)) as Hq.
  pose proof (Z.div_pos (width - startX - 1) (6 * (factor + 1))
                ltac:(lia) ltac:(lia)) as Hq0.
  assert (Hq1 : (width - startX - 1) / (6 * (factor + 1)) < 2 ^ 27).
  { apply Z.div_lt_upper_bound; nia. }
  split.
  2:{ destruct (Z.min_spec len ((width - startX - 1) / (6 * (factor + 1))))
        as [(Hlt & ->) | (Hge & ->)]; nia. }
  unfold clippedLen.
  replace ((len * 6 <? - 2 ^ 31) || (2 ^ 31 <=? len * 6)) with false
    by (symmetry; apply orb_false_intro;
        [apply Z.ltb_ge | apply Z.leb_gt]; lia).
  rewrite (u32_small (startX + len * 6 * (factor + 1))) by nia.
  rewrite (u32_small (6 * (factor + 1))) by lia.
  rewrite (u32_small (width - startX - 1)) by lia.
  rewrite i32_small by lia.
  replace (6 * (factor + 1) =? 0) with false
    by (symmetry; apply Z.eqb_neq; lia).
  destruct (Z.leb_spec width (startX + len * 6 * (factor + 1))) as [Hc|Hc].
  - f_equal. symmetry. apply Z.min_r.
    apply Z.lt_le_incl. apply Z.div_lt_upper_bound; nia.
  - f_equal. symmetry. apply Z.min_l.
    apply Z.div_le_lower_bound; nia.
Qed.

Lemma drawTextN_strides width factor :
  factor = 0 \/ factor = 1 ->
  7 * (factor + 1) <= width < 2 ^ 27 ->
  Z.to_nat (u32 (8 * (factor + 1))) = Z.to_nat (8 * (factor + 1)) /\
  Z.to_nat (u32 (7 * (factor + 1))) = Z.to_nat (7 * (factor + 1)) /\
  i32 (width - 7 * (factor + 1)) = width - 7 * (factor + 1) /\
  i32 (width * 8 * (factor + 1) - 6 * (factor + 1))
  = width * 8 * (factor + 1) - 6 * (factor + 1).
Proof.
  intros Hf Hw.
  rewrite (u32_small (8 * (factor + 1))) by lia.
  rewrite (u32_small (7 * (factor + 1))) by lia.
  rewrite !i32_small by nia.
  repeat split; reflexivity.
Qed.

(** ** The lookup tables *)

Lemma lookup_checked : allBelow 127 lookupCheck = true.
Proof. vm_compute. reflexivity. Qed.

(** X17.  [initializeChars] stays inside its arrays, and the lookup tables
    it builds have a glyph for every character code below 127: the glyph
    of the entry of [drawTable] with this code, or the first glyph of the
    table (the blank) when there is none.  A small glyph has 56 pixels with
    values 0, 1 and 2; the big glyph of the same character has 224 pixels,
    pixel (y, x) being pixel (y / 2, x / 2) of the small one. *)
Theorem lookup_tables c :
  0 <= c < ASCII_MAX ->
  initializeChars <> None /\
  exists small big,
    nth_error smallCharArrPtr (Z.to_nat c) = Some small /\
    nth_error bigCharArrPtr (Z.to_nat c) = Some big /\
    small = glyphOf (pix (glyphEntry c)) /\
    length small = 56%nat /\ length big = 224%nat /\
    (forall v, In v small -> v = 0 \/ v = 1 \/ v = 2) /\
    (forall y x, (y < 16)%nat -> (x < 14)%nat ->
       nth (14 * y + x) big 0 = nth (7 * (y / 2) + x / 2) small 0).
Proof.
  intros Hc. split; [vm_compute; discriminate|].
  pose proof (allBelow_spec 127 lookupCheck lookup_checked c Hc) as H.
  unfold lookupCheck in H.
  destruct (nth_error smallCharArrPtr (Z.to_nat c)) as [small|];
    [|discriminate].
  destruct (nth_error bigCharArrPtr (Z.to_nat c)) as [big|];
    [|discriminate].
  apply andb_prop in H. destruct H as (H & Hbig).
  apply andb_prop in H. destruct H as (H & Heq).
  apply andb_prop in H. destruct H as (H & Hval).
  apply andb_prop in H. destruct H as (Hls & Hlb).
  apply Nat.eqb_eq in Hls, Hlb.
  exists small, big. split; [reflexivity|]. split; [reflexivity|].
  assert (Hlen : length (glyphOf (pix (glyphEntry c))) = 56%nat).
  { clear - Hc. revert c Hc.
    assert (Hall : allBelow 127
                     (fun c => Nat.eqb (length (glyphOf (pix (glyphEntry c))))
                                 56) = true) by (vm_compute; reflexivity).
    intros c Hc. apply Nat.eqb_eq.
    exact (allBelow_spec 127 _ Hall c Hc). }
  split.
  { apply (nth_ext _ _ 0 0); [congruence|].
    intros i Hi. rewrite forallb_forall in Heq.
    assert (Hin : In (nth i small 0, nth i (glyphOf (pix (glyphEntry c))) 0)
                     (combine small (glyphOf (pix (glyphEntry c))))).
    { rewrite <- (combine_nth small (glyphOf (pix (glyphEntry c))) i 0 0)
        by congruence.
      apply nth_In. rewrite length_combine. lia. }
    specialize (Heq _ Hin). cbn [fst snd] in Heq.
    apply Z.eqb_eq in Heq. exact Heq. }
  split; [exact Hls|]. split; [exact Hlb|]. split.
  { intros v Hv. rewrite forallb_forall in Hval. specialize (Hval v Hv).
    apply orb_prop in Hval. destruct Hval as [Hval | Hval].
    - apply orb_prop in Hval. destruct Hval as [Hval | Hval];
        apply Z.eqb_eq in Hval; auto.
    - apply Z.eqb_eq in Hval. auto. }
  intros y x Hy Hx. rewrite forallb_forall in Hbig.
  specialize (Hbig y ltac:(apply in_seq; lia)).
  rewrite forallb_forall in Hbig.
  specialize (Hbig x ltac:(apply in_seq; lia)).
  apply Z.eqb_eq in Hbig. exact Hbig.
Qed.

Lemma lookup_tables_witness :
  initializeChars <> None /\
  exists small big,
    nth_error smallCharArrPtr (Z.to_nat 49) = Some small /\
    nth_error bigCharArrPtr (Z.to_nat 49) = Some big /\
    small = glyphOf (pix (glyphEntry 49)) /\
    length small = 56%nat /\ length big = 224%nat /\
    (forall v, In v small -> v = 0 \/ v = 1 \/ v = 2) /\
    (forall y x, (y < 16)%nat -> (x < 14)%nat ->
       nth (14 * y + x) big 0 = nth (7 * (y / 2) + x / 2) small 0).
Proof.
  apply (lookup_tables 49). vm_compute. split; [discriminate | reflexivity].
Defined.

Lemma charArrPtr_sizes factor :
  factor = 0 \/ factor = 1 ->
  length (if factor =? 0 then smallCharArrPtr else bigCharArrPtr)
  = Z.to_nat ASCII_MAX /\
  forall glyph,
    In glyph (if factor =? 0 then smallCharArrPtr else bigCharArrPtr) ->
    8 * (factor + 1) * (7 * (factor + 1)) <= Z.of_nat (length glyph).
Proof.
  intros [-> | ->]; cbn [Z.eqb Z.add Z.mul Pos.mul Pos.add Pos.eqb].
  - split; [vm_compute; reflexivity|].
    assert (H : forallb (fun g => 56 <=? Z.of_nat (length g)) smallCharArrPtr
                = true) by (vm_compute; reflexivity).
    rewrite forallb_forall in H. intros g Hg. specialize (H g Hg).
    apply Z.leb_le in H. lia.
  - split; [vm_compute; reflexivity|].
    assert (H : forallb (fun g => 224 <=? Z.of_nat (length g)) bigCharArrPtr
                = true) by (vm_compute; reflexivity).
    rewrite forallb_forall in H. intros g Hg. specialize (H g Hg).
    apply Z.leb_le in H. lia.
Qed.

(** ** [drawTextN] *)

(** The cells of [drawTextN]: one per character, [8 (factor + 1)] rows by
    [7 (factor + 1)] columns, [6 (factor + 1)] columns apart. *)
Lemma drawTextN_footprint image startX startY width text len factor image' :
  factor = 0 \/ factor = 1 ->
  7 * (factor + 1) <= width < 2 ^ 27 ->
  0 <= startY * width < 2 ^ 32 ->
  drawTextN image startX startY width text len factor = Some image' ->
  exists n,
    clippedLen (shiftedStartX startX width len factor) width len factor
    = Some n /\
    Drawn (fun o => exists k j x,
                      0 <= k < n /\ 0 <= j < 8 * (factor + 1) /\
                      0 <= x < 7 * (factor + 1) /\
                      o = shiftedStartX startX width len factor
                          + startY * width
                          + k * (6 * (factor + 1)) + j * width + x)
      image image'.
Proof.
  intros Hf Hw Hy H. unfold drawTextN in H. cbv zeta in H.
  destruct (clippedLen (shiftedStartX startX width len factor) width len
              factor) as [n|]; [|discriminate].
  exists n. split; [reflexivity|].
  destruct (drawTextN_strides width factor Hf Hw) as (Er & Ec & El & En).
  rewrite Er, Ec, El, En, (u32_small (startY * width)) in H by exact Hy.
  apply drawChars_Drawn in H.
  destruct H as (Hl & Hd). split; [exact Hl|].
  intros o. destruct (Hd o) as [E | ((k & j & x & Hk & Hj & Hx & Ho) & Hv)];
    [left; exact E|].
  right. split; [|exact Hv].
  exists k, j, x. split; [lia|]. split; [lia|]. split; [lia|].
  rewrite Ho. rewrite !Z2Nat.id by lia. ring.
Qed.

(** X18.  [drawTextN] draws each character in a cell of [8 (factor + 1)]
    rows by [7 (factor + 1)] columns, the cells [6 (factor + 1)] columns
    apart, from the (shifted) start position on; it changes no pixel
    outside these cells, and a pixel it changes becomes black (0) or white
    (255).  The image keeps its size. *)
Theorem drawTextN_cells image startX startY width text len factor image' :
  factor = 0 \/ factor = 1 ->
  7 * (factor + 1) <= width < 2 ^ 27 ->
  0 <= startY * width < 2 ^ 32 ->
  drawTextN image startX startY width text len factor = Some image' ->
  length image' = length image /\
  forall o,
    rd image' o <> rd image o ->
    (rd image' o = Some 0 \/ rd image' o = Some 255) /\
    exists n k j x,
      clippedLen (shiftedStartX startX width len factor) width len factor
      = Some n /\
      0 <= k < n /\ 0 <= j < 8 * (factor + 1) /\
      0 <= x < 7 * (factor + 1) /\
      o = shiftedStartX startX width len factor + startY * width
          + k * (6 * (factor + 1)) + j * width + x.
Proof.
  intros Hf Hw Hy H.
  destruct (drawTextN_footprint image startX startY width text len factor
              image' Hf Hw Hy H) as (n & Hc & Hl & Hd).
  split; [exact Hl|].
  intros o Ho.
  destruct (Hd o) as [E | ((k & j & x & Hk & Hj & Hx & Eo) & Hv)];
    [contradiction|].
  split; [exact Hv|].
  exists n, k, j, x. repeat split; try assumption; lia.
Qed.

Lemma drawTextN_cells_witness :
  length (match drawTextN (repeat 7 (10 * 20)) 1 1 20 [49; 0] 1 0 with
          | Some image' => image'
          | None => []
          end)
  = length (repeat 7 (10 * 20)) /\
  forall o,
    rd (match drawTextN (repeat 7 (10 * 20)) 1 1 20 [49; 0] 1 0 with
        | Some image' => image'
        | None => []
        end) o <> rd (repeat 7 (10 * 20)) o ->
    (rd (match drawTextN (repeat 7 (10 * 20)) 1 1 20 [49; 0] 1 0 with
         | Some image' => image'
         | None => []
         end) o = Some 0 \/
     rd (match drawTextN (repeat 7 (10 * 20)) 1 1 20 [49; 0] 1 0 with
         | Some image' => image'
         | None => []
         end) o = Some 255) /\
    exists n k j x,
      clippedLen (shiftedStartX 1 20 1 0) 20 1 0 = Some n /\
      0 <= k < n /\ 0 <= j < 8 * (0 + 1) /\ 0 <= x < 7 * (0 + 1) /\
      o = shiftedStartX 1 20 1 0 + 1 * 20 + k * (6 * (0 + 1)) + j * 20 + x.
Proof.
  apply (drawTextN_cells (repeat 7 (10 * 20)) 1 1 20 [49; 0] 1 0).
  - left. reflexivity.
  - vm_compute. split; [discriminate | reflexivity].
  - vm_compute. split; [discriminate | reflexivity].
  - vm_compute. reflexivity.
Defined.

(** Where the characters fit the row from the shifted start on, the
    drawing is defined and stays in its rows. *)
Lemma drawTextN_fits image startX startY width text len factor n :
  factor = 0 \/ factor = 1 ->
  7 * (factor + 1) <= width < 2 ^ 27 ->
  clippedLen (shiftedStartX startX width len factor) width len factor
  = Some n ->
  0 <= n <= len ->
  0 <= shiftedStartX startX width len factor ->
  shiftedStartX startX width len factor + 6 * (factor + 1) * n <= width - 1 ->
  0 <= startY -> (startY + 8 * (factor + 1)) * width < 2 ^ 32 ->
  (startY + 8 * (factor + 1)) * width + factor
  <= Z.of_nat (length image) ->
  len <= Z.of_nat (length text) ->
  exists image',
    drawTextN image startX startY width text len factor = Some image' /\
    Drawn (fun o => exists j c,
                      0 <= j < 8 * (factor + 1) /\
                      shiftedStartX startX width len factor <= c
                      <= shiftedStartX startX width len factor
                         + 6 * (factor + 1) * n + factor /\
                      o = (startY + j) * width + c)
      image image'.
Proof.
  intros Hf Hw Hc Hn Hsx Hfit Hy0 Hy Hi Ht.
  set (sx := shiftedStartX startX width len factor) in *.
  destruct (drawTextN_strides width factor Hf Hw) as (Er & Ec & El & En).
  destruct (charArrPtr_sizes factor Hf) as (Harr & Hg).
  assert (Hdef : exists image',
             drawTextN image startX startY width text len factor
             = Some image').
  { unfold drawTextN. cbv zeta. fold sx. rewrite Hc.
    rewrite Er, Ec, El, En, (u32_small (startY * width)) by nia.
    apply drawChars_defined.
    - rewrite Z2Nat.id by lia. lia.
    - rewrite !Z2Nat.id by lia. nia.
    - lia.
    - nia.
    - rewrite !Z2Nat.id by lia.
      replace (8 * (factor + 1)
               * (7 * (factor + 1) + (width - 7 * (factor + 1)))
               - (width * 8 * (factor + 1) - 6 * (factor + 1)))
        with (6 * (factor + 1)) by ring.
      destruct (Z.eq_dec n 0) as [E0|E0]; nia.
    - lia.
    - rewrite Z2Nat.id by lia. lia.
    - exact Harr.
    - intros glyph Hin. rewrite !Z2Nat.id by lia. exact (Hg glyph Hin). }
  destruct Hdef as (image' & Hdraw). exists image'.
  split; [exact Hdraw|].
  destruct (drawTextN_footprint image startX startY width text len factor
              image' Hf Hw ltac:(nia) Hdraw) as (n' & Hc' & Hl' & Hd).
  fold sx in Hc', Hd. assert (n' = n) by congruence. subst n'.
  split; [exact Hl'|].
  intros o. destruct (Hd o) as [E | ((k & j & x & Hk & Hj & Hx' & Ho) & Hv)];
    [left; exact E|].
  right. split; [|exact Hv].
  exists j, (sx + k * (6 * (factor + 1)) + x).
  split; [lia|]. split; [nia|]. rewrite Ho. ring.
Qed.

(** X19.  Text that starts in the left half of a row stays in its rows:
    [drawTextN] draws [min len ((width - startX - 1) / (6 (factor + 1)))]
    characters, and every pixel it changes lies in one of the
    [8 (factor + 1)] rows from [startY] on, in a column from [startX] to
    [width - 1 + factor].  With the small font no pixel is drawn beyond the
    end of its row; with the big font the last glyph can reach one pixel
    further, the first pixel of the next row.  When the image holds these
    rows and the text has [len] characters, nothing is read or written out
    of bounds. *)
Theorem drawTextN_in_rows image startX startY width text len factor :
  factor = 0 \/ factor = 1 ->
  7 * (factor + 1) <= width < 2 ^ 27 ->
  0 <= startX <= width / 2 ->
  0 <= startY -> (startY + 8 * (factor + 1)) * width < 2 ^ 32 ->
  (startY + 8 * (factor + 1)) * width + factor
  <= Z.of_nat (length image) ->
  0 <= len < 2 ^ 27 -> len <= Z.of_nat (length text) ->
  exists image',
    drawTextN image startX startY width text len factor = Some image' /\
    Drawn (fun o => exists j c,
                      0 <= j < 8 * (factor + 1) /\
                      startX <= c <= width - 1 + factor /\
                      c <= startX
                           + 6 * (factor + 1)
                             * Z.min len ((width - startX - 1)
                                          / (6 * (factor + 1)))
                           + factor /\
                      o = (startY + j) * width + c)
      image image'.
Proof.
  intros Hf Hw Hx Hy0 Hy Hi Hl Ht.
  assert (Hhalf : width / 2 < width)
    by (apply Z.div_lt_upper_bound; lia).
  assert (Hsx : shiftedStartX startX width len factor = startX).
  { unfold shiftedStartX.
    destruct (Z.ltb_spec (width / 2) startX); [lia | reflexivity]. }
  destruct (clippedLen_min startX width len factor Hf ltac:(lia) ltac:(lia)
              Hl) as (Hc & Hfit).
  set (n := Z.min len ((width - startX - 1) / (6 * (factor + 1)))) in *.
  assert (Hn : 0 <= n <= len).
  { unfold n. pose proof (Z.div_pos (width - startX - 1) (6 * (factor + 1))
                            ltac:(lia) ltac:(lia)). lia. }
  destruct (drawTextN_fits image startX startY width text len factor n
              Hf Hw ltac:(rewrite Hsx; exact Hc) Hn ltac:(rewrite Hsx; lia)
              ltac:(rewrite Hsx; exact Hfit) Hy0 Hy Hi Ht)
    as (image' & Hdraw & Hl' & Hd).
  exists image'. split; [exact Hdraw|]. split; [exact Hl'|].
  rewrite Hsx in Hd.
  intros o. destruct (Hd o) as [E | ((j & c & Hj & Hc' & Ho) & Hv)];
    [left; exact E|].
  right. split; [|exact Hv].
  exists j, c. split; [lia|]. split; [lia|]. split; [lia | exact Ho].
Qed.

Lemma drawTextN_in_rows_witness :
  exists image',
    drawTextN (repeat 7 (10 * 20)) 1 1 20 [49; 50; 51; 0] 3 0 = Some image' /\
    Drawn (fun o => exists j c,
                      0 <= j < 8 * (0 + 1) /\
                      1 <= c <= 20 - 1 + 0 /\
                      c <= 1 + 6 * (0 + 1)
                               * Z.min 3 ((20 - 1 - 1) / (6 * (0 + 1)))
                           + 0 /\
                      o = (1 + j) * 20 + c)
      (repeat 7 (10 * 20)) image'.
Proof.
  apply (drawTextN_in_rows (repeat 7 (10 * 20)) 1 1 20 [49; 50; 51; 0] 3 0).
  - left. reflexivity.
  - vm_compute. split; [discriminate | reflexivity].
  - vm_compute. split; discriminate.
  - lia.
  - vm_compute. reflexivity.
  - vm_compute. discriminate.
  - vm_compute. split; [discriminate | reflexivity].
  - vm_compute. discriminate.
Defined.

(** With the big font, two characters from column 2 of a row of 27 pixels:
    the second glyph reaches column 27, the first pixel of the next row. *)
Example big_font_reaches_next_row :
  exists image',
    drawTextN (repeat 7 (18 * 27)) 2 1 27 [78; 78; 0] 2 1 = Some image' /\
    rd (repeat 7 (18 * 27)) (4 * 27 + 0) = Some 7 /\
    rd image' (4 * 27 + 0) = Some 0.
Proof. eexists. split; [vm_compute; reflexivity|]. split; reflexivity. Qed.

(** ** [drawTextFull] *)

Lemma countNl_none s : strstr s = None -> countNl s = 0.
Proof.
  intros H. funelim (countNl s); first [congruence | reflexivity].
Qed.

Lemma drawLines_none image startX startY width s factor lineSpace :
  strstr s = None ->
  drawLines image startX startY width s factor lineSpace
  = drawTextN image startX startY width (s ++ [0]) (Z.of_nat (length s))
      factor.
Proof.
  intros H.
  funelim (drawLines image startX startY width s factor lineSpace);
    first [congruence | reflexivity].
Qed.

(** Without a separator, [drawTextFull] is one call of [drawTextN]. *)
Lemma drawTextFull_none image startX startY width text factor :
  strstr text = None -> 0 <= startY < 2 ^ 32 ->
  drawTextFull image startX startY width text factor
  = drawTextN image startX startY width (text ++ [0])
      (Z.of_nat (length text)) factor.
Proof.
  intros Hs Hy. unfold drawTextFull. cbv zeta.
  rewrite (countNl_none text Hs), Z.mul_0_r, Z.sub_0_r.
  change ((0 <? - 2 ^ 31) || (2 ^ 31 <=? 0)) with false. cbv iota.
  rewrite u32_small by exact Hy.
  apply drawLines_none. exact Hs.
Qed.

(** X20.  A text without the two characters backslash and n is drawn by
    one call of [drawTextN], with all its characters, at the configured
    position: the line separator of [drawTextFull] is this pair of
    characters, and a newline character (code 10) is a character like any
    other. *)
Theorem drawText_single_line params image text :
  strstr text = None ->
  0 <= startX params < 2 ^ 32 -> 0 <= startY params < 2 ^ 32 ->
  0 <= videoWidth params < 2 ^ 32 -> 0 <= factor params < 2 ^ 32 ->
  drawText params image text
  = drawTextN image (startX params) (startY params) (videoWidth params)
      (text ++ [0]) (Z.of_nat (length text)) (factor params).
Proof.
  intros Hs Hx Hy Hw Hf. unfold drawText.
  rewrite !u32_small by assumption.
  apply drawTextFull_none; assumption.
Qed.

Lemma drawText_single_line_witness :
  drawText (mkTimestampParams 1 1 20 0) (repeat 7 (10 * 20)) [49; 10; 50]
  = drawTextN (repeat 7 (10 * 20)) 1 1 20 ([49; 10; 50] ++ [0])
      (Z.of_nat (length [49; 10; 50])) 0.
Proof.
  apply (drawText_single_line (mkTimestampParams 1 1 20 0)
           (repeat 7 (10 * 20)) [49; 10; 50]).
  - reflexivity.
  - vm_compute. split; [discriminate | reflexivity].
  - vm_compute. split; [discriminate | reflexivity].
  - vm_compute. split; [discriminate | reflexivity].
  - vm_compute. split; [discriminate | reflexivity].
Defined.

(** X21.  With the default parameters, [draw] puts a timestamp of up to
    104 characters into rows 10 to 17 of a frame 640 pixels wide, from
    column 10 on, six columns per character: when the image holds these 18
    rows, nothing is accessed out of bounds, and no pixel outside this
    band changes. *)
Theorem draw_default image timestamp :
  strstr timestamp = None ->
  (length timestamp <= 104)%nat ->
  18 * 640 <= Z.of_nat (length image) ->
  exists image',
    draw defaultTimestampParams image timestamp = Some image' /\
    Drawn (fun o => exists j c,
                      0 <= j < 8 /\
                      10 <= c <= 10 + 6 * Z.of_nat (length timestamp) /\
                      o = (10 + j) * 640 + c)
      image image'.
Proof.
  intros Hs Hl Hi. unfold draw, drawText.
  cbn [startX startY videoWidth factor defaultTimestampParams].
  rewrite !u32_small by lia.
  rewrite (drawTextFull_none image 10 10 640 timestamp 0 Hs) by lia.
  assert (Hsx : shiftedStartX 10 640 (Z.of_nat (length timestamp)) 0 = 10)
    by reflexivity.
  destruct (clippedLen_min 10 640 (Z.of_nat (length timestamp)) 0)
    as (Hc & _); [left; reflexivity | lia | lia | lia |].
  change ((640 - 10 - 1) / (6 * (0 + 1))) with 104 in Hc.
  rewrite Z.min_l in Hc by lia.
  destruct (drawTextN_fits image 10 10 640 (timestamp ++ [0])
              (Z.of_nat (length timestamp)) 0 (Z.of_nat (length timestamp)))
    as (image' & Hd & Hl' & Hdr).
  - left. reflexivity.
  - lia.
  - rewrite Hsx. exact Hc.
  - lia.
  - rewrite Hsx. lia.
  - rewrite Hsx. lia.
  - lia.
  - lia.
  - lia.
  - rewrite length_app. cbn [length]. lia.
  - exists image'. split; [exact Hd|]. split; [exact Hl'|].
    rewrite Hsx in Hdr.
    intros o. destruct (Hdr o) as [E | ((j & c & Hj & Hc' & Ho) & Hv)];
      [left; exact E|].
    right. split; [|exact Hv]. exists j, c.
    split; [lia|]. split; [lia | exact Ho].
Qed.

Lemma draw_default_witness :
  exists image',
    draw defaultTimestampParams (repeat 7 (18 * 640)) [49; 50] = Some image' /\
    Drawn (fun o => exists j c,
                      0 <= j < 8 /\
                      10 <= c <= 10 + 6 * Z.of_nat (length [49; 50]) /\
                      o = (10 + j) * 640 + c)
      (repeat 7 (18 * 640)) image'.
Proof.
  apply (draw_default (repeat 7 (18 * 640)) [49; 50]).
  - reflexivity.
  - cbn [length]. lia.
  - rewrite repeat_length. lia.
Defined.

(** ** Several lines *)

Lemma strstr_join l rest :
  strstr l = None -> strstr (l ++ 92 :: 110 :: rest) = Some (length l).
Proof.
  induction l as [|c t IH]; intros H; [reflexivity|].
  cbn [strstr] in H. cbn [app strstr length].
  destruct ((c =? 92) && (hd 0 t =? 110)) eqn:E; [discriminate|].
  destruct (strstr t) as [e|] eqn:Et; [discriminate|].
  assert (E' : (c =? 92) && (hd 0 (t ++ 92 :: 110 :: rest) =? 110) = false).
  { destruct t as [|d t]; [|exact E].
    cbn [app hd]. apply andb_false_r. }
  rewrite E', (IH eq_refl). reflexivity.
Qed.

Lemma skipn_join l rest :
  skipn (length l + 2) (l ++ 92 :: 110 :: rest) = rest.
Proof.
  rewrite skipn_app, skipn_all2 by lia.
  replace (length l + 2 - length l)%nat with 2%nat by lia. reflexivity.
Qed.

Lemma strstr_joinNl l rest :
  strstr l = None -> rest <> [] ->
  strstr (joinNl (l :: rest)) = Some (length l) /\
  skipn (length l + 2) (joinNl (l :: rest)) = joinNl rest.
Proof.
  intros H Hr. destruct rest as [|l2 rest]; [congruence|].
  cbn [joinNl]. split; [apply strstr_join; exact H | apply skipn_join].
Qed.

Lemma countNl_joinNl lines :
  lines <> [] -> Forall (fun l => strstr l = None) lines ->
  countNl (joinNl lines) = Z.of_nat (length lines) - 1.
Proof.
  induction lines as [|l rest IH]; intros Hne Hall; [congruence|].
  inversion Hall as [|x y Hl Hrest]; subst x y.
  destruct rest as [|l2 rest].
  - cbn [joinNl length]. rewrite countNl_none by exact Hl. reflexivity.
  - destruct (strstr_joinNl l (l2 :: rest) Hl ltac:(discriminate))
      as (Hs & Hk).
    funelim (countNl (joinNl (l :: l2 :: rest))); [|congruence].
    assert (e = length l) by congruence. subst e.
    rewrite Hk, IH by (try discriminate; exact Hrest).
    cbn [length]. lia.
Qed.

Lemma drawLines_step image startX startY width s factor lineSpace e :
  strstr s = Some e ->
  drawLines image startX startY width s factor lineSpace
  = match drawTextN image startX startY width (s ++ [0]) (Z.of_nat e)
            factor with
    | Some image' =>
      drawLines image' startX (u32 (startY + lineSpace)) width
        (skipn (e + 2) s) factor lineSpace
    | None => None
    end.
Proof.
  intros H.
  funelim (drawLines image startX startY width s factor lineSpace);
    try congruence.
  - assert (e0 = e) by congruence. subst e0. rewrite Heq. reflexivity.
  - assert (e0 = e) by congruence. subst e0. rewrite Heq. reflexivity.
Qed.

Lemma drawLines_joinNl startX width factor lineSpace lines :
  forall image y,
  lines <> [] -> Forall (fun l => strstr l = None) lines ->
  0 <= y -> 0 <= lineSpace ->
  y + lineSpace * (Z.of_nat (length lines) - 1) < 2 ^ 32 ->
  drawLines image startX y width (joinNl lines) factor lineSpace
  = drawStacked image startX y width lines factor lineSpace.
Proof.
  induction lines as [|l rest IH]; intros image y Hne Hall Hy Hls Hb;
    [congruence|].
  inversion Hall as [|a b Hl Hrest]; subst a b.
  destruct rest as [|l2 rest].
  - cbn [joinNl drawStacked]. rewrite drawLines_none by exact Hl.
    destruct (drawTextN image startX y width (l ++ [0])
                (Z.of_nat (length l)) factor); reflexivity.
  - destruct (strstr_joinNl l (l2 :: rest) Hl ltac:(discriminate))
      as (Hs & Hk).
    rewrite (drawLines_step _ _ _ _ _ _ _ _ Hs), Hk.
    cbn [drawStacked].
    destruct (drawTextN image startX y width
                (joinNl (l :: l2 :: rest) ++ [0]) (Z.of_nat (length l))
                factor) as [image1|]; [|reflexivity].
    cbn [length] in Hb.
    rewrite u32_small by nia.
    apply IH; try discriminate; try assumption; try nia.
    cbn [length]. nia.
Qed.

(** X22.  Lines separated by backslash and n are drawn one under the
    other, [9 (factor + 1)] rows apart, the last one at [startY] and the
    others above it, each by one call of [drawTextN] with the length of
    its line; this needs [startY] to be at least [9 (factor + 1)] times the
    number of separators (otherwise the row of the first line wraps
    around), and below [2 ^ 31]. *)
Theorem drawTextFull_lines image startX startY width lines factor :
  lines <> [] -> Forall (fun l => strstr l = None) lines ->
  factor = 0 \/ factor = 1 ->
  9 * (factor + 1) * (Z.of_nat (length lines) - 1) <= startY < 2 ^ 31 ->
  drawTextFull image startX startY width (joinNl lines) factor
  = drawStacked image startX
      (startY - 9 * (factor + 1) * (Z.of_nat (length lines) - 1)) width
      lines (factor) (9 * (factor + 1)).
Proof.
  intros Hne Hall Hf Hy. unfold drawTextFull. cbv zeta.
  rewrite (countNl_joinNl lines Hne Hall).
  assert (Hlen : 1 <= Z.of_nat (length lines))
    by (destruct lines; [congruence | cbn [length]; lia]).
  rewrite (i32_small ((factor + 1) * 9)) by lia.
  replace (((factor + 1) * 9 * (Z.of_nat (length lines) - 1) <? - 2 ^ 31)
           || (2 ^ 31 <=? (factor + 1) * 9 * (Z.of_nat (length lines) - 1)))
    with false
    by (symmetry; apply orb_false_intro;
        [apply Z.ltb_ge | apply Z.leb_gt]; nia).
  rewrite u32_small by nia.
  replace ((factor + 1) * 9) with (9 * (factor + 1)) by ring.
  apply drawLines_joinNl; try assumption; try nia.
Qed.

Lemma drawTextFull_lines_witness :
  drawTextFull (repeat 7 (20 * 20)) 1 10 20
    (joinNl [[49; 50]; [51]]) 0
  = drawStacked (repeat 7 (20 * 20)) 1
      (10 - 9 * (0 + 1) * (Z.of_nat (length [[49; 50]; [51]]) - 1)) 20
      [[49; 50]; [51]] 0 (9 * (0 + 1)).
Proof.
  apply (drawTextFull_lines (repeat 7 (20 * 20)) 1 10 20 [[49; 50]; [51]] 0).
  - discriminate.
  - repeat constructor.
  - left. reflexivity.
  - vm_compute. split; [discriminate | reflexivity].
Defined.

Example two_lines_drawn :
  exists image',
    drawTextFull (repeat 7 (20 * 20)) 1 10 20 [49; 50; 92; 110; 51] 0
    = Some image' /\
    rd image' (1 * 20 + 4) = Some 0 /\ rd image' (10 * 20 + 3) = Some 0.
Proof.
  eexists. split; [vm_compute; reflexivity|]. split; reflexivity.
Qed.

(** ** Text that starts in the right half of a row *)

(** X23.  Text that starts in the right half of a row is drawn to the left
    of its start column: when its [6 (factor + 1) len] columns fit between
    the left edge and [startX], all [len] characters are drawn, in columns
    from [startX - 6 (factor + 1) len] to [startX + factor], in their rows,
    and nothing is accessed out of bounds. *)
Theorem drawTextN_right_aligned image startX startY width text len factor :
  factor = 0 \/ factor = 1 ->
  7 * (factor + 1) <= width < 2 ^ 27 ->
  width / 2 < startX < width ->
  0 <= len -> 6 * (factor + 1) * len <= startX ->
  0 <= startY -> (startY + 8 * (factor + 1)) * width < 2 ^ 32 ->
  (startY + 8 * (factor + 1)) * width + factor
  <= Z.of_nat (length image) ->
  len <= Z.of_nat (length text) ->
  exists image',
    drawTextN image startX startY width text len factor = Some image' /\
    Drawn (fun o => exists j c,
                      0 <= j < 8 * (factor + 1) /\
                      startX - 6 * (factor + 1) * len <= c
                      <= startX + factor /\
                      o = (startY + j) * width + c)
      image image'.
Proof.
  intros Hf Hw Hx Hl0 Hl Hy0 Hy Hi Ht.
  assert (Hsx : shiftedStartX startX width len factor
                = startX - 6 * (factor + 1) * len).
  { unfold shiftedStartX.
    destruct (Z.ltb_spec (width / 2) startX); [|lia].
    rewrite u32_small by nia. ring. }
  assert (Hc : clippedLen (startX - 6 * (factor + 1) * len) width len factor
               = Some len).
  { unfold clippedLen.
    replace ((len * 6 <? - 2 ^ 31) || (2 ^ 31 <=? len * 6)) with false
      by (symmetry; apply orb_false_intro;
          [apply Z.ltb_ge | apply Z.leb_gt]; nia).
    replace (startX - 6 * (factor + 1) * len + len * 6 * (factor + 1))
      with startX by ring.
    rewrite u32_small by lia.
    destruct (Z.leb_spec width startX); [lia | reflexivity]. }
  destruct (drawTextN_fits image startX startY width text len factor len
              Hf Hw ltac:(rewrite Hsx; exact Hc) ltac:(lia)
              ltac:(rewrite Hsx; lia) ltac:(rewrite Hsx; lia) Hy0 Hy Hi Ht)
    as (image' & Hdraw & Hl' & Hd).
  exists image'. split; [exact Hdraw|]. split; [exact Hl'|].
  rewrite Hsx in Hd.
  intros o. destruct (Hd o) as [E | ((j & c & Hj & Hc' & Ho) & Hv)];
    [left; exact E|].
  right. split; [|exact Hv].
  exists j, c. split; [lia|]. split; [lia | exact Ho].
Qed.

Lemma drawTextN_right_aligned_witness :
  exists image',
    drawTextN (repeat 7 (10 * 20)) 13 1 20 [49; 50; 0] 2 0 = Some image' /\
    Drawn (fun o => exists j c,
                      0 <= j < 8 * (0 + 1) /\
                      13 - 6 * (0 + 1) * 2 <= c <= 13 + 0 /\
                      o = (1 + j) * 20 + c)
      (repeat 7 (10 * 20)) image'.
Proof.
  apply (drawTextN_right_aligned (repeat 7 (10 * 20)) 13 1 20 [49; 50; 0] 2 0).
  - left. reflexivity.
  - vm_compute. split; [discriminate | reflexivity].
  - vm_compute. split; reflexivity.
  - lia.
  - lia.
  - lia.
  - vm_compute. reflexivity.
  - vm_compute. discriminate.
  - vm_compute. discriminate.
Defined.

(** X24.  Text that starts in the right half of a row and is longer than
    the columns to its left is never drawn: the start column wraps around
    below zero, the clipping that follows does not see it, and every
    character cell lies more than [2 ^ 31] bytes after the start of the
    image.  For an image of at most [2 ^ 31] bytes the call writes out of
    bounds, which is undefined behaviour, unless all the glyph pixels it
    meets are 0, and then the image is unchanged. *)
Theorem drawTextN_right_overlong image startX startY width text len factor :
  factor = 0 \/ factor = 1 ->
  7 * (factor + 1) <= width < 2 ^ 27 ->
  width / 2 < startX < width ->
  startX < 6 * (factor + 1) * len -> len < 2 ^ 27 ->
  0 <= startY * width < 2 ^ 32 ->
  Z.of_nat (length image) <= 2 ^ 31 ->
  shiftedStartX startX width len factor
  = 2 ^ 32 + startX - 6 * (factor + 1) * len /\
  clippedLen (shiftedStartX startX width len factor) width len factor
  = Some len /\
  (drawTextN image startX startY width text len factor = None \/
   exists image',
     drawTextN image startX startY width text len factor = Some image' /\
     length image' = length image /\
     forall o, rd image' o = rd image o).
Proof.
  intros Hf Hw Hx Hl Hl2 Hy Hi.
  pose proof (Z.div_pos width 2 ltac:(lia) ltac:(lia)) as Hhalf.
  assert (Hlen : 0 < len) by (destruct Hf; subst factor; lia).
  assert (Hprod : 6 * (factor + 1) * len <= 12 * len)
    by (destruct Hf; subst factor; lia).
  assert (Hsx : shiftedStartX startX width len factor
                = 2 ^ 32 + startX - 6 * (factor + 1) * len).
  { unfold shiftedStartX, u32.
    destruct (Z.ltb_spec (width / 2) startX); [|lia].
    replace (startX - len * (6 * (factor + 1)))
      with (2 ^ 32 + startX - 6 * (factor + 1) * len + (-1) * 2 ^ 32)
      by ring.
    rewrite Z.mod_add by lia. apply Z.mod_small. lia. }
  assert (Hc : clippedLen (shiftedStartX startX width len factor) width len
                 factor = Some len).
  { rewrite Hsx. unfold clippedLen.
    replace ((len * 6 <? - 2 ^ 31) || (2 ^ 31 <=? len * 6)) with false
      by (symmetry; apply orb_false_intro;
          [apply Z.ltb_ge | apply Z.leb_gt]; lia).
    replace (u32 (2 ^ 32 + startX - 6 * (factor + 1) * len
                  + len * 6 * (factor + 1))) with startX.
    - destruct (Z.leb_spec width startX); [lia | reflexivity].
    - unfold u32.
      replace (2 ^ 32 + startX - 6 * (factor + 1) * len
               + len * 6 * (factor + 1)) with (startX + 1 * 2 ^ 32) by ring.
      rewrite Z.mod_add by lia. symmetry. apply Z.mod_small. lia. }
  split; [exact Hsx|]. split; [exact Hc|].
  destruct (drawTextN image startX startY width text len factor)
    as [image'|] eqn:Hd; [right | left; reflexivity].
  exists image'. split; [reflexivity|].
  destruct (drawTextN_footprint image startX startY width text len factor
              image' Hf Hw Hy Hd) as (n & Hc' & Hl' & Hdr).
  split; [exact Hl'|].
  intros o. destruct (Hdr o) as [E | ((k & j & x & Hk & Hj & Hx' & Ho) & Hv)];
    [exact E|].
  exfalso. rewrite Hsx in Ho.
  assert (Hout : Z.of_nat (length image') <= o)
    by (rewrite Hl'; destruct Hf; subst factor; nia).
  destruct Hv as [Hv | Hv]; apply rd_Some in Hv; lia.
Qed.

Lemma drawTextN_right_overlong_witness :
  shiftedStartX 13 20 3 0 = 2 ^ 32 + 13 - 6 * (0 + 1) * 3 /\
  clippedLen (shiftedStartX 13 20 3 0) 20 3 0 = Some 3 /\
  (drawTextN (repeat 7 (10 * 20)) 13 1 20 [49; 50; 51; 0] 3 0 = None \/
   exists image',
     drawTextN (repeat 7 (10 * 20)) 13 1 20 [49; 50; 51; 0] 3 0
     = Some image' /\
     length image' = length (repeat 7 (10 * 20)) /\
     forall o, rd image' o = rd (repeat 7 (10 * 20)) o).
Proof.
  apply (drawTextN_right_overlong (repeat 7 (10 * 20)) 13 1 20
           [49; 50; 51; 0] 3 0).
  - left. reflexivity.
  - vm_compute. split; [discriminate | reflexivity].
  - vm_compute. split; reflexivity.
  - lia.
  - vm_compute. reflexivity.
  - vm_compute. split; [discriminate | reflexivity].
  - vm_compute. discriminate.
Defined.

Example right_overlong_is_undefined :
  drawTextN (repeat 7 (10 * 20)) 13 1 20 [49; 50; 51; 0] 3 0 = None.
Proof. vm_compute. reflexivity. Qed.
